(** * go-daikin: parameter codec, response framing and discovery scanner

    A shallow embedding of the Go package [daikin]: the typed parameters of
    a unit with their [setUrlValues] and [decode], [parseResponse], and, from
    [net.go], [getBroadcastAddresses] and [Discover]; followed by the
    properties of the codec, of the framing of responses and of discovery.

    Go strings are byte sequences; they are modelled by [string] (a list of
    8-bit [ascii]).  Go's [int] is the 64-bit integer of the usual targets
    and is modelled by [Z], with the range written out where the code can
    leave it.  The functions of the Go standard library that the package
    calls ([strconv], [strings], [encoding/csv], [net]) are modelled after
    their documented behaviour, next to the code that uses them. *)

From Stdlib Require Import ZArith Ascii String List Lia SpecFloat.
From stdpp Require Import base option list strings gmap fin_maps.

Local Open Scope string_scope.
Local Open Scope list_scope.
Local Open Scope Z_scope.

(** ** Bytes and decimal digits *)

Definition byteOf (c : ascii) : Z := Z.of_N (N_of_ascii c).

Definition isDigit (c : ascii) : bool := (48 <=? byteOf c) && (byteOf c <=? 57).

Definition digitVal (c : ascii) : Z := byteOf c - 48.

Definition digitChar (d : Z) : ascii := ascii_of_N (Z.to_N (48 + d)).

Definition eqb_ascii (a b : ascii) : bool := Ascii.eqb a b.
Arguments eqb_ascii : simpl never.

(** ** Package strconv (Go standard library), integer part

    [Atoi s] is [ParseInt(s, 10, 0)]: an optional sign, then one or more
    decimal digits, accumulated by [ParseUint]'s loop with its overflow
    cut-off, then the signed range check.  The short-string fast path of
    [Atoi] computes the same result and is not modelled apart. *)

Module strconv.

Inductive NumError := ErrSyntax | ErrRange.

Definition intSize : Z := 64.
Definition maxUint64 : Z := 2 ^ 64 - 1.
Definition maxInt : Z := 2 ^ (intSize - 1) - 1.
Definition minInt : Z := - 2 ^ (intSize - 1).

(** The digit loop of [ParseUint] for base 10 and bit size 64. *)
Fixpoint parseUintLoop (s : string) (n : Z) : Z + NumError :=
  match s with
  | EmptyString => inl n
  | String c rest =>
      if isDigit c then
        if maxUint64 / 10 + 1 <=? n then inr ErrRange
        else
          let n1 := n * 10 + digitVal c in
          if maxUint64 <? n1 then inr ErrRange else parseUintLoop rest n1
      else inr ErrSyntax
  end.

Definition ParseUint (s : string) : Z + NumError :=
  match s with
  | EmptyString => inr ErrSyntax
  | _ => parseUintLoop s 0
  end.

Definition ParseInt (s : string) : Z + NumError :=
  match s with
  | EmptyString => inr ErrSyntax
  | String c rest =>
      let neg := eqb_ascii c "-"%char in
      let s' := if eqb_ascii c "+"%char || eqb_ascii c "-"%char then rest else s in
      match ParseUint s' with
      | inr e => inr e
      | inl un =>
          let cutoff := 2 ^ (intSize - 1) in
          if negb neg && (cutoff <=? un) then inr ErrRange
          else if neg && (cutoff <? un) then inr ErrRange
          else inl (if neg then - un else un)
      end
  end.

Definition Atoi (s : string) : Z + NumError := ParseInt s.

(** [formatBits] for base 10: digits are written from the end of the
    buffer towards its start.  Twenty digits hold every 64-bit value. *)
Fixpoint formatBits (fuel : nat) (u : Z) (acc : string) : string :=
  match fuel with
  | O => acc
  | S fuel' =>
      let acc' := String (digitChar (u mod 10)) acc in
      if u <? 10 then acc' else formatBits fuel' (u / 10) acc'
  end.

Definition FormatInt (i : Z) : string :=
  if i <? 0 then String "-"%char (formatBits 20 (- i) "") else formatBits 20 i "".

Definition Itoa (i : Z) : string := FormatInt i.

(** *** Floating point

    A [float64] is given by its IEEE 754 value, a [spec_float] of binary64
    (53 bits of precision, infinities at exponent 1024).

    [FormatFloat(f, 'f', 1, 64)]: the exact decimal expansion of [f],
    rounded to one digit after the point, to nearest and to even on a tie
    (the library's [bigFtoa] then [%f]); the texts [NaN], [+Inf] and [-Inf]
    for the values that are not finite. *)

(** The decimal digits of a natural number of any size. *)
Definition formatDecimal (u : Z) : string :=
  formatBits (S (Z.to_nat (Z.log2 u))) u "".

(** [f * 10] rounded to an integer, for [f = m * 2 ^ e]. *)
Definition roundTenths (m : positive) (e : Z) : Z :=
  if 0 <=? e then Z.pos m * 2 ^ e * 10
  else
    let num := Z.pos m * 10 in
    let den := 2 ^ (- e) in
    let q := num / den in
    let r := num mod den in
    if (den <? 2 * r) || ((2 * r =? den) && Z.odd q) then q + 1 else q.

Definition FormatFloat_f1 (f : spec_float) : string :=
  match f with
  | S754_nan => "NaN"
  | S754_infinity false => "+Inf"
  | S754_infinity true => "-Inf"
  | S754_zero s => (if s then "-" else "") +:+ "0.0"
  | S754_finite s m e =>
      let q := roundTenths m e in
      (if s then "-" else "")
      +:+ formatDecimal (q / 10) +:+ "." +:+ String (digitChar (q mod 10)) ""
  end.

(** [ParseFloat(s, 64)].  The syntax is read as [special] and [readFloat]
    read it (decimal and hexadecimal mantissas, underscores between
    digits); the number read is kept exactly and rounded to the nearest
    [float64], to even on a tie, which is what the library's conversions
    compute; a number that rounds to an infinity is a range error. *)

Definition lower (c : ascii) : ascii := ascii_of_N (N.lor (N_of_ascii c) 32).

Definition isUpper (c : ascii) : bool := (65 <=? byteOf c) && (byteOf c <=? 90).

Fixpoint commonPrefixLenIgnoreCase (s prefix : string) : nat :=
  match s, prefix with
  | String c s', String p prefix' =>
      let c := if isUpper c then lower c else c in
      if eqb_ascii c p then S (commonPrefixLenIgnoreCase s' prefix') else O
  | _, _ => O
  end.

Definition specialInf (s : string) (neg : bool) (nsign : nat) : option (spec_float * nat) :=
  let n := commonPrefixLenIgnoreCase s "infinity" in
  let n := if (3 <? n)%nat && (n <? 8)%nat then 3%nat else n in
  if (n =? 3)%nat || (n =? 8)%nat then Some (S754_infinity neg, (nsign + n)%nat)
  else None.

(** [special]: the value and the number of bytes read. *)
Definition special (s : string) : option (spec_float * nat) :=
  match s with
  | EmptyString => None
  | String c rest =>
      if eqb_ascii c "+"%char || eqb_ascii c "-"%char
      then specialInf rest (eqb_ascii c "-"%char) 1
      else if eqb_ascii c "i"%char || eqb_ascii c "I"%char
      then specialInf s false 0
      else if eqb_ascii c "n"%char || eqb_ascii c "N"%char
      then if (commonPrefixLenIgnoreCase s "nan" =? 3)%nat
           then Some (S754_nan, 3%nat) else None
      else None
  end.

Record mantissa := {
  sawdot : bool;
  sawdigits : bool;
  underscores : bool;
  nd : Z;       (* digits read, the leading zeros apart *)
  dp : Z;       (* position of the point *)
  mant : Z      (* the digits read, as a number *)
}.

Definition isHexLetter (c : ascii) : bool :=
  (97 <=? byteOf (lower c)) && (byteOf (lower c) <=? 102).

(** The loop of [readFloat] over the digits of the mantissa; it returns
    where it stopped. *)
Fixpoint readDigits (base : Z) (s : string) (st : mantissa) : mantissa * string :=
  match s with
  | EmptyString => (st, s)
  | String c rest =>
      if eqb_ascii c "_"%char then
        readDigits base rest
          {| sawdot := sawdot st; sawdigits := sawdigits st; underscores := true;
             nd := nd st; dp := dp st; mant := mant st |}
      else if eqb_ascii c "."%char then
        if sawdot st then (st, s)
        else readDigits base rest
               {| sawdot := true; sawdigits := sawdigits st;
                  underscores := underscores st;
                  nd := nd st; dp := nd st; mant := mant st |}
      else if isDigit c then
        if eqb_ascii c "0"%char && (nd st =? 0) then
          readDigits base rest
            {| sawdot := sawdot st; sawdigits := true; underscores := underscores st;
               nd := nd st; dp := dp st - 1; mant := mant st |}
        else
          readDigits base rest
            {| sawdot := sawdot st; sawdigits := true; underscores := underscores st;
               nd := nd st + 1; dp := dp st; mant := mant st * base + digitVal c |}
      else if (base =? 16) && isHexLetter c then
        readDigits base rest
          {| sawdot := sawdot st; sawdigits := true; underscores := underscores st;
             nd := nd st + 1; dp := dp st;
             mant := mant st * 16 + (byteOf (lower c) - 97 + 10) |}
      else (st, s)
  end.

(** The loop over the digits of the exponent. *)
Fixpoint readExponent (s : string) (e : Z) (us : bool) : Z * bool * string :=
  match s with
  | EmptyString => (e, us, s)
  | String c rest =>
      if isDigit c then
        readExponent rest (if e <? 10000 then e * 10 + digitVal c else e) us
      else if eqb_ascii c "_"%char then readExponent rest e true
      else (e, us, s)
  end.

Record floatText := {
  neg : bool;
  hex : bool;
  mantissaValue : Z;
  exponent : Z;           (* of 10, or of 2 when [hex] *)
  sawUnderscores : bool;
  unread : string
}.

(** [readFloat]: [None] when it reports that no number was read. *)
Definition readFloat (s : string) : option floatText :=
  match s with
  | EmptyString => None
  | String c0 rest0 =>
      let neg := eqb_ascii c0 "-"%char in
      let s1 := if eqb_ascii c0 "+"%char || eqb_ascii c0 "-"%char then rest0 else s in
      let isHex :=
        (2 <? String.length s1)%nat
        && match s1 with
           | String a (String b _) => eqb_ascii a "0"%char && eqb_ascii (lower b) "x"%char
           | _ => false
           end in
      let base := if isHex then 16 else 10 in
      let expChar := if isHex then "p"%char else "e"%char in
      let s2 := if isHex then match s1 with String _ (String _ r) => r | _ => s1 end else s1 in
      let '(st, s3) :=
        readDigits base s2
          {| sawdot := false; sawdigits := false; underscores := false;
             nd := 0; dp := 0; mant := 0 |} in
      if negb (sawdigits st) then None
      else
        let dp := if sawdot st then dp st else nd st in
        let dp := if isHex then dp * 4 else dp in
        let ndMant := if isHex then nd st * 4 else nd st in
        let finish (dp : Z) (us : bool) (rest : string) :=
          Some {| neg := neg; hex := isHex; mantissaValue := mant st;
                  exponent := if mant st =? 0 then 0 else dp - ndMant;
                  sawUnderscores := us; unread := rest |} in
        match s3 with
        | String c s4 =>
            if eqb_ascii (lower c) expChar then
              match s4 with
              | EmptyString => None
              | String c' s5 =>
                  let esign := if eqb_ascii c' "-"%char then -1 else 1 in
                  let s6 := if eqb_ascii c' "+"%char || eqb_ascii c' "-"%char
                            then s5 else s4 in
                  match s6 with
                  | EmptyString => None
                  | String c'' _ =>
                      if negb (isDigit c'') then None
                      else
                        let '(e, us, s7) := readExponent s6 0 (underscores st) in
                        finish (dp + e * esign) us s7
                  end
              end
            else if isHex then None
            else finish dp (underscores st) s3
        | EmptyString => if isHex then None else finish dp (underscores st) s3
        end
  end.

(** The loop of [underscoreOK], with the last byte seen: [0] for a digit
    or the base prefix, [_] for an underscore, [!] or [^] otherwise. *)
Fixpoint underscoreLoop (hex : bool) (s : string) (saw : ascii) : bool :=
  match s with
  | EmptyString => negb (eqb_ascii saw "_"%char)
  | String c rest =>
      if isDigit c || (hex && isHexLetter c) then underscoreLoop hex rest "0"%char
      else if eqb_ascii c "_"%char then
        if negb (eqb_ascii saw "0"%char) then false
        else underscoreLoop hex rest "_"%char
      else if eqb_ascii saw "_"%char then false
      else underscoreLoop hex rest "!"%char
  end.

Definition underscoreOK (s : string) : bool :=
  let s := match s with
           | String c rest =>
               if eqb_ascii c "-"%char || eqb_ascii c "+"%char then rest else s
           | EmptyString => s
           end in
  match s with
  | String a (String b rest) =>
      if eqb_ascii a "0"%char
         && (eqb_ascii (lower b) "b"%char || eqb_ascii (lower b) "o"%char
             || eqb_ascii (lower b) "x"%char)
      then underscoreLoop (eqb_ascii (lower b) "x"%char) rest "0"%char
      else underscoreLoop false s "^"%char
  | _ => underscoreLoop false s "^"%char
  end.

(** The nearest [float64] of the number read. *)
Definition nearestFloat64 (t : floatText) : spec_float :=
  match mantissaValue t with
  | Z.pos m =>
      if hex t then binary_round 53 1024 (neg t) m (exponent t)
      else if 0 <=? exponent t
      then binary_round 53 1024 (neg t) (Z.to_pos (Z.pos m * 10 ^ exponent t)) 0
      else SFdiv 53 1024 (S754_finite (neg t) m 0)
                 (S754_finite false (Z.to_pos (10 ^ (- exponent t))) 0)
  | _ => S754_zero (neg t)
  end.

Definition ParseFloat (s : string) : spec_float + NumError :=
  match special s with
  | Some (f, n) => if (n =? String.length s)%nat then inl f else inr ErrSyntax
  | None =>
      match readFloat s with
      | None => inr ErrSyntax
      | Some t =>
          let n := (String.length s - String.length (unread t))%nat in
          if sawUnderscores t && negb (underscoreOK s) then inr ErrSyntax
          else if negb (n =? String.length s)%nat then inr ErrSyntax
          else
            match nearestFloat64 t with
            | S754_infinity _ => inr ErrRange
            | f => inl f
            end
      end
  end.

End strconv.

(** ** Package strings (Go standard library) *)

Module strings.

Fixpoint take (n : nat) (s : string) : string :=
  match n, s with
  | S n', String c rest => String c (take n' rest)
  | _, _ => EmptyString
  end.

Fixpoint drop (n : nat) (s : string) : string :=
  match n, s with
  | S n', String _ rest => drop n' rest
  | _, _ => s
  end.

Fixpoint hasPrefix (sep s : string) : bool :=
  match sep, s with
  | EmptyString, _ => true
  | String a sep', String b s' => eqb_ascii a b && hasPrefix sep' s'
  | String _ _, EmptyString => false
  end.

(** [Index s sep]: the index of the first instance of [sep] in [s]. *)
Fixpoint Index (s sep : string) : option nat :=
  if hasPrefix sep s then Some 0%nat
  else match s with
       | EmptyString => None
       | String _ rest => S <$> Index rest sep
       end.

(** [genSplit] after its preamble, for a non-empty separator: [n] counts
    the separators still to be split at; the last element is the unsplit
    remainder. *)
Fixpoint genSplit (s sep : string) (n : nat) : list string :=
  match n with
  | O => [s]
  | S n' =>
      match Index s sep with
      | None => [s]
      | Some m => take m s :: genSplit (drop (m + String.length sep) s) sep n'
      end
  end.

(** [SplitN s sep n] for [n > 0] and a non-empty [sep], the only use the
    package makes of it: [n] is first capped at [len(s) + 1]. *)
Definition SplitN (s sep : string) (n : nat) : list string :=
  let n := Nat.min n (String.length s + 1) in
  genSplit s sep (n - 1).

End strings.

(** ** Package encoding/csv (Go standard library)

    [NewReader(r).ReadAll()] with the reader's defaults: comma separator, no
    comment character, [FieldsPerRecord = 0] (every record must have as many
    fields as the first), [LazyQuotes] and [TrimLeadingSpace] off.  The
    reader below is written after [Reader.readLine], [Reader.readRecord] and
    [Reader.ReadAll]; the positions that the library only keeps for its
    error messages are left out.  The loops take a bound on their number of
    turns, which the length of the input provides. *)

Module csv.

Inductive ParseError := ErrBareQuote | ErrQuote | ErrFieldCount.

Definition LF : ascii := "010"%char.
Definition CR : ascii := "013"%char.
Definition quote : ascii := "034"%char.
Definition comma : ascii := ","%char.

Fixpoint IndexByte (b : string) (c : ascii) : option nat :=
  match b with
  | EmptyString => None
  | String x rest => if eqb_ascii x c then Some 0%nat else S <$> IndexByte rest c
  end.

Fixpoint lastByte (b : string) : option ascii :=
  match b with
  | EmptyString => None
  | String x EmptyString => Some x
  | String _ rest => lastByte rest
  end.

Definition byteIs (o : option ascii) (c : ascii) : bool :=
  match o with
  | Some x => eqb_ascii x c
  | None => false
  end.

Definition lengthNL (b : string) : nat :=
  if byteIs (lastByte b) LF then 1%nat else 0%nat.

(** [readLine]: the next line with its newline, [\r\n] normalised to [\n]
    and a trailing [\r] before the end of the input dropped; the flag is
    [io.EOF]; the last component is the input left. *)
Definition readLine (input : string) : string * bool * string :=
  let '(line, eof, rest) :=
    match IndexByte input LF with
    | Some i => (strings.take (S i) input, false, strings.drop (S i) input)
    | None => (input, true, EmptyString)
    end in
  let readSize := String.length line in
  let '(line, eof) :=
    if (0 <? readSize)%nat && eof then
      (if byteIs (lastByte line) CR then strings.take (readSize - 1) line else line,
       false)
    else (line, eof) in
  let n := String.length line in
  let line :=
    if (2 <=? n)%nat && byteIs (String.get (n - 2) line) CR
       && byteIs (String.get (n - 1) line) LF
    then strings.take (n - 2) line +:+ String LF EmptyString
    else line in
  (line, eof, rest).

Inductive quoted :=
| QComma (field line rest : string)   (* quote, comma: the field ends, the record goes on *)
| QEnd (field rest : string)          (* quote, end of line: the field and the record end *)
| QErr (e : ParseError)
| QFuel.

(** The inner loop of a quoted field; [line] starts after the opening
    quote. *)
Fixpoint quotedField (fuel : nat) (line rest buf : string) : quoted :=
  match fuel with
  | O => QFuel
  | S fuel' =>
      match IndexByte line quote with
      | Some i =>
          let buf := buf +:+ strings.take i line in
          let line := strings.drop (i + 1) line in
          if byteIs (String.get 0 line) quote then
            quotedField fuel' (strings.drop 1 line) rest (buf +:+ String quote EmptyString)
          else if byteIs (String.get 0 line) comma then
            QComma buf (strings.drop 1 line) rest
          else if (lengthNL line =? String.length line)%nat then
            QEnd buf rest
          else QErr ErrQuote
      | None =>
          if (0 <? String.length line)%nat then
            let buf := buf +:+ line in
            let '(line', _, rest') := readLine rest in
            quotedField fuel' line' rest' buf
          else QErr ErrQuote
      end
  end.

Inductive parsed :=
| PRecord (fields : list string) (rest : string)
| PErr (e : ParseError)
| PFuel.

Definition hasQuote (field : string) : bool :=
  match IndexByte field quote with
  | Some _ => true
  | None => false
  end.

(** The [parseField] loop of [readRecord]. *)
Fixpoint parseField (fuel : nat) (line rest : string) (fields : list string) : parsed :=
  match fuel with
  | O => PFuel
  | S fuel' =>
      if (String.length line =? 0)%nat || negb (byteIs (String.get 0 line) quote) then
        match IndexByte line comma with
        | Some i =>
            let field := strings.take i line in
            if hasQuote field then PErr ErrBareQuote
            else parseField fuel' (strings.drop (i + 1) line) rest (fields ++ [field])
        | None =>
            let field := strings.take (String.length line - lengthNL line) line in
            if hasQuote field then PErr ErrBareQuote
            else PRecord (fields ++ [field]) rest
        end
      else
        match quotedField fuel' (strings.drop 1 line) rest EmptyString with
        | QComma field line' rest' => parseField fuel' line' rest' (fields ++ [field])
        | QEnd field rest' => PRecord (fields ++ [field]) rest'
        | QErr e => PErr e
        | QFuel => PFuel
        end
  end.

Inductive record :=
| REOF
| RRecord (fields : list string) (rest : string)
| RErr (e : ParseError)
| RFuel.

(** [readRecord]: skip the empty lines, then parse the fields of one
    record. *)
Fixpoint readRecord (fuel : nat) (input : string) : record :=
  match fuel with
  | O => RFuel
  | S fuel' =>
      let '(line, errRead, rest) := readLine input in
      if negb errRead && (String.length line =? lengthNL line)%nat then
        readRecord fuel' rest
      else if errRead then REOF
      else
        match parseField (S (String.length line + String.length rest)) line rest [] with
        | PRecord fields rest' => RRecord fields rest'
        | PErr e => RErr e
        | PFuel => RFuel
        end
  end.

(** The loop of [ReadAll], with the check of the number of fields that
    [readRecord] ends with.  [None] is returned when the bound on the turns
    is reached. *)
Fixpoint readAll (fuel : nat) (input : string) (FieldsPerRecord : nat)
    (records : list (list string)) : option (list (list string) + ParseError) :=
  match fuel with
  | O => None
  | S fuel' =>
      match readRecord (S (String.length input)) input with
      | REOF => Some (inl records)
      | RErr e => Some (inr e)
      | RFuel => None
      | RRecord fields rest =>
          if (0 <? FieldsPerRecord)%nat then
            if negb (length fields =? FieldsPerRecord)%nat then Some (inr ErrFieldCount)
            else readAll fuel' rest FieldsPerRecord (records ++ [fields])
          else readAll fuel' rest (length fields) (records ++ [fields])
      end
  end.

Definition ReadAll (input : string) : option (list (list string) + ParseError) :=
  readAll (S (String.length input)) input 0 [].

End csv.


(** ** Errors

    One constructor per [fmt.Errorf] site of the package, carrying the
    values the message is formatted from. *)

Inductive error :=
| ErrUnknownPwr (s : string)                        (* "unknown pwr value: %s" *)
| ErrUnknownMode (s : string)                       (* "unknown mode value: %s" *)
| ErrInvalidFDir (s : string) (e : strconv.NumError) (* "invalid f_dir value: %s (err=%v)" *)
| ErrUnknownFDir (s : string)                       (* "unknown f_dir value: %s" *)
| ErrParseSTemp (v : string) (e : strconv.NumError) (* "error parsing s_temp=%s: %v" *)
| ErrParseSHum (v : string) (e : strconv.NumError)  (* "error parsing s_hum=%s: %v" *)
| ErrDeviceRet (v : string)                         (* "device returned error ret=%s" *)
| ErrRows (n : nat)                                 (* "Have %d rows of records, want just one" *)
| ErrNoInterface (name : string)                    (* "no interface or no addresses: %s" *)
| ErrCsv (e : csv.ParseError)                       (* an error of the csv reader *)
| ErrLib (what : string).                           (* an error of a library call, passed on *)

(** ** url.Values

    [url.Values] is [map[string][]string]; [Set] replaces the values of a
    key by the one given, [Get] is the first value of a key or the empty
    string. *)

Module url.

Definition Set_ (key value : string) (v : gmap string (list string)) :
  gmap string (list string) := <[key := [value]]> v.

Definition Get (v : gmap string (list string)) (key : string) : string :=
  match v !! key with
  | Some (x :: _) => x
  | _ => ""
  end.

End url.

(** ** Power *)

Definition PowerOff : Z := 0.
Definition PowerOn : Z := 1.

Definition Power_consts : list Z := [PowerOff; PowerOn].

Definition powerMap : gmap Z string :=
  list_to_map [(PowerOff, "Off"); (PowerOn, "On")].

Definition Power_setUrlValues (p : Z) (v : gmap string (list string)) :=
  url.Set_ "pow" (strconv.Itoa p) v.

(** [decode] has a pointer receiver: the model takes the value the receiver
    holds before the call and returns the value it holds after it, with the
    error returned. *)
Definition Power_decode (s : string) (p : Z) : Z * option error :=
  if String.eqb s "0" then (PowerOff, None)
  else if String.eqb s "1" then (PowerOn, None)
  else (p, Some (ErrUnknownPwr s)).

(** ** Mode *)

Definition ModeDehumidify : Z := 2.
Definition ModeCool : Z := 3.
Definition ModeHeat : Z := 4.
Definition ModeFan : Z := 6.
Definition ModeAuto : Z := 0.
Definition ModeAuto1 : Z := 1.
Definition ModeAuto7 : Z := 7.

Definition Mode_consts : list Z :=
  [ModeDehumidify; ModeCool; ModeHeat; ModeFan; ModeAuto; ModeAuto1; ModeAuto7].

Definition modeMap : gmap Z string :=
  list_to_map [(ModeDehumidify, "Dehumidify"); (ModeCool, "Cool");
               (ModeHeat, "Heat"); (ModeFan, "Fan"); (ModeAuto, "Auto");
               (ModeAuto1, "Auto"); (ModeAuto7, "Auto")].

Definition Mode_setUrlValues (m : Z) (v : gmap string (list string)) :=
  url.Set_ "mode" (strconv.Itoa m) v.

Definition Mode_decode (s : string) (m : Z) : Z * option error :=
  if String.eqb s "2" then (ModeDehumidify, None)
  else if String.eqb s "3" then (ModeCool, None)
  else if String.eqb s "4" then (ModeHeat, None)
  else if String.eqb s "6" then (ModeFan, None)
  else if String.eqb s "0" then (ModeAuto, None)
  else if String.eqb s "1" then (ModeAuto1, None)
  else if String.eqb s "7" then (ModeAuto7, None)
  else (m, Some (ErrUnknownMode s)).

(** ** Fan *)

Definition FanAuto : string := "A".
Definition FanSilent : string := "B".
Definition Fan1 : string := "3".
Definition Fan2 : string := "4".
Definition Fan3 : string := "5".
Definition Fan4 : string := "6".
Definition Fan5 : string := "7".

Definition Fan_consts : list string :=
  [FanAuto; FanSilent; Fan1; Fan2; Fan3; Fan4; Fan5].

Definition fanMap : gmap string string :=
  list_to_map [(FanAuto, "Auto"); (FanSilent, "Silent"); (Fan1, "1");
               (Fan2, "2"); (Fan3, "3"); (Fan4, "4"); (Fan5, "5")].

Definition Fan_setUrlValues (f : string) (v : gmap string (list string)) :=
  url.Set_ "f_rate" f v.

Definition Fan_decode (s : string) (f : string) : string * option error :=
  if String.eqb s "A" then (FanAuto, None)
  else if String.eqb s "B" then (FanSilent, None)
  else if String.eqb s "3" then (Fan1, None)
  else if String.eqb s "4" then (Fan2, None)
  else if String.eqb s "5" then (Fan3, None)
  else if String.eqb s "6" then (Fan4, None)
  else if String.eqb s "7" then (Fan5, None)
  else (f, Some (ErrUnknownPwr s)).

(** ** FanDir *)

Definition FanDirStopped : Z := 0.
Definition FanDirVertical : Z := 1.
Definition FanDirHorizontal : Z := 2.
Definition FanDirBoth : Z := 3.

Definition FanDir_consts : list Z :=
  [FanDirStopped; FanDirVertical; FanDirHorizontal; FanDirBoth].

Definition fanDirMap : gmap Z string :=
  list_to_map [(FanDirStopped, "Stopped"); (FanDirVertical, "Vertical");
               (FanDirHorizontal, "Horizontal"); (FanDirBoth, "Both")].

Definition FanDir_setUrlValues (f : Z) (v : gmap string (list string)) :=
  url.Set_ "f_dir" (strconv.Itoa f) v.

Definition FanDir_decode (s : string) (f : Z) : Z * option error :=
  match strconv.Atoi s with
  | inr err => (f, Some (ErrInvalidFDir s err))
  | inl v =>
      let fd := v in
      match fanDirMap !! fd with
      | None => (f, Some (ErrUnknownFDir s))
      | Some _ => (fd, None)
      end
  end.

(** ** Humidity

    [Humidity] is an [int32]: the conversion [Humidity(val)] of an [int]
    keeps the low 32 bits, read as a signed number. *)

Definition int32 (z : Z) : Z := (z + 2 ^ 31) mod 2 ^ 32 - 2 ^ 31.

Definition Humidity_String (h : Z) : string := strconv.Itoa h.

Definition Humidity_setUrlValues (h : Z) (v : gmap string (list string)) :=
  url.Set_ "shum" (Humidity_String h) v.

Definition Humidity_decode (v : string) (h : Z) : Z * option error :=
  let v := if String.eqb v "-" then "-1" else v in
  match strconv.Atoi v with
  | inr err => (h, Some (ErrParseSHum v err))
  | inl val => (int32 val, None)
  end.

(** The wire string of a value: what [setUrlValues] writes under the
    field's key into an empty [url.Values]. *)

Definition Power_encode (p : Z) : string := url.Get (Power_setUrlValues p ∅) "pow".
Definition Mode_encode (m : Z) : string := url.Get (Mode_setUrlValues m ∅) "mode".
Definition Fan_encode (f : string) : string := url.Get (Fan_setUrlValues f ∅) "f_rate".
Definition FanDir_encode (f : Z) : string := url.Get (FanDir_setUrlValues f ∅) "f_dir".
Definition Humidity_encode (h : Z) : string := url.Get (Humidity_setUrlValues h ∅) "shum".

(** Decimal integer syntax: an optional sign and at least one digit. *)

Fixpoint allDigits (s : string) : bool :=
  match s with
  | EmptyString => true
  | String c rest => isDigit c && allDigits rest
  end.

Definition decimalSyntax (s : string) : bool :=
  match s with
  | EmptyString => false
  | String c rest =>
      if eqb_ascii c "+"%char || eqb_ascii c "-"%char
      then negb (String.eqb rest "") && allDigits rest
      else allDigits s
  end.

(** ** Temperature

    [Temperature] is a [float64]. *)

Definition Temperature_String (t : spec_float) : string := strconv.FormatFloat_f1 t.

Definition Temperature_setUrlValues (t : spec_float) (v : gmap string (list string)) :=
  url.Set_ "stemp" (Temperature_String t) v.

Definition Temperature_decode (v : string) (t : spec_float) : spec_float * option error :=
  match strconv.ParseFloat v with
  | inr err => (t, Some (ErrParseSTemp v err))
  | inl val => (val, None)
  end.

Definition Temperature_encode (t : spec_float) : string :=
  url.Get (Temperature_setUrlValues t ∅) "stemp".
(** ** parseResponse *)

(** What a call does: it returns a value, returns an error, or panics. *)
Inductive outcome (A : Type) :=
| Ret (a : A)
| Fail (e : error)
| Panic (what : string).
Arguments Ret {A} a.
Arguments Fail {A} e.
Arguments Panic {A} what.

(** The loop over [records[0]]: [parts[1]] is read without a check of the
    length of [parts]. *)
Fixpoint parseResponse_fields (rec : list string) (values : gmap string string) :
    outcome (gmap string string) :=
  match rec with
  | [] => Ret values
  | r :: rec' =>
      let parts := strings.SplitN r "=" 2 in
      match parts !! 0%nat, parts !! 1%nat with
      | Some k, Some v => parseResponse_fields rec' (<[k := v]> values)
      | _, _ => Panic "index out of range"
      end
  end.

(** [parseResponse], from the body read from the response ([inr] when
    reading it fails).  [None] stands for a reader that has not returned
    within its bound. *)
Definition parseResponse (body : string + string) :
    option (outcome (gmap string string)) :=
  match body with
  | inr err => Some (Fail (ErrLib err))
  | inl body =>
      match csv.ReadAll body with
      | None => None
      | Some (inr err) => Some (Fail (ErrCsv err))
      | Some (inl records) =>
          if negb (length records =? 1)%nat then Some (Fail (ErrRows (length records)))
          else
            match records !! 0%nat with
            | Some rec => Some (parseResponse_fields rec ∅)
            | None => Some (Panic "index out of range")
            end
      end
  end.

(** ** The device and the network *)

(** [SensorInfo] and [ControlInfo]; temperatures are the [float64] of the
    source, given by their IEEE 754 value. *)
Record SensorInfo := {
  HomeTemperature : spec_float;
  OutsideTemperature : spec_float;
  SensorHumidity : Z
}.

Record ControlInfo := {
  Power : Z;
  Mode : Z;
  Fan : string;
  FanDir : Z;
  Temperature : spec_float;
  Humidity : Z
}.

(** [Daikin]; the two pointers are [None] when nil. *)
Record Daikin := {
  Address : string;
  Name : string;
  DaikinControlInfo : option ControlInfo;
  DaikinSensorInfo : option SensorInfo
}.

(** [&Daikin{Address: ip}] *)
Definition newDaikin (ip : string) : Daikin :=
  {| Address := ip; Name := ""; DaikinControlInfo := None; DaikinSensorInfo := None |}.

(** *** Package net (Go standard library)

    An [IP] and an [IPMask] are byte slices, here lists of numbers below
    256.  The functions of the package that read and write the text of an
    address are taken as given, in [NetLib]. *)

Module net.

Definition FlagUp : Z := Z.shiftl 1 0.
Definition FlagBroadcast : Z := Z.shiftl 1 1.
Definition FlagLoopback : Z := Z.shiftl 1 2.
Definition FlagPointToPoint : Z := Z.shiftl 1 3.
Definition FlagMulticast : Z := Z.shiftl 1 4.
Definition FlagRunning : Z := Z.shiftl 1 5.

Record IPNet := { IP : list Z; Mask : list Z }.

(** An interface: its name, its flags, and what [Addrs] returns (the
    [String()] of each address, or an error). *)
Record Interface := {
  IfName : string;
  Flags : Z;
  Addrs : list string + string
}.

Fixpoint isZeros (p : list Z) : bool :=
  match p with
  | [] => true
  | x :: p' => (x =? 0) && isZeros p'
  end.

(** [IP.To4] *)
Definition To4 (ip : list Z) : option (list Z) :=
  if (length ip =? 4)%nat then Some ip
  else if (length ip =? 16)%nat && isZeros (take 10 ip)
          && bool_decide (ip !! 10%nat = Some 255)
          && bool_decide (ip !! 11%nat = Some 255)
  then Some (drop 12 ip)
  else None.

Record NetLib := {
  (* [net.ParseCIDR]: the address and the network, or [None] for an error *)
  ParseCIDR : string → option (list Z * IPNet);
  (* [net.ParseIP]: [None] is the nil IP *)
  ParseIP : string → option (list Z);
  (* [IP.String] *)
  IPString : list Z → string
}.

End net.

Definition wantFlags : Z :=
  Z.lor (Z.lor net.FlagUp net.FlagBroadcast) net.FlagMulticast.

Definition udpQueryPayload : string := "DAIKIN_UDP/common/basic_info".

(** [DaikinNetwork]; [Devices] is [None] when the map is nil, as it is in a
    [DaikinNetwork] that was not made by [NewNetwork]. *)
Record DaikinNetwork := {
  Interface : string;
  PollInterval : Z;
  PollCount : Z;
  Devices : option (gmap string Daikin);
  broadcasts : list (list Z)
}.

Definition set_broadcasts (b : list (list Z)) (d : DaikinNetwork) : DaikinNetwork :=
  {| Interface := Interface d; PollInterval := PollInterval d;
     PollCount := PollCount d; Devices := Devices d; broadcasts := b |}.

Definition set_Devices (m : option (gmap string Daikin)) (d : DaikinNetwork) : DaikinNetwork :=
  {| Interface := Interface d; PollInterval := PollInterval d;
     PollCount := PollCount d; Devices := m; broadcasts := broadcasts d |}.

(** *** getBroadcastAddresses *)

(** The test that makes the loop over the interfaces [continue]:
    [i.Flags != wantFlags || d.Interface != "" && i.Name != d.Interface]. *)
Definition skipInterface (d : DaikinNetwork) (i : net.Interface) : bool :=
  negb (net.Flags i =? wantFlags)
  || negb (String.eqb (Interface d) "") && negb (String.eqb (net.IfName i) (Interface d)).

(** One octet of the broadcast address:
    [byte(network.IP[i]) | (0xff - network.Mask[i])], in bytes. *)
Definition bCastOctet (ip mask : Z) : Z := Z.lor (ip mod 256) ((255 - mask) mod 256).

(** The loop that fills [bCast]; [None] when an index is out of range. *)
Definition bCastOf (network : net.IPNet) : option (list Z) :=
  foldl (λ acc i,
           match acc, net.IP network !! i, net.Mask network !! i with
           | Some b, Some x, Some m => Some (<[i := bCastOctet x m]> b)
           | _, _, _ => None
           end)
        (Some [0; 0; 0; 0]) [0; 1; 2; 3]%nat.

Section Discovery.

Variable lib : net.NetLib.

(** The loop over the addresses of one interface. *)
Fixpoint addrLoop (adr : list string) (bs : list (list Z)) : outcome (list (list Z)) :=
  match adr with
  | [] => Ret bs
  | a :: adr' =>
      match net.ParseCIDR lib a with
      | None => addrLoop adr' bs
      | Some (ip, network) =>
          match net.To4 ip with
          | None => addrLoop adr' bs
          | Some _ =>
              match bCastOf network with
              | None => Panic "index out of range"
              | Some bCast => addrLoop adr' (bs ++ [bCast])
              end
          end
      end
  end.

(** The loop over the interfaces. *)
Fixpoint ifaceLoop (d : DaikinNetwork) (interfaces : list net.Interface)
    (bs : list (list Z)) : outcome (list (list Z)) :=
  match interfaces with
  | [] => Ret bs
  | i :: interfaces' =>
      if skipInterface d i then ifaceLoop d interfaces' bs
      else
        match net.Addrs i with
        | inr _ => ifaceLoop d interfaces' bs
        | inl adr =>
            match addrLoop adr bs with
            | Ret bs' => ifaceLoop d interfaces' bs'
            | other => other
            end
        end
  end.

(** [getBroadcastAddresses], from what [net.Interfaces()] returns: the
    network after the call, and the error returned ([Ret tt] for nil). *)
Definition getBroadcastAddresses (interfaces : list net.Interface + string)
    (d : DaikinNetwork) : DaikinNetwork * outcome unit :=
  let d := set_broadcasts [] d in
  match interfaces with
  | inr err => (d, Fail (ErrLib err))
  | inl interfaces =>
      match ifaceLoop d interfaces [] with
      | Panic what => (d, Panic what)
      | Fail e => (d, Fail e)
      | Ret bs =>
          let d := set_broadcasts bs d in
          if (length (broadcasts d) =? 0)%nat && negb (String.eqb (Interface d) "")
          then (d, Fail (ErrNoInterface (Interface d)))
          else (d, Ret tt)
      end
  end.

(** *** Discover

    The calls on the network are the events of a run; what the network
    answers is given by the [World].  The pollers are goroutines: the
    [schedule] names, turn by turn, the poller that takes its next step and
    what the socket answers it.  A step is one call on the socket, or the
    store into [d.Devices] that follows a read ([PStore]): the lookup and
    the store of a registration are two steps, and other pollers may run in
    between.

    [d.Devices] is a plain Go map that the pollers read and write with no
    lock.  Two things follow, and both are part of the model.  A store into
    a nil map panics, and a panic in a goroutine ends the process
    ([PPanic]).  And no access of one poller is ordered with an access of
    another: a run in which a poller stores into the map and another poller
    reads or stores into it has a data race, for which Go defines no
    result (the runtime may stop the process with [concurrent map writes],
    or the map may be corrupted).  Each poller therefore records whether
    it has read the map and whether it has stored into it. *)

Inductive readResult :=
| ReadTimeout
| ReadError (what : string)
| ReadFrom (rAddr : list Z).

Record answer := {
  who : nat;
  writeFails : bool;
  readAnswer : readResult
}.

Record World := {
  interfaces : list net.Interface + string;
  listenError : option string;
  schedule : list answer
}.

Inductive event :=
| EvInterfaces
| EvListenUDP (port : Z)
| EvWriteToUDP (payload : string) (ip : option (list Z)) (port : Z)
| EvSetReadDeadline (after : Z)
| EvReadFromUDP (r : readResult)
| EvClose.

Inductive phase :=
| PSend
| PRead
| PStore (ip : string)
| PDone
| PPanic (what : string).

Record poller := {
  bCast : string;
  iter : Z;
  at_ : phase;
  hasRead : bool;     (* this poller has looked a key up in [d.Devices] *)
  hasStored : bool    (* this poller has stored into [d.Devices] *)
}.

(** A poller as [go poller(b.String(), ch)] starts it, at the head of the
    loop [for i := 0; i < d.PollCount; i++]. *)
Definition loopHead (d : DaikinNetwork) (bCast : string) (i : Z) : poller :=
  {| bCast := bCast; iter := i; at_ := if i <? PollCount d then PSend else PDone;
     hasRead := false; hasStored := false |}.

Definition goto (p : poller) (ph : phase) : poller :=
  {| bCast := bCast p; iter := iter p; at_ := ph;
     hasRead := hasRead p; hasStored := hasStored p |}.

(** [i++] and the test of the loop: the next iteration, or [close(done)]. *)
Definition nextIter (d : DaikinNetwork) (p : poller) : poller :=
  {| bCast := bCast p; iter := iter p + 1;
     at_ := if iter p + 1 <? PollCount d then PSend else PDone;
     hasRead := hasRead p; hasStored := hasStored p |}.

Definition reading (p : poller) : poller :=
  {| bCast := bCast p; iter := iter p; at_ := at_ p;
     hasRead := true; hasStored := hasStored p |}.

Definition storing (p : poller) : poller :=
  {| bCast := bCast p; iter := iter p; at_ := at_ p;
     hasRead := hasRead p; hasStored := true |}.

(** [d.Devices[ip]] of the lookup: a nil map has no key. *)
Definition lookupDevice (d : DaikinNetwork) (ip : string) : option Daikin :=
  match Devices d with
  | Some m => m !! ip
  | None => None
  end.

Definition stepPoller (a : answer) (d : DaikinNetwork) (p : poller) :
    DaikinNetwork * poller * list event :=
  match at_ p with
  | PSend =>
      let ev := EvWriteToUDP udpQueryPayload (net.ParseIP lib (bCast p)) 30050 in
      if writeFails a then (d, nextIter d p, [ev])
      else (d, goto p PRead, [ev])
  | PRead =>
      let evs := [EvSetReadDeadline (PollInterval d); EvReadFromUDP (readAnswer a)] in
      match readAnswer a with
      | ReadTimeout => (d, nextIter d p, evs)
      | ReadError _ => (d, p, evs)
      | ReadFrom rAddr =>
          let ip := net.IPString lib rAddr in
          match lookupDevice d ip with
          | Some _ => (d, reading p, evs)
          | None => (d, goto (reading p) (PStore ip), evs)
          end
      end
  | PStore ip =>
      match Devices d with
      | None => (d, goto p (PPanic "assignment to entry in nil map"), [])
      | Some m =>
          (set_Devices (Some (<[ip := newDaikin ip]> m)) d, goto (storing p) PRead, [])
      end
  | PDone => (d, p, [])
  | PPanic _ => (d, p, [])
  end.

Definition isPanic (p : poller) : bool :=
  match at_ p with
  | PPanic _ => true
  | _ => false
  end.

(** The run of the pollers over a schedule; it ends with the schedule, or
    with the process when a poller panics. *)
Fixpoint runPollers (sched : list answer) (d : DaikinNetwork) (ps : list poller) :
    DaikinNetwork * list poller * list event :=
  match sched with
  | [] => (d, ps, [])
  | a :: sched' =>
      match ps !! who a with
      | None => runPollers sched' d ps
      | Some p =>
          let '(d', p', evs) := stepPoller a d p in
          if isPanic p' then (d', <[who a := p']> ps, evs)
          else
            let '(d'', ps', evs') := runPollers sched' d' (<[who a := p']> ps) in
            (d'', ps', evs ++ evs')
      end
  end.

Definition isDone (p : poller) : bool :=
  match at_ p with
  | PDone => true
  | _ => false
  end.

(** Two pollers have accessed [d.Devices], and one of the two has stored
    into it. *)
Definition racesWith (p q : poller) : bool := hasStored p && hasRead q.

Fixpoint dataRace (ps : list poller) : bool :=
  match ps with
  | [] => false
  | p :: ps' =>
      existsb (λ q, racesWith p q || racesWith q p) ps' || dataRace ps'
  end.

(** The pollers of a scan as [Discover] starts them, and their run. *)
Definition startPollers (d : DaikinNetwork) : list poller :=
  (λ b, loopHead d (net.IPString lib b) 0) <$> broadcasts d.

(** [Discover]: the network after the call, the error returned and the
    events of the run.  [None] when the call has no result: the schedule
    ends before every poller has closed its channel (the call has not
    returned, and it never does once a poller has panicked), or the run has
    a data race on [d.Devices]. *)
Definition Discover (w : World) (d : DaikinNetwork) :
    option (DaikinNetwork * outcome unit * list event) :=
  if PollCount d <? 1 then Some (d, Ret tt, [])
  else
    match getBroadcastAddresses (interfaces w) d with
    | (d, Ret tt) =>
        match listenError w with
        | Some err => Some (d, Fail (ErrLib err), [EvInterfaces; EvListenUDP 30000])
        | None =>
            let '(d', ps', evs) := runPollers (schedule w) d (startPollers d) in
            if forallb isDone ps' && negb (dataRace ps')
            then Some (d', Ret tt, [EvInterfaces; EvListenUDP 30000] ++ evs ++ [EvClose])
            else None
        end
    | (d, err) => Some (d, err, [EvInterfaces])
    end.

(** What went wrong in the pollers of a scan, if anything did. *)
Inductive fault :=
| NilMapPanic (what : string)
| DevicesDataRace.

Definition panicOf (p : poller) : option string :=
  match at_ p with
  | PPanic what => Some what
  | _ => None
  end.

Definition faultOf (ps : list poller) : option fault :=
  match omap panicOf ps with
  | what :: _ => Some (NilMapPanic what)
  | [] => if dataRace ps then Some DevicesDataRace else None
  end.

Definition DiscoverFault (w : World) (d : DaikinNetwork) : option fault :=
  if PollCount d <? 1 then None
  else
    match getBroadcastAddresses (interfaces w) d with
    | (d, Ret tt) =>
        match listenError w with
        | Some _ => None
        | None => faultOf (runPollers (schedule w) d (startPollers d)).1.2
        end
    | _ => None
    end.

End Discovery.

(** *** Options and NewNetwork *)

Definition InterfaceOption (i : string) (d : DaikinNetwork) : DaikinNetwork :=
  {| Interface := i; PollInterval := PollInterval d; PollCount := PollCount d;
     Devices := Devices d; broadcasts := broadcasts d |}.

Definition AddressOption (addr : string) (d : DaikinNetwork) : DaikinNetwork :=
  if negb (String.eqb addr "") then
    {| Interface := Interface d; PollInterval := PollInterval d; PollCount := 0;
       Devices := Some {[ addr := newDaikin addr ]}; broadcasts := broadcasts d |}
  else d.

(** [time.Second], in nanoseconds. *)
Definition Second : Z := 1000000000.

Definition NewNetwork (o : list (DaikinNetwork → DaikinNetwork)) : DaikinNetwork :=
  foldl (λ dn opt, opt dn)
        {| Interface := ""; PollInterval := Second; PollCount := 1;
           Devices := Some ∅; broadcasts := [] |}
        o.

(** *** The IPv4 part of package net

    The text functions of [net] on IPv4 addresses, after [parseIPv4],
    [dtoi], [CIDRMask], [IP.Mask], [ParseCIDR], [ParseIP] and [IP.String].
    A text that is not a dotted IPv4 address is an error here, and an
    address that is not IPv4 has no text: the IPv6 branches of the library
    are not modelled.  This instance of [NetLib] serves the examples; the
    theorems on discovery hold for every instance. *)

Module ipv4.

Definition big : Z := 16777215.

(** [dtoi]: the decimal number at the start of [s]; the number, the count
    of digits read, and whether one was read without overflow. *)
Fixpoint dtoi (s : string) (n : Z) (i : nat) : Z * nat * bool :=
  match s with
  | String c rest =>
      if isDigit c then
        let n := n * 10 + digitVal c in
        if big <=? n then (big, i, false) else dtoi rest n (S i)
      else if (i =? 0)%nat then (0, 0%nat, false) else (n, i, true)
  | EmptyString => if (i =? 0)%nat then (0, 0%nat, false) else (n, i, true)
  end.

(** The loop of [parseIPv4] over the octets still to read. *)
Fixpoint parseOctets (k : nat) (first : bool) (s : string) : option (list Z) :=
  match k with
  | O => if (String.length s =? 0)%nat then Some [] else None
  | S k' =>
      if (String.length s =? 0)%nat then None
      else
        let s1 := if first then Some s
                  else if csv.byteIs (String.get 0 s) "."%char
                       then Some (strings.drop 1 s) else None in
        match s1 with
        | None => None
        | Some s1 =>
            let '(n, c, ok) := dtoi s1 0 0 in
            if negb ok || (255 <? n) then None
            else if (1 <? c)%nat && csv.byteIs (String.get 0 s1) "0"%char then None
            else
              match parseOctets k' false (strings.drop c s1) with
              | Some p => Some (n :: p)
              | None => None
              end
        end
  end.

Definition v4InV6Prefix : list Z := [0; 0; 0; 0; 0; 0; 0; 0; 0; 0; 255; 255].

(** [parseIPv4], with the 16-byte form that [IPv4(a, b, c, d)] builds. *)
Definition parseIPv4 (s : string) : option (list Z) :=
  match parseOctets 4 true s with
  | Some p => Some (v4InV6Prefix ++ p)
  | None => None
  end.

(** [CIDRMask(ones, 32)] *)
Fixpoint maskBytes (l : nat) (n : Z) : list Z :=
  match l with
  | O => []
  | S l' =>
      if 8 <=? n then 255 :: maskBytes l' (n - 8)
      else (255 - Z.shiftr 255 n) :: maskBytes l' 0
  end.

Definition CIDRMask (ones : Z) : list Z := maskBytes 4 ones.

(** [ip.Mask(mask)] for a 4-byte mask. *)
Definition Mask (ip mask : list Z) : option (list Z) :=
  let ip := if (length ip =? 16)%nat && bool_decide (take 12 ip = v4InV6Prefix)
            then drop 12 ip else ip in
  if (length ip =? length mask)%nat
  then Some (zip_with Z.land ip mask) else None.

Definition ParseCIDR (s : string) : option (list Z * net.IPNet) :=
  match csv.IndexByte s "/"%char with
  | None => None
  | Some i =>
      let addr := strings.take i s in
      let mask := strings.drop (i + 1) s in
      match parseIPv4 addr with
      | None => None
      | Some ip =>
          let '(n, c, ok) := dtoi mask 0 0 in
          if negb ok || negb (c =? String.length mask)%nat || (n <? 0) || (32 <? n)
          then None
          else
            let m := CIDRMask n in
            match Mask ip m with
            | Some nip => Some (ip, {| net.IP := nip; net.Mask := m |})
            | None => None
            end
      end
  end.

Definition ParseIP (s : string) : option (list Z) := parseIPv4 s.

(** [IP.String] of a 4-byte address or of the 16-byte form of one. *)
Definition IPString (ip : list Z) : string :=
  match net.To4 ip with
  | Some [a; b; c; d] =>
      strconv.Itoa a +:+ "." +:+ strconv.Itoa b +:+ "." +:+ strconv.Itoa c
      +:+ "." +:+ strconv.Itoa d
  | _ => ""
  end.

Definition lib : net.NetLib :=
  {| net.ParseCIDR := ParseCIDR; net.ParseIP := ParseIP; net.IPString := IPString |}.

End ipv4.

(** ** Auxiliary definitions

    The two normalisations of [csv.readLine], named for the proofs. *)

Definition dropCR (line : string) : string :=
  if csv.byteIs (csv.lastByte line) csv.CR
  then strings.take (String.length line - 1) line else line.

Definition normalizeNL (line : string) : string :=
  let n := String.length line in
  if (2 <=? n)%nat && csv.byteIs (String.get (n - 2) line) csv.CR
     && csv.byteIs (String.get (n - 1) line) csv.LF
  then strings.take (n - 2) line +:+ String csv.LF EmptyString
  else line.

(** The token [key=value] of a response record. *)
Definition token (kv : string * string) : string :=
  kv.1 +:+ String "="%char kv.2.

(** The mapping [parseResponse] builds from the pairs of a record, in the
    order of the record: a later pair replaces an earlier one of the same
    key. *)
Definition valuesOf (kvs : list (string * string)) : gmap string string :=
  foldl (λ m kv, <[kv.1 := kv.2]> m) ∅ kvs.

(** An interface of the examples. *)
Definition eth0 (flags : Z) : net.Interface :=
  {| net.IfName := "eth0"; net.Flags := flags; net.Addrs := inl ["192.168.1.42/24"] |}.

(** Two scans of the examples.  [scan1]: one poller reads two replies from
    192.168.1.9 and then times out.  [scan2]: two pollers each read a reply
    from 192.168.1.9 and look it up before either stores it. *)
Definition turn (k : nat) (r : readResult) : answer :=
  {| who := k; writeFails := false; readAnswer := r |}.

Definition scan1 : World :=
  {| interfaces := inl [eth0 wantFlags];
     listenError := None;
     schedule := [turn 0 ReadTimeout;
                  turn 0 (ReadFrom [192; 168; 1; 9]);
                  turn 0 ReadTimeout;
                  turn 0 (ReadFrom [192; 168; 1; 9]);
                  turn 0 ReadTimeout] |}.

Definition scan2 : World :=
  {| interfaces :=
       inl [eth0 wantFlags;
            {| net.IfName := "eth1"; net.Flags := wantFlags;
               net.Addrs := inl ["10.1.2.3/20"] |}];
     listenError := None;
     schedule := [turn 0 ReadTimeout; turn 1 ReadTimeout;
                  turn 0 (ReadFrom [192; 168; 1; 9]);
                  turn 1 (ReadFrom [192; 168; 1; 9]);
                  turn 0 ReadTimeout; turn 1 ReadTimeout;
                  turn 0 ReadTimeout; turn 1 ReadTimeout] |}.

(** The [float64] 22.5, that is 6333186975989760 * 2^-48. *)
Definition f22_5 : spec_float := S754_finite false 6333186975989760 (-48).

(** A text has exactly one fractional digit: one byte follows its first
    point, and it is a digit. *)
Definition oneFractionalDigit (s : string) : bool :=
  match strings.Index s "." with
  | Some i =>
      match strings.drop (i + 1) s with
      | String d EmptyString => isDigit d
      | _ => false
      end
  | None => false
  end.

(** The bytes a text that [ParseFloat] accepts can start with. *)
Definition startsNumber (c : ascii) : bool :=
  isDigit c
  || bool_decide (c ∈ ["+"; "-"; "."; "_"; "i"; "I"; "n"; "N"]%char).

(** ** Package net/url (Go standard library): path escaping

    [PathEscape] and [PathUnescape], that is [escape] and [unescape] in the
    mode of a path segment: a byte is written as it is or as [%XX] with two
    upper-case hexadecimal digits; reading back first checks that every [%]
    is followed by two hexadecimal digits, then decodes. *)

Module neturl.

Inductive EscapeError := EscapeErr (s : string).

Definition isAlnum (c : ascii) : bool :=
  ((97 <=? byteOf c) && (byteOf c <=? 122))
  || ((65 <=? byteOf c) && (byteOf c <=? 90))
  || ((48 <=? byteOf c) && (byteOf c <=? 57)).

(** [shouldEscape(c, encodePathSegment)] *)
Definition shouldEscape (c : ascii) : bool :=
  if isAlnum c then false
  else if bool_decide (c ∈ ["-"; "_"; "."; "~"]%char) then false
  else if bool_decide (c ∈ ["$"; "&"; "+"; ","; "/"; ":"; ";"; "="; "?"; "@"]%char)
  then eqb_ascii c "/"%char || eqb_ascii c ";"%char || eqb_ascii c ","%char
       || eqb_ascii c "?"%char
  else true.

(** [upperhex[n]] *)
Definition upperhex (n : Z) : ascii :=
  if n <? 10 then ascii_of_N (Z.to_N (48 + n)) else ascii_of_N (Z.to_N (65 + (n - 10))).

Definition ishex (c : ascii) : bool :=
  ((48 <=? byteOf c) && (byteOf c <=? 57))
  || ((97 <=? byteOf c) && (byteOf c <=? 102))
  || ((65 <=? byteOf c) && (byteOf c <=? 70)).

Definition unhex (c : ascii) : Z :=
  if (48 <=? byteOf c) && (byteOf c <=? 57) then byteOf c - 48
  else if (97 <=? byteOf c) && (byteOf c <=? 102) then byteOf c - 97 + 10
  else if (65 <=? byteOf c) && (byteOf c <=? 70) then byteOf c - 65 + 10
  else 0.

Fixpoint escape (s : string) : string :=
  match s with
  | EmptyString => EmptyString
  | String c rest =>
      if shouldEscape c then
        String "%"%char
          (String (upperhex (Z.shiftr (byteOf c) 4))
             (String (upperhex (Z.land (byteOf c) 15)) (escape rest)))
      else String c (escape rest)
  end.

Definition PathEscape (s : string) : string := escape s.

(** The first loop of [unescape]: the text of the first [%] that is not
    followed by two hexadecimal digits (at most three bytes), if any. *)
Fixpoint badEscape (s : string) : option string :=
  match s with
  | EmptyString => None
  | String c rest =>
      if eqb_ascii c "%"%char then
        match rest with
        | String a (String b rest') =>
            if ishex a && ishex b then badEscape rest'
            else Some (strings.take 3 s)
        | _ => Some (strings.take 3 s)
        end
      else badEscape rest
  end.

(** The second loop of [unescape]. *)
Fixpoint unescapeLoop (s : string) : string :=
  match s with
  | EmptyString => EmptyString
  | String c rest =>
      if eqb_ascii c "%"%char then
        match rest with
        | String a (String b rest') =>
            String (ascii_of_N (Z.to_N (Z.lor (Z.shiftl (unhex a) 4 mod 256) (unhex b))))
                   (unescapeLoop rest')
        | _ => EmptyString
        end
      else String c (unescapeLoop rest)
  end.

Definition PathUnescape (s : string) : string + EscapeError :=
  match badEscape s with
  | Some e => inr (EscapeErr e)
  | None => inl (unescapeLoop s)
  end.

End neturl.

(** ** Name *)

Definition Name_String (n : string) : string := n.

Definition Name_setUrlValues (n : string) (v : gmap string (list string)) :=
  url.Set_ "name" (neturl.PathEscape (Name_String n)) v.

Definition Name_decode (s : string) (n : string) : string * option neturl.EscapeError :=
  match neturl.PathUnescape s with
  | inr err => (n, Some err)
  | inl v => (v, None)
  end.

Definition Name_encode (n : string) : string := url.Get (Name_setUrlValues n ∅) "name".

(** ** The display names

    [fmt.Sprintf] with [%d] writes the decimal digits of the number, with
    [%v] the bytes of the [Fan]. *)

Definition Power_String (p : Z) : string :=
  match powerMap !! p with
  | Some v => v
  | None => "Unknown Power [" +:+ strconv.Itoa p +:+ "]"
  end.

Definition Mode_String (m : Z) : string :=
  match modeMap !! m with
  | Some v => v
  | None => "Unknown Mode [" +:+ strconv.Itoa m +:+ "]"
  end.

Definition Fan_String (f : string) : string :=
  match fanMap !! f with
  | Some v => v
  | None => "Unknown Fan [" +:+ f +:+ "]"
  end.

Definition FanDir_String (f : Z) : string :=
  match fanDirMap !! f with
  | Some v => v
  | None => "Unknown FanDir [" +:+ strconv.Itoa f +:+ "]"
  end.

(** Every [%] of a text is followed by two hexadecimal digits. *)
Definition wellEscaped (s : string) : Prop :=
  ∀ i, String.get i s = Some "%"%char →
       ∃ a b, String.get (S i) s = Some a ∧ String.get (S (S i)) s = Some b
              ∧ neturl.ishex a = true ∧ neturl.ishex b = true.

(** ** populate

    [populate] ranges over a Go map: the order of the entries is not
    specified and may differ from one call to the next.  The loop is
    modelled on a list of entries, and [populate] takes the order as the
    function [order] from the map to the list ranged over; [rangeOrder]
    says that the list holds each entry of the map once. *)

Definition returnOk : string := "OK".
Definition returnBad : string := "PARAM NG".

Definition rangeOrder (order : gmap string string → list (string * string)) : Prop :=
  ∀ m, order m ≡ₚ map_to_list m.

(** [for k, v := range values { body; if err != nil { return err } }] *)
Fixpoint rangeLoop {S : Type} (body : S → string → string → S * option error)
    (kvs : list (string * string)) (s : S) : S * option error :=
  match kvs with
  | [] => (s, None)
  | (k, v) :: kvs' =>
      match body s k v with
      | (s', Some err) => (s', Some err)
      | (s', None) => rangeLoop body kvs' s'
      end
  end.

(** [&ControlInfo{}] and [&SensorInfo{}] *)
Definition ControlInfo_zero : ControlInfo :=
  {| Power := 0; Mode := 0; Fan := ""; FanDir := 0;
     Temperature := S754_zero false; Humidity := 0 |}.

Definition SensorInfo_zero : SensorInfo :=
  {| HomeTemperature := S754_zero false; OutsideTemperature := S754_zero false;
     SensorHumidity := 0 |}.

(** The body of the loop of [ControlInfo.populate]. *)
Definition ControlInfo_populate_body (c : ControlInfo) (k v : string) :
    ControlInfo * option error :=
  if String.eqb k "pow" then
    let '(x, err) := Power_decode v (Power c) in
    ({| Power := x; Mode := Mode c; Fan := Fan c; FanDir := FanDir c;
        Temperature := Temperature c; Humidity := Humidity c |}, err)
  else if String.eqb k "mode" then
    let '(x, err) := Mode_decode v (Mode c) in
    ({| Power := Power c; Mode := x; Fan := Fan c; FanDir := FanDir c;
        Temperature := Temperature c; Humidity := Humidity c |}, err)
  else if String.eqb k "stemp" then
    let '(x, err) := Temperature_decode v (Temperature c) in
    ({| Power := Power c; Mode := Mode c; Fan := Fan c; FanDir := FanDir c;
        Temperature := x; Humidity := Humidity c |}, err)
  else if String.eqb k "shum" then
    let '(x, err) := Humidity_decode v (Humidity c) in
    ({| Power := Power c; Mode := Mode c; Fan := Fan c; FanDir := FanDir c;
        Temperature := Temperature c; Humidity := x |}, err)
  else if String.eqb k "f_rate" then
    let '(x, err) := Fan_decode v (Fan c) in
    ({| Power := Power c; Mode := Mode c; Fan := x; FanDir := FanDir c;
        Temperature := Temperature c; Humidity := Humidity c |}, err)
  else if String.eqb k "f_dir" then
    let '(x, err) := FanDir_decode v (FanDir c) in
    ({| Power := Power c; Mode := Mode c; Fan := Fan c; FanDir := x;
        Temperature := Temperature c; Humidity := Humidity c |}, err)
  else if String.eqb k "ret" then
    (c, if negb (String.eqb v returnOk) then Some (ErrDeviceRet v) else None)
  else (c, None).

Definition ControlInfo_populate (order : gmap string string → list (string * string))
    (values : gmap string string) (c : ControlInfo) : ControlInfo * option error :=
  rangeLoop ControlInfo_populate_body (order values) c.

(** The body of the loop of [SensorInfo.populate]. *)
Definition SensorInfo_populate_body (s : SensorInfo) (k v : string) :
    SensorInfo * option error :=
  if String.eqb k "htemp" then
    let '(x, err) := Temperature_decode v (HomeTemperature s) in
    ({| HomeTemperature := x; OutsideTemperature := OutsideTemperature s;
        SensorHumidity := SensorHumidity s |}, err)
  else if String.eqb k "otemp" then
    let '(x, err) := Temperature_decode v (OutsideTemperature s) in
    ({| HomeTemperature := HomeTemperature s; OutsideTemperature := x;
        SensorHumidity := SensorHumidity s |}, err)
  else if String.eqb k "hhum" then
    let '(x, err) := Humidity_decode v (SensorHumidity s) in
    ({| HomeTemperature := HomeTemperature s;
        OutsideTemperature := OutsideTemperature s; SensorHumidity := x |}, err)
  else if String.eqb k "ret" then
    (s, if negb (String.eqb v returnOk) then Some (ErrDeviceRet v) else None)
  else (s, None).

Definition SensorInfo_populate (order : gmap string string → list (string * string))
    (values : gmap string string) (s : SensorInfo) : SensorInfo * option error :=
  rangeLoop SensorInfo_populate_body (order values) s.

(** [ControlInfo.urlValues] *)
Definition ControlInfo_urlValues (c : ControlInfo) : gmap string (list string) :=
  let qStr := ∅ in
  let qStr := Power_setUrlValues (Power c) qStr in
  let qStr := Mode_setUrlValues (Mode c) qStr in
  let qStr := Fan_setUrlValues (Fan c) qStr in
  let qStr := FanDir_setUrlValues (FanDir c) qStr in
  let qStr := Temperature_setUrlValues (Temperature c) qStr in
  let qStr := Humidity_setUrlValues (Humidity c) qStr in
  qStr.

(** What an entry of a response makes [ControlInfo.populate] return: the
    error of the decoder of its key, or of a [ret] that is not [OK]. *)
Definition ControlInfo_entryError (k v : string) : option error :=
  (ControlInfo_populate_body ControlInfo_zero k v).2.

Definition SensorInfo_entryError (k v : string) : option error :=
  (SensorInfo_populate_body SensorInfo_zero k v).2.

(** A field after [populate], when no entry fails: the decoding of the
    value of its key, or the field as it was when the key is absent. *)
Definition fieldOf {T : Type} (o : option string) (decode : string → T → T * option error)
    (old : T) : T :=
  match o with
  | Some v => (decode v old).1
  | None => old
  end.

Definition ControlInfo_populated (values : gmap string string) (c : ControlInfo) :
    ControlInfo :=
  {| Power := fieldOf (values !! "pow") Power_decode (Power c);
     Mode := fieldOf (values !! "mode") Mode_decode (Mode c);
     Fan := fieldOf (values !! "f_rate") Fan_decode (Fan c);
     FanDir := fieldOf (values !! "f_dir") FanDir_decode (FanDir c);
     Temperature := fieldOf (values !! "stemp") Temperature_decode (Temperature c);
     Humidity := fieldOf (values !! "shum") Humidity_decode (Humidity c) |}.

Definition SensorInfo_populated (values : gmap string string) (s : SensorInfo) :
    SensorInfo :=
  {| HomeTemperature :=
       fieldOf (values !! "htemp") Temperature_decode (HomeTemperature s);
     OutsideTemperature :=
       fieldOf (values !! "otemp") Temperature_decode (OutsideTemperature s);
     SensorHumidity := fieldOf (values !! "hhum") Humidity_decode (SensorHumidity s) |}.

(** The enumerated fields of [c'] are those of [c] or constants of their
    types, and its humidity is that of [c] or fits an [int32]. *)
Definition storedFrom (c c' : ControlInfo) : Prop :=
  (Power c' = Power c ∨ Power c' ∈ Power_consts)
  ∧ (Mode c' = Mode c ∨ Mode c' ∈ Mode_consts)
  ∧ (Fan c' = Fan c ∨ Fan c' ∈ Fan_consts)
  ∧ (FanDir c' = FanDir c ∨ FanDir c' ∈ FanDir_consts)
  ∧ (Humidity c' = Humidity c ∨ - 2 ^ 31 <= Humidity c' < 2 ^ 31).

(** The first value of each key of a [url.Values], as the mapping a
    response with those parameters parses to. *)
Definition firstValues (v : gmap string (list string)) : gmap string string :=
  (λ l, match l with x :: _ => x | [] => "" end) <$> v.

(** The enumerated fields hold constants of their types and the humidity
    fits its [int32]. *)
Definition ControlInfo_valid (c : ControlInfo) : Prop :=
  Power c ∈ Power_consts ∧ Mode c ∈ Mode_consts ∧ Fan c ∈ Fan_consts
  ∧ FanDir c ∈ FanDir_consts ∧ - 2 ^ 31 <= Humidity c < 2 ^ 31.

(** ** Response bodies

    The body of one record: the fields joined by commas. *)

Fixpoint joinFields (l : list string) : string :=
  match l with
  | [] => EmptyString
  | [x] => x
  | x :: l' => x +:+ String csv.comma (joinFields l')
  end.

(** No byte of [s] is one of [cs]. *)
Fixpoint noneOf (cs : list ascii) (s : string) : bool :=
  match s with
  | EmptyString => true
  | String c rest => negb (existsb (eqb_ascii c) cs) && noneOf cs rest
  end.

(** A field that the csv reader takes as it is: no comma, no quote, no
    carriage return and no line feed. *)
Definition plainField (f : string) : bool :=
  noneOf [csv.comma; csv.quote; csv.CR; csv.LF] f.

(** ** The requests to a unit

    What [http.Get] or [http.PostForm] returns is given: an error of the
    transport, or a response with the bytes read from its body (or the
    error of reading them).  The requests a call sends are returned with
    its result. *)

Definition uriGetControlInfo : string := "/aircon/get_control_info".
Definition uriGetSensorInfo : string := "/aircon/get_sensor_info".
Definition uriSetControlInfo : string := "/aircon/set_control_info".

Inductive httpReply :=
| TransportError (what : string)
| Response (body : string + string).

Inductive request :=
| HttpGet (url : string)
| HttpPostForm (url : string) (data : gmap string (list string)).

(** [fmt.Sprintf("http://%s%s", d.Address, uri)] *)
Definition unitURL (d : Daikin) (uri : string) : string :=
  "http://" +:+ Address d +:+ uri.

Definition set_ControlInfo (c : option ControlInfo) (d : Daikin) : Daikin :=
  {| Address := Address d; Name := Name d;
     DaikinControlInfo := c; DaikinSensorInfo := DaikinSensorInfo d |}.

Definition set_SensorInfo (s : option SensorInfo) (d : Daikin) : Daikin :=
  {| Address := Address d; Name := Name d;
     DaikinControlInfo := DaikinControlInfo d; DaikinSensorInfo := s |}.

Definition errorOutcome (err : option error) : outcome unit :=
  match err with
  | Some e => Fail e
  | None => Ret tt
  end.

(** [GetControlInfo]: the unit after the call, what the call returns, the
    requests sent. *)
Definition GetControlInfo (order : gmap string string → list (string * string))
    (reply : httpReply) (d : Daikin) : option (Daikin * outcome unit * list request) :=
  let sent := [HttpGet (unitURL d uriGetControlInfo)] in
  match reply with
  | TransportError err => Some (d, Fail (ErrLib err), sent)
  | Response body =>
      let d := set_ControlInfo (Some ControlInfo_zero) d in
      match parseResponse body with
      | None => None
      | Some (Fail e) => Some (d, Fail e, sent)
      | Some (Panic what) => Some (d, Panic what, sent)
      | Some (Ret vals) =>
          let '(c, err) := ControlInfo_populate order vals ControlInfo_zero in
          Some (set_ControlInfo (Some c) d, errorOutcome err, sent)
      end
  end.

(** [GetSensorInfo] *)
Definition GetSensorInfo (order : gmap string string → list (string * string))
    (reply : httpReply) (d : Daikin) : option (Daikin * outcome unit * list request) :=
  let sent := [HttpGet (unitURL d uriGetSensorInfo)] in
  match reply with
  | TransportError err => Some (d, Fail (ErrLib err), sent)
  | Response body =>
      let d := set_SensorInfo (Some SensorInfo_zero) d in
      match parseResponse body with
      | None => None
      | Some (Fail e) => Some (d, Fail e, sent)
      | Some (Panic what) => Some (d, Panic what, sent)
      | Some (Ret vals) =>
          let '(s, err) := SensorInfo_populate order vals SensorInfo_zero in
          Some (set_SensorInfo (Some s) d, errorOutcome err, sent)
      end
  end.

(** [SetControlInfo]; [d.ControlInfo.urlValues()] dereferences
    [d.ControlInfo], which panics when it is nil. *)
Definition SetControlInfo (reply : httpReply) (d : Daikin) :
    option (Daikin * outcome unit * list request) :=
  match DaikinControlInfo d with
  | None => Some (d, Panic "nil pointer dereference", [])
  | Some c =>
      let qStr := ControlInfo_urlValues c in
      let sent := [HttpPostForm (unitURL d uriSetControlInfo) qStr] in
      match reply with
      | TransportError err => Some (d, Fail (ErrLib err), sent)
      | Response body =>
          match parseResponse body with
          | None => None
          | Some (Fail e) => Some (d, Fail e, sent)
          | Some (Panic what) => Some (d, Panic what, sent)
          | Some (Ret vals) =>
              let v := default "" (vals !! "ret") in
              if negb (String.eqb v "OK") then Some (d, Fail (ErrDeviceRet v), sent)
              else Some (d, Ret tt, sent)
          end
      end
  end.

(** ** Counting a scan *)

(** The writes on the socket during a run, and among them the beacons to
    one destination: the query payload sent to port 30050 of [dst]. *)
Definition isWrite (e : event) : bool :=
  match e with
  | EvWriteToUDP _ _ _ => true
  | _ => false
  end.

Definition writes (evs : list event) : Z := Z.of_nat (length (filter isWrite evs)).

Definition beacon (dst : option (list Z)) : event :=
  EvWriteToUDP udpQueryPayload dst 30050.

Definition isBeaconTo (dst : option (list Z)) (e : event) : bool :=
  match e with
  | EvWriteToUDP payload ip port =>
      String.eqb payload udpQueryPayload && bool_decide (ip = dst) && (port =? 30050)
  | _ => false
  end.

Definition beaconsTo (dst : option (list Z)) (evs : list event) : Z :=
  Z.of_nat (length (filter (isBeaconTo dst) evs)).

(** The broadcast addresses that a poller sends to [dst]: [b.String()] is
    what the poller is given, [net.ParseIP] of it is where it writes. *)
Definition sendsTo (lib : net.NetLib) (dst : option (list Z)) (b : list Z) : bool :=
  bool_decide (net.ParseIP lib (net.IPString lib b) = dst).

(** The beacons a poller has written: one for each iteration it has ended,
    and one more when it is past the write of the current one. *)
Definition written (p : poller) : Z :=
  iter p + match at_ p with
           | PRead | PStore _ | PPanic _ => 1
           | _ => 0
           end.

Definition sumOver (f : poller → Z) (ps : list poller) : Z :=
  foldr (λ p acc, f p + acc) 0 ps.

Definition writtenTo (lib : net.NetLib) (dst : option (list Z)) (p : poller) : Z :=
  if bool_decide (net.ParseIP lib (bCast p) = dst) then written p else 0.

(** A poller of a scan of [n] polls: it is in one of its [n] iterations,
    or it has ended all of them. *)
Definition pollerInv (n : Z) (p : poller) : Prop :=
  match at_ p with
  | PDone => iter p = n
  | _ => 0 <= iter p < n
  end.

(** An octet list of an IPv4 address. *)
Definition isIPv4 (b : list Z) : Prop :=
  length b = 4%nat ∧ Forall (λ x, 0 <= x < 256) b.

(** ** The registry *)

(** The world with more turns after those of its schedule. *)
Definition extend (w : World) (more : list answer) : World :=
  {| interfaces := interfaces w; listenError := listenError w;
     schedule := schedule w ++ more |}.

(** The source addresses of the replies among the answers of a schedule. *)
Definition replyOf (a : answer) : option (list Z) :=
  match readAnswer a with
  | ReadFrom rAddr => Some rAddr
  | _ => None
  end.

(** The registration of one reply by one poller, with nothing in between:
    [if _, ok := d.Devices[ip]; !ok { d.Devices[ip] = &Daikin{Address: ip} }]
    on a map that is not nil. *)
Definition register (ip : string) (m : gmap string Daikin) : gmap string Daikin :=
  match m !! ip with
  | Some _ => m
  | None => <[ip := newDaikin ip]> m
  end.

Definition registerAll (lib : net.NetLib) (rs : list (list Z)) (m : gmap string Daikin) :
    gmap string Daikin :=
  foldl (λ m r, register (net.IPString lib r) m) m rs.

(** A [DaikinNetwork] made as a literal, with no map of devices. *)
Definition bareNetwork : DaikinNetwork :=
  {| Interface := ""; PollInterval := Second; PollCount := 1; Devices := None;
     broadcasts := [] |}.

(** A reply read from the socket. *)
Definition isReply (e : event) : bool :=
  match e with
  | EvReadFromUDP (ReadFrom _) => true
  | _ => false
  end.

(** A poller that has found no entry for an address and has not stored
    one since. *)
Definition isStoring (p : poller) : bool :=
  match at_ p with
  | PStore _ | PPanic _ => true
  | _ => false
  end.

(** An address is the source of a reply among the answers of a schedule. *)
Definition heardIn (lib : net.NetLib) (sched : list answer) (ip : string) : Prop :=
  ∃ a rAddr, a ∈ sched ∧ readAnswer a = ReadFrom rAddr ∧ ip = net.IPString lib rAddr.

(** A schedule for a scan with one poller that reads the replies [rs] in
    its first poll: a turn for the write, a turn for each read and one more
    for the store when the address has no entry, a turn for the timeout,
    and for each further poll a write and a timeout. *)
Definition quiet : answer := turn 0 ReadTimeout.

Fixpoint replyTurns (lib : net.NetLib) (m : gmap string Daikin) (rs : list (list Z)) :
    list answer :=
  match rs with
  | [] => []
  | r :: rs' =>
      match m !! net.IPString lib r with
      | Some _ => turn 0 (ReadFrom r) :: replyTurns lib m rs'
      | None =>
          turn 0 (ReadFrom r) :: quiet
            :: replyTurns lib (<[net.IPString lib r := newDaikin (net.IPString lib r)]> m) rs'
      end
  end.

Definition onePollerSchedule (lib : net.NetLib) (m : gmap string Daikin)
    (rs : list (list Z)) (n : Z) : list answer :=
  quiet :: replyTurns lib m rs ++ quiet :: concat (replicate (Z.to_nat (n - 1)) [quiet; quiet]).

(** A network with one device seeded and a poll count of 1 (the fields of
    a [DaikinNetwork] are exported). *)
Definition seededNetwork : DaikinNetwork :=
  {| Interface := ""; PollInterval := Second; PollCount := 1;
     Devices := Some {[ "192.168.1.7" := newDaikin "192.168.1.7" ]};
     broadcasts := [] |}.

(** ** Temperatures in tenths of a degree

    [tenths k] is the [float64] nearest to [k / 10], what Go computes for
    [float64(k) / 10]. *)

Definition tenths (k : Z) : spec_float :=
  match k with
  | Z0 => S754_zero false
  | Zpos p => SFdiv 53 1024 (S754_finite false p 0) (S754_finite false 10 0)
  | Zneg p => SFdiv 53 1024 (S754_finite true p 0) (S754_finite false 10 0)
  end.

(** The same representation, bit for bit. *)
Definition sameFloat (a b : spec_float) : bool :=
  match a, b with
  | S754_zero s, S754_zero s' => Bool.eqb s s'
  | S754_infinity s, S754_infinity s' => Bool.eqb s s'
  | S754_nan, S754_nan => true
  | S754_finite s m e, S754_finite s' m' e' => Bool.eqb s s' && (m =? m')%positive && (e =? e')
  | _, _ => false
  end.

(** The text of [k] tenths: sign, integer part, point, one digit. *)
Definition tenthsText (k : Z) : string :=
  (if k <? 0 then "-" else "")
  +:+ strconv.Itoa (Z.abs k / 10) +:+ "." +:+ strconv.Itoa (Z.abs k mod 10).

Definition tenthsRoundTrip (k : Z) : bool :=
  String.eqb (Temperature_encode (tenths k)) (tenthsText k)
  && match strconv.ParseFloat (tenthsText k) with
     | inl f => sameFloat f (tenths k)
     | inr _ => false
     end.

(** ** The command line tool

    The flags of the command, and the block of [main] that applies them to
    the [ControlInfo] of a unit before [SetControlInfo].  The block runs
    only with [-on] or [-off]; an unsupported [-speed] ends the process
    through [glog.Exitf]. *)

Record Flags := {
  powerOn : bool;
  powerOff : bool;
  modeHeat : bool;
  modeCool : bool;
  modeFan : bool;
  fanRate : string;
  fanVertical : bool;
  fanHorizontal : bool;
  setTemp : spec_float
}.

(** The [switch] on [*fanRate]: the new fan speed, or the message of the
    exit. *)
Definition fanOfRate (rate : string) (fan : string) : string + string :=
  if String.eqb rate "A" then inl FanAuto
  else if String.eqb rate "B" then inl FanSilent
  else if String.eqb rate "1" then inl Fan1
  else if String.eqb rate "2" then inl Fan2
  else if String.eqb rate "3" then inl Fan3
  else if String.eqb rate "4" then inl Fan4
  else if String.eqb rate "5" then inl Fan5
  else if String.eqb rate "" then inl fan
  else inr ("Unsupported fan rate: " +:+ rate).

Definition fanDirOfFlags (horizontal vertical : bool) : Z :=
  if horizontal && vertical then FanDirBoth
  else if vertical then FanDirVertical
  else if horizontal then FanDirHorizontal
  else FanDirStopped.

(** [None] when the block is skipped, [Some (inr msg)] on an exit,
    [Some (inl c')] with the [ControlInfo] handed to [SetControlInfo]. *)
Definition newSettings (f : Flags) (c : ControlInfo) : option (ControlInfo + string) :=
  if powerOn f || powerOff f then
    let power := if powerOn f then PowerOn else Power c in
    let power := if powerOff f then PowerOff else power in
    let mode := if modeHeat f then ModeHeat else Mode c in
    let mode := if modeCool f then ModeCool else mode in
    let mode := if modeFan f then ModeFan else mode in
    match fanOfRate (fanRate f) (Fan c) with
    | inr msg => Some (inr msg)
    | inl fan =>
        let temp :=
          if SFltb (S754_zero false) (setTemp f) then setTemp f else Temperature c in
        Some (inl {| Power := power; Mode := mode; Fan := fan;
                     FanDir := fanDirOfFlags (fanHorizontal f) (fanVertical f);
                     Temperature := temp; Humidity := Humidity c |})
    end
  else None.

(** A command line and the settings of a unit, to run the block on. *)
Definition someFlags : Flags :=
  {| powerOn := true; powerOff := true; modeHeat := true; modeCool := false;
     modeFan := false; fanRate := "3"; fanVertical := true; fanHorizontal := false;
     setTemp := tenths 215 |}.

Definition someSettings : ControlInfo :=
  {| Power := PowerOn; Mode := ModeCool; Fan := FanAuto; FanDir := 9;
     Temperature := tenths 180; Humidity := 0 |}.

(** * Properties *)

(** ** strconv: [Atoi] reads back what [Itoa] writes *)

Example Itoa_samples :
  strconv.Itoa 0 = "0" ∧ strconv.Itoa 55 = "55" ∧ strconv.Itoa (-1) = "-1"
  ∧ strconv.Itoa (2 ^ 63 - 1) = "9223372036854775807"
  ∧ strconv.Itoa (- 2 ^ 63) = "-9223372036854775808".
Proof. repeat split; reflexivity. Qed.

Example Atoi_samples :
  strconv.Atoi "55" = inl 55 ∧ strconv.Atoi "-1" = inl (-1)
  ∧ strconv.Atoi "+3" = inl 3 ∧ strconv.Atoi "01" = inl 1
  ∧ strconv.Atoi "-" = inr strconv.ErrSyntax
  ∧ strconv.Atoi "" = inr strconv.ErrSyntax
  ∧ strconv.Atoi "1x" = inr strconv.ErrSyntax
  ∧ strconv.Atoi "9223372036854775807" = inl (2 ^ 63 - 1)
  ∧ strconv.Atoi "9223372036854775808" = inr strconv.ErrRange
  ∧ strconv.Atoi "-9223372036854775808" = inl (- 2 ^ 63)
  ∧ strconv.Atoi "99999999999999999999999" = inr strconv.ErrRange.
Proof. repeat split; vm_compute; reflexivity. Qed.

Lemma digitChar_spec d :
  0 <= d < 10 → isDigit (digitChar d) = true ∧ digitVal (digitChar d) = d.
Proof.
  intros Hd.
  assert (d = 0 ∨ d = 1 ∨ d = 2 ∨ d = 3 ∨ d = 4 ∨ d = 5 ∨ d = 6 ∨ d = 7
          ∨ d = 8 ∨ d = 9) as Hc by lia.
  repeat (destruct Hc as [-> | Hc]; [split; reflexivity |]).
  subst d; split; reflexivity.
Qed.

Lemma isDigit_not_sign c :
  isDigit c = true → eqb_ascii c "+"%char = false ∧ eqb_ascii c "-"%char = false.
Proof.
  destruct c as [[] [] [] [] [] [] [] []]; vm_compute; intros H;
    first [discriminate H | split; reflexivity].
Qed.

Lemma parseUintLoop_app s1 s2 n m :
  strconv.parseUintLoop s1 n = inl m →
  strconv.parseUintLoop (s1 +:+ s2) n = strconv.parseUintLoop s2 m.
Proof.
  revert n. induction s1 as [| c s1 IH]; intros n H; simpl in *.
  - by injection H as ->.
  - destruct (isDigit c); [| discriminate].
    destruct (_ <=? n); [discriminate |].
    destruct (_ <? _); [discriminate |].
    by apply IH.
Qed.

Lemma parseUintLoop_digit d n :
  0 <= d < 10 → 0 <= n → n * 10 + d <= strconv.maxUint64 →
  strconv.parseUintLoop (String (digitChar d) "") n = inl (n * 10 + d).
Proof.
  intros Hd Hn Hle. simpl.
  destruct (digitChar_spec d Hd) as [-> ->].
  assert (strconv.maxUint64 = 18446744073709551615) as E by reflexivity.
  rewrite E in *.
  change (18446744073709551615 / 10 + 1) with 1844674407370955162.
  destruct (Z.leb_spec 1844674407370955162 n); [lia |].
  destruct (Z.ltb_spec 18446744073709551615 (n * 10 + d)); [lia | done].
Qed.

Lemma append_cons x (s t : string) : String x s +:+ t = String x (s +:+ t).
Proof. reflexivity. Qed.

Lemma append_empty_l (t : string) : "" +:+ t = t.
Proof. reflexivity. Qed.

Lemma append_snoc (D : string) c acc :
  D +:+ String c acc = (D +:+ String c "") +:+ acc.
Proof.
  induction D as [| x D IH]; [done |]. rewrite !append_cons. by f_equal.
Qed.

Lemma length_snoc (D : string) c :
  String.length (D +:+ String c "") = S (String.length D).
Proof.
  induction D as [| x D IH]; [done |]. rewrite append_cons. cbn. by f_equal.
Qed.

Lemma append_empty_r (D : string) : D +:+ "" = D.
Proof.
  induction D as [| x D IH]; [done |]. rewrite append_cons. by f_equal.
Qed.

Lemma formatBits_S fuel u acc :
  strconv.formatBits (S fuel) u acc
  = if u <? 10 then String (digitChar (u mod 10)) acc
    else strconv.formatBits fuel (u / 10) (String (digitChar (u mod 10)) acc).
Proof. reflexivity. Qed.

(** What [formatBits] writes in front of the buffer is a non-empty digit
    string that [ParseUint]'s loop reads back as the number. *)
Lemma formatBits_spec fuel :
  ∀ u acc, 0 <= u < 10 ^ Z.of_nat (S fuel) →
    ∃ c D, strconv.formatBits (S fuel) u acc = String c (D +:+ acc)
      ∧ isDigit c = true
      ∧ ∀ n, 0 <= n →
          n * 10 ^ Z.of_nat (String.length (String c D)) + u <= strconv.maxUint64 →
          strconv.parseUintLoop (String c D) n
          = inl (n * 10 ^ Z.of_nat (String.length (String c D)) + u).
Proof.
  assert (∀ fuel u acc, 0 <= u < 10 →
            strconv.formatBits (S fuel) u acc = String (digitChar u) acc) as Hsmall.
  { intros f u acc Hu. cbn [strconv.formatBits]. rewrite Z.mod_small by lia.
    by destruct (Z.ltb_spec u 10); [| lia]. }
  induction fuel as [| fuel IH]; intros u acc Hu.
  - rewrite Hsmall by (change (10 ^ Z.of_nat 1) with 10 in Hu; lia).
    change (10 ^ Z.of_nat 1) with 10 in Hu.
    exists (digitChar u), "". split; [reflexivity |].
    split; [by apply digitChar_spec |].
    intros n Hn Hle.
    change (10 ^ Z.of_nat (String.length (String (digitChar u) ""))) with 10 in *.
    by apply parseUintLoop_digit.
  - assert (0 <= u mod 10 < 10) as Hd by (apply Z.mod_pos_bound; lia).
    destruct (Z.ltb_spec u 10) as [Hlt | Hge].
    all: rewrite (formatBits_S (S fuel));
      destruct (Z.ltb_spec u 10) as [Hlt' | Hge']; try lia.
    + exists (digitChar (u mod 10)), "". split; [reflexivity |].
      split; [by apply digitChar_spec |].
      intros n Hn Hle. rewrite Z.mod_small in * by lia.
      change (10 ^ Z.of_nat (String.length (String (digitChar u) ""))) with 10 in *.
      by apply parseUintLoop_digit.
    + assert (0 <= u / 10 < 10 ^ Z.of_nat (S fuel)) as Hq.
      { split; [apply Z.div_pos; lia |].
        apply Z.div_lt_upper_bound; [lia |].
        rewrite Nat2Z.inj_succ, Z.pow_succ_r in Hu by lia. lia. }
      destruct (IH (u / 10) (String (digitChar (u mod 10)) acc) Hq)
        as (c & D & -> & Hc & Hparse).
      exists c, (D +:+ String (digitChar (u mod 10)) "").
      split.
      { f_equal. apply append_snoc. }
      split; [done |].
      intros n Hn Hle.
      assert (String.length (String c (D +:+ String (digitChar (u mod 10)) ""))
              = S (String.length (String c D))) as Hlen.
      { cbn [String.length]. f_equal. apply length_snoc. }
      rewrite Hlen in *. rewrite Nat2Z.inj_succ, Z.pow_succ_r in * by lia.
      set (k := 10 ^ Z.of_nat (String.length (String c D))) in *.
      assert (0 < k) by (apply Z.pow_pos_nonneg; lia).
      pose proof (Z.div_mod u 10 ltac:(lia)) as Hdm.
      change (String c (D +:+ String (digitChar (u mod 10)) ""))
        with (String c D +:+ String (digitChar (u mod 10)) "").
      rewrite (parseUintLoop_app _ _ n (n * k + u / 10)).
      * rewrite parseUintLoop_digit; [f_equal; lia | lia | nia | nia].
      * apply Hparse; [lia | nia].
Qed.

Lemma Atoi_Itoa z :
  strconv.minInt <= z <= strconv.maxInt → strconv.Atoi (strconv.Itoa z) = inl z.
Proof.
  assert (strconv.minInt = - 9223372036854775808) as E1 by reflexivity.
  assert (strconv.maxInt = 9223372036854775807) as E2 by reflexivity.
  assert (strconv.maxUint64 = 18446744073709551615) as E3 by reflexivity.
  rewrite E1, E2. intros Hz.
  unfold strconv.Atoi, strconv.Itoa, strconv.FormatInt.
  destruct (Z.ltb_spec z 0) as [Hneg | Hpos].
  - destruct (formatBits_spec 19 (- z) "") as (c & D & HD & Hc & Hparse);
      [change (10 ^ Z.of_nat 20) with 100000000000000000000; lia |].
    rewrite HD. cbn [strconv.ParseInt]. change (eqb_ascii "-" "+") with false.
    change (eqb_ascii "-" "-") with true. cbn [orb strconv.ParseUint].
    rewrite append_empty_r.
    specialize (Hparse 0). rewrite Z.mul_0_l, Z.add_0_l in Hparse.
    rewrite Hparse by lia. cbn [negb andb].
    change (2 ^ (strconv.intSize - 1)) with 9223372036854775808.
    destruct (Z.ltb_spec 9223372036854775808 (- z)); [lia |].
    f_equal; lia.
  - destruct (formatBits_spec 19 z "") as (c & D & HD & Hc & Hparse);
      [change (10 ^ Z.of_nat 20) with 100000000000000000000; lia |].
    rewrite HD. cbn [strconv.ParseInt].
    destruct (isDigit_not_sign c Hc) as [-> ->]. cbn [orb strconv.ParseUint].
    rewrite append_empty_r.
    specialize (Hparse 0). rewrite Z.mul_0_l, Z.add_0_l in Hparse.
    rewrite Hparse by lia. cbn [negb andb].
    change (2 ^ (strconv.intSize - 1)) with 9223372036854775808.
    destruct (Z.leb_spec 9223372036854775808 z); [lia | done].
Qed.

(** ** The enumerated fields *)

Lemma parseUintLoop_allDigits s n m :
  strconv.parseUintLoop s n = inl m → allDigits s = true.
Proof.
  revert n. induction s as [| c s IH]; intros n H; [done |].
  cbn in H |- *. destruct (isDigit c); [| discriminate]. cbn.
  destruct (_ <=? n); [discriminate |].
  destruct (_ <? _); [discriminate |]. eauto.
Qed.

Lemma Atoi_decimalSyntax s z : strconv.Atoi s = inl z → decimalSyntax s = true.
Proof.
  unfold strconv.Atoi, strconv.ParseInt, decimalSyntax.
  destruct s as [| c rest]; [discriminate |].
  destruct (eqb_ascii c "+" || eqb_ascii c "-").
  - destruct rest as [| c' rest']; [discriminate |].
    cbn [strconv.ParseUint]. intros H.
    destruct (strconv.parseUintLoop _ 0) eqn:E; [| discriminate].
    by rewrite (parseUintLoop_allDigits _ _ _ E).
  - cbn [strconv.ParseUint]. intros H.
    destruct (strconv.parseUintLoop _ 0) eqn:E; [| discriminate].
    by rewrite (parseUintLoop_allDigits _ _ _ E).
Qed.

Lemma Atoi_not_decimal s :
  decimalSyntax s = false → ∃ e, strconv.Atoi s = inr e.
Proof.
  intros H. destruct (strconv.Atoi s) as [z | e] eqn:E; [| by eexists].
  apply Atoi_decimalSyntax in E. congruence.
Qed.

Lemma fanDirMap_lookup v : is_Some (fanDirMap !! v) ↔ v ∈ FanDir_consts.
Proof.
  unfold fanDirMap, FanDir_consts. split.
  - intros [x Hx]. apply elem_of_list_to_map_2 in Hx.
    apply (list_elem_of_fmap_2 fst) in Hx. exact Hx.
  - intros Hv. destruct (list_to_map _ !! v) eqn:E; [by eexists |].
    apply not_elem_of_list_to_map_2 in E. by destruct E.
Qed.

(** C2. For each enumerated field type (Power, Mode, Fan, FanDir) and each
    constant [v] of its domain, decoding the wire string that [setUrlValues]
    writes for [v] stores [v] in the receiver and returns no error, whatever
    the receiver held before. *)
Theorem enum_decode_encode :
  Forall (λ v, ∀ p0, Power_decode (Power_encode v) p0 = (v, None)) Power_consts
  ∧ Forall (λ v, ∀ m0, Mode_decode (Mode_encode v) m0 = (v, None)) Mode_consts
  ∧ Forall (λ v, ∀ f0, Fan_decode (Fan_encode v) f0 = (v, None)) Fan_consts
  ∧ Forall (λ v, ∀ f0, FanDir_decode (FanDir_encode v) f0 = (v, None)) FanDir_consts.
Proof.
  repeat split; repeat constructor; intros x0; vm_compute; reflexivity.
Qed.

(** The wire codes of a type: the encodings of its constants. *)
Example wire_codes :
  Power_encode <$> Power_consts = ["0"; "1"]
  ∧ Mode_encode <$> Mode_consts = ["2"; "3"; "4"; "6"; "0"; "1"; "7"]
  ∧ Fan_encode <$> Fan_consts = ["A"; "B"; "3"; "4"; "5"; "6"; "7"]
  ∧ FanDir_encode <$> FanDir_consts = ["0"; "1"; "2"; "3"].
Proof. repeat split; vm_compute; reflexivity. Qed.

Ltac by_decide :=
  match goal with
  | |- ?P => apply (bool_decide_eq_true_1 P); vm_compute; reflexivity
  end.

Ltac not_code H s c :=
  destruct (String.eqb_spec s c) as [-> | _];
  [exfalso; apply H; by_decide |].

(** C3, as stated, fails for FanDir: ["01"] is not the wire code of any
    FanDir constant, yet [FanDir.decode] accepts it (as [FanDirVertical]),
    because it goes through [strconv.Atoi]. *)
Lemma FanDir_decode_outside_table_accepted :
  ¬ (∀ s f, s ∉ FanDir_encode <$> FanDir_consts →
            ∃ e, FanDir_decode s f = (f, Some e)).
Proof.
  intros H. destruct (H "01" FanDirStopped) as [e He].
  - by_decide.
  - vm_compute in He. discriminate He.
Qed.

(** C3 (amended). Power, Mode and Fan decode reject every string that is
    not one of their wire codes, and leave the receiver as it was; FanDir
    decode rejects every string that [strconv.Atoi] does not read as one of
    the FanDir constants, leaves the receiver as it was, and accepts the
    others; Mode decode of ["9"] fails. *)
Theorem enum_decode_unknown :
  (∀ s p, s ∉ Power_encode <$> Power_consts →
          Power_decode s p = (p, Some (ErrUnknownPwr s)))
  ∧ (∀ s m, s ∉ Mode_encode <$> Mode_consts →
            Mode_decode s m = (m, Some (ErrUnknownMode s)))
  ∧ (∀ s f, s ∉ Fan_encode <$> Fan_consts →
            Fan_decode s f = (f, Some (ErrUnknownPwr s)))
  ∧ (∀ s f, (∀ v, strconv.Atoi s = inl v → v ∉ FanDir_consts) →
            ∃ e, FanDir_decode s f = (f, Some e))
  ∧ (∀ s f v, strconv.Atoi s = inl v → v ∈ FanDir_consts →
              FanDir_decode s f = (v, None))
  ∧ (∀ m, Mode_decode "9" m = (m, Some (ErrUnknownMode "9"))).
Proof.
  repeat split.
  - intros s p H. unfold Power_decode.
    not_code H s "0". not_code H s "1". done.
  - intros s m H. unfold Mode_decode.
    not_code H s "2". not_code H s "3". not_code H s "4". not_code H s "6".
    not_code H s "0". not_code H s "1". not_code H s "7". done.
  - intros s f H. unfold Fan_decode.
    not_code H s "A". not_code H s "B". not_code H s "3". not_code H s "4".
    not_code H s "5". not_code H s "6". not_code H s "7". done.
  - intros s f H. unfold FanDir_decode.
    destruct (strconv.Atoi s) as [v | e] eqn:E; [| by eexists].
    destruct (fanDirMap !! v) eqn:Em; [| by eexists].
    exfalso. apply (H v eq_refl). apply fanDirMap_lookup. by eexists.
  - intros s f v E Hv. unfold FanDir_decode. rewrite E.
    apply fanDirMap_lookup in Hv as [x ->]. done.
Qed.

Lemma enum_decode_unknown_witness :
  Power_decode "2" PowerOn = (PowerOn, Some (ErrUnknownPwr "2"))
  ∧ Mode_decode "5" ModeHeat = (ModeHeat, Some (ErrUnknownMode "5"))
  ∧ Fan_decode "1" FanAuto = (FanAuto, Some (ErrUnknownPwr "1"))
  ∧ (∃ e, FanDir_decode "4" FanDirBoth = (FanDirBoth, Some e))
  ∧ FanDir_decode "+3" FanDirStopped = (FanDirBoth, None).
Proof.
  destruct enum_decode_unknown as (HP & HM & HF & HD & HA & _).
  split; [apply HP; by_decide |].
  split; [apply HM; by_decide |].
  split; [apply HF; by_decide |].
  split.
  - apply HD. intros v Hv. vm_compute in Hv. injection Hv as <-.
    by_decide.
  - apply HA; [vm_compute; reflexivity | by_decide].
Defined.

(** ** Humidity *)

Lemma int32_small z : - 2 ^ 31 <= z < 2 ^ 31 → int32 z = z.
Proof. intros H. unfold int32. rewrite Z.mod_small; lia. Qed.

(** C6, as stated, fails: the decimal integer string ["3000000000"] is not
    decoded to 3000000000, because [Humidity] is an [int32]. *)
Lemma Humidity_decode_wraps :
  ¬ (∀ z h, Humidity_decode (strconv.Itoa z) h = (z, None)).
Proof.
  intros H. specialize (H 3000000000 0). vm_compute in H. discriminate H.
Qed.

(** C6 (amended). Humidity decode maps ["-"] to -1 without error, maps the
    decimal string of every integer that fits an [int32] (such as ["55"]) to
    that integer, fails, leaving the receiver as it was, on every other
    string that is not an optionally signed run of decimal digits, and
    Humidity encode of -1 writes ["-1"]. *)
Theorem Humidity_codec :
  (∀ h, Humidity_decode "-" h = (-1, None))
  ∧ (∀ h, Humidity_decode "55" h = (55, None))
  ∧ (∀ z h, - 2 ^ 31 <= z < 2 ^ 31 →
            Humidity_decode (strconv.Itoa z) h = (z, None))
  ∧ (∀ s h, s ≠ "-" → decimalSyntax s = false →
            ∃ e, Humidity_decode s h = (h, Some (ErrParseSHum s e)))
  ∧ Humidity_encode (-1) = "-1".
Proof.
  split; [done |]. split; [done |]. split; [| split; [| done]].
  - intros z h Hz. unfold Humidity_decode.
    assert (strconv.Atoi (strconv.Itoa z) = inl z) as E.
    { apply Atoi_Itoa. change strconv.minInt with (- 2 ^ 63).
      change strconv.maxInt with (2 ^ 63 - 1). lia. }
    destruct (String.eqb_spec (strconv.Itoa z) "-") as [Heq | _].
    + rewrite Heq in E. vm_compute in E. discriminate E.
    + rewrite E. by rewrite int32_small.
  - intros s h Hs Hsyn. unfold Humidity_decode.
    destruct (String.eqb_spec s "-") as [-> | _]; [done |].
    destruct (Atoi_not_decimal s Hsyn) as [e ->]. by exists e.
Qed.

Lemma Humidity_codec_witness :
  Humidity_decode (strconv.Itoa (-40)) 7 = (-40, None)
  ∧ ∃ e, Humidity_decode "4x" 7 = (7, Some (ErrParseSHum "4x" e)).
Proof.
  destruct Humidity_codec as (_ & _ & Hint & Hbad & _).
  split; [apply Hint; lia |].
  apply Hbad; [discriminate | reflexivity].
Defined.

(** ** Temperature *)

Example ParseFloat_samples :
  strconv.ParseFloat "22.5" = inl f22_5
  ∧ strconv.ParseFloat "abc" = inr strconv.ErrSyntax
  ∧ strconv.ParseFloat "" = inr strconv.ErrSyntax
  ∧ strconv.ParseFloat "22,5" = inr strconv.ErrSyntax
  ∧ strconv.ParseFloat "2.25e1" = inl f22_5
  ∧ strconv.ParseFloat "+225E-1" = inl f22_5
  ∧ strconv.ParseFloat "0x1.68p4" = inl f22_5
  ∧ strconv.ParseFloat "2_2.5" = inl f22_5
  ∧ strconv.ParseFloat "22.5_" = inr strconv.ErrSyntax
  ∧ strconv.ParseFloat "-0" = inl (S754_zero true)
  ∧ strconv.ParseFloat "1" = inl (S754_finite false 4503599627370496 (-52))
  ∧ strconv.ParseFloat "0.1" = inl (S754_finite false 7205759403792794 (-56))
  ∧ strconv.ParseFloat "1e400" = inr strconv.ErrRange
  ∧ strconv.ParseFloat "1e-400" = inl (S754_zero false)
  ∧ strconv.ParseFloat "5e-324" = inl (S754_finite false 1 (-1074))
  ∧ strconv.ParseFloat "1.7976931348623157e308"
    = inl (S754_finite false 9007199254740991 971)
  ∧ strconv.ParseFloat "NaN" = inl S754_nan
  ∧ strconv.ParseFloat "-Infinity" = inl (S754_infinity true)
  ∧ strconv.ParseFloat "inf" = inl (S754_infinity false)
  ∧ strconv.ParseFloat "infin" = inr strconv.ErrSyntax
  ∧ strconv.ParseFloat "1.5x" = inr strconv.ErrSyntax
  ∧ strconv.ParseFloat "." = inr strconv.ErrSyntax
  ∧ strconv.ParseFloat "1e" = inr strconv.ErrSyntax
  ∧ strconv.ParseFloat ".5" = inl (S754_finite false 4503599627370496 (-53)).
Proof. repeat split; vm_compute; reflexivity. Qed.

Example FormatFloat_samples :
  strconv.FormatFloat_f1 f22_5 = "22.5"
  ∧ strconv.FormatFloat_f1 (S754_finite false 4503599627370496 (-52)) = "1.0"
  ∧ strconv.FormatFloat_f1 (S754_finite true 7205759403792794 (-56)) = "-0.1"
  ∧ strconv.FormatFloat_f1 (S754_finite false 1 (-2)) = "0.2"
  ∧ strconv.FormatFloat_f1 (S754_finite false 3 (-2)) = "0.8"
  ∧ strconv.FormatFloat_f1 (S754_finite false 1 (-1074)) = "0.0"
  ∧ strconv.FormatFloat_f1 (S754_finite true 1 (-10)) = "-0.0"
  ∧ strconv.FormatFloat_f1 (S754_finite false 9007199254740991 971)
    = "179769313486231570814527423731704356798070567525844996598917476803157260780028538760589558632766878171540458953514382464234321326889464182768467546703537516986049910576551282076245490090389328944075868508455133942304583236903222948165808559332123348274797826204144723168738177180919299881250404026184124858368.0"
  ∧ strconv.FormatFloat_f1 (S754_zero true) = "-0.0"
  ∧ strconv.FormatFloat_f1 S754_nan = "NaN"
  ∧ strconv.FormatFloat_f1 (S754_infinity false) = "+Inf".
Proof. repeat split; vm_compute; reflexivity. Qed.

Lemma allDigits_snoc (D : string) x :
  allDigits D = true → isDigit x = true → allDigits (D +:+ String x "") = true.
Proof.
  intros HD Hx.
  induction D as [| y D IH];
    [rewrite append_empty_l; cbn [allDigits]; by rewrite Hx |].
  rewrite append_cons. cbn [allDigits] in *.
  apply andb_prop in HD as [-> HD]. by apply IH.
Qed.

Lemma formatBits_digits fuel :
  ∀ u acc, 0 <= u →
    ∃ c D, strconv.formatBits (S fuel) u acc = String c D +:+ acc
           ∧ allDigits (String c D) = true.
Proof.
  assert (∀ u, 0 <= u → isDigit (digitChar (u mod 10)) = true) as Hdig.
  { intros u Hu. apply digitChar_spec, Z.mod_pos_bound. lia. }
  induction fuel as [| fuel IH]; intros u acc Hu; rewrite formatBits_S.
  - exists (digitChar (u mod 10)), "". split; [by destruct (u <? 10) |].
    cbn [allDigits]. by rewrite Hdig.
  - destruct (u <? 10).
    + exists (digitChar (u mod 10)), "". split; [done |].
      cbn [allDigits]. by rewrite Hdig.
    + destruct (IH (u / 10) (String (digitChar (u mod 10)) acc))
        as (c & D & -> & HD); [by apply Z.div_pos; lia |].
      exists c, (D +:+ String (digitChar (u mod 10)) "").
      rewrite !append_cons. split; [by rewrite <- append_snoc |].
      cbn [allDigits] in *. apply andb_prop in HD as [-> HD]. cbn [andb].
      apply allDigits_snoc; [done | by apply Hdig].
Qed.

Lemma Index_char_cons (c x : ascii) (s : string) :
  strings.Index (String x s) (String c "")
  = if eqb_ascii c x then Some 0%nat else S <$> strings.Index s (String c "").
Proof. cbn [strings.Index strings.hasPrefix]. by rewrite andb_true_r. Qed.

Lemma Index_digits (D : string) : allDigits D = true → strings.Index D "." = None.
Proof.
  induction D as [| x D IH]; intros H; [reflexivity |].
  cbn [allDigits] in H. apply andb_prop in H as [Hx HD].
  rewrite Index_char_cons, (IH HD).
  destruct x as [[] [] [] [] [] [] [] []]; vm_compute in Hx |- *;
    first [discriminate Hx | reflexivity].
Qed.

Lemma Index_char_app (k : string) c v :
  strings.Index k (String c "") = None →
  strings.Index (k +:+ String c v) (String c "") = Some (String.length k).
Proof.
  induction k as [| x k IH]; intros H.
  - rewrite append_empty_l, Index_char_cons.
    unfold eqb_ascii. by rewrite Ascii.eqb_refl.
  - rewrite append_cons. rewrite Index_char_cons in H |- *.
    destruct (eqb_ascii c x); [discriminate H |].
    destruct (strings.Index k (String c "")) eqn:E; [discriminate H |].
    by rewrite IH.
Qed.

Lemma drop_app_length (k v : string) :
  strings.drop (String.length k) (k +:+ v) = v.
Proof. induction k as [| x k IH]; [reflexivity |]. by rewrite append_cons. Qed.

Lemma oneFractionalDigit_intro (P : string) d :
  strings.Index P "." = None → isDigit d = true →
  oneFractionalDigit (P +:+ "." +:+ String d "") = true.
Proof.
  intros HP Hd. unfold oneFractionalDigit.
  change (P +:+ "." +:+ String d "") with (P +:+ String "." (String d "")).
  rewrite (Index_char_app P "." (String d "") HP).
  replace (String.length P + 1)%nat with (String.length (P +:+ "."))
    by (rewrite length_snoc; lia).
  rewrite (append_snoc P "." (String d "")), drop_app_length. exact Hd.
Qed.

Lemma roundTenths_nonneg m e : 0 <= strconv.roundTenths m e.
Proof.
  unfold strconv.roundTenths. destruct (0 <=? e) eqn:He.
  - apply Z.leb_le in He.
    assert (0 < 2 ^ e) by (apply Z.pow_pos_nonneg; lia). nia.
  - apply Z.leb_gt in He.
    assert (0 < 2 ^ (- e)) by (apply Z.pow_pos_nonneg; lia).
    assert (0 <= Z.pos m * 10 / 2 ^ (- e)) by (apply Z.div_pos; lia).
    destruct (_ || _); lia.
Qed.

Lemma FormatFloat_finite_fraction s m e :
  oneFractionalDigit (strconv.FormatFloat_f1 (S754_finite s m e)) = true.
Proof.
  cbn [strconv.FormatFloat_f1].
  pose proof (roundTenths_nonneg m e) as Hq.
  set (q := strconv.roundTenths m e) in *.
  assert (0 <= q mod 10 < 10) as Hd by (apply Z.mod_pos_bound; lia).
  destruct (formatBits_digits (Z.to_nat (Z.log2 (q / 10))) (q / 10) "")
    as (c & D & HD & Hall); [apply Z.div_pos; lia |].
  unfold strconv.formatDecimal. rewrite HD, append_empty_r.
  pose proof (Index_digits _ Hall) as Hidx.
  destruct s.
  - change ("-" +:+ String c D +:+ "." +:+ String (digitChar (q mod 10)) "")
      with (String "-" (String c D) +:+ "." +:+ String (digitChar (q mod 10)) "").
    apply oneFractionalDigit_intro; [| by apply digitChar_spec].
    rewrite Index_char_cons. change (eqb_ascii "." "-") with false. by rewrite Hidx.
  - rewrite append_empty_l.
    apply oneFractionalDigit_intro; [done | by apply digitChar_spec].
Qed.

Lemma startsNumber_false c :
  startsNumber c = false →
  isDigit c = false
  ∧ eqb_ascii c "+" = false ∧ eqb_ascii c "-" = false
  ∧ eqb_ascii c "." = false ∧ eqb_ascii c "_" = false
  ∧ eqb_ascii c "i" = false ∧ eqb_ascii c "I" = false
  ∧ eqb_ascii c "n" = false ∧ eqb_ascii c "N" = false
  ∧ eqb_ascii c "0" = false.
Proof.
  destruct c as [[] [] [] [] [] [] [] []]; vm_compute; intros H;
    first [discriminate H | repeat split; reflexivity].
Qed.

Lemma ParseFloat_not_number c rest :
  startsNumber c = false →
  strconv.ParseFloat (String c rest) = inr strconv.ErrSyntax.
Proof.
  intros H.
  destruct (startsNumber_false c H)
    as (Hd & Hplus & Hminus & Hdot & Hus & Hi & HI & Hn & HN & H0).
  unfold strconv.ParseFloat.
  assert (strconv.special (String c rest) = None) as ->.
  { unfold strconv.special. by rewrite Hplus, Hminus, Hi, HI, Hn, HN. }
  assert (strconv.readFloat (String c rest) = None) as ->; [| done].
  unfold strconv.readFloat. rewrite Hplus, Hminus. cbn [orb].
  assert (((2 <? String.length (String c rest))%nat
           && match String c rest with
              | String a (String b _) =>
                  eqb_ascii a "0" && eqb_ascii (strconv.lower b) "x"
              | _ => false
              end) = false) as ->.
  { destruct rest; [by rewrite andb_false_r |]. rewrite H0. by rewrite andb_false_r. }
  cbn [strconv.readDigits]. rewrite Hus, Hdot, Hd. reflexivity.
Qed.

(** C7, as stated, fails: NaN and the infinities are values of a
    [Temperature], and their encodings [NaN], [+Inf] and [-Inf] have no
    fractional digit. *)
Lemma Temperature_encode_not_finite :
  Temperature_encode S754_nan = "NaN"
  ∧ Temperature_encode (S754_infinity false) = "+Inf"
  ∧ Temperature_encode (S754_infinity true) = "-Inf"
  ∧ (∀ t0, Temperature_decode "NaN" t0 = (S754_nan, None))
  ∧ ¬ (∀ t, oneFractionalDigit (Temperature_encode t) = true).
Proof.
  repeat split; try (vm_compute; reflexivity).
  intros H. specialize (H S754_nan). vm_compute in H. discriminate H.
Qed.

(** C7 (amended). Temperature encode writes every finite value with
    exactly one fractional digit (22.5 as ["22.5"]); Temperature decode of
    ["22.5"] yields 22.5; decode fails, leaving the receiver as it was, on
    every string that [strconv.ParseFloat] rejects, among them every string
    that does not start with a digit, a sign, a point, an underscore or one
    of [i], [I], [n], [N], such as ["abc"]. *)
Theorem Temperature_codec :
  (∀ s m e, oneFractionalDigit (Temperature_encode (S754_finite s m e)) = true)
  ∧ (∀ s, oneFractionalDigit (Temperature_encode (S754_zero s)) = true)
  ∧ Temperature_encode f22_5 = "22.5"
  ∧ (∀ t0, Temperature_decode "22.5" t0 = (f22_5, None))
  ∧ (∀ v t0 err, strconv.ParseFloat v = inr err →
                 Temperature_decode v t0 = (t0, Some (ErrParseSTemp v err)))
  ∧ (∀ c rest t0, startsNumber c = false →
                  Temperature_decode (String c rest) t0
                  = (t0, Some (ErrParseSTemp (String c rest) strconv.ErrSyntax)))
  ∧ (∀ t0, Temperature_decode "abc" t0
           = (t0, Some (ErrParseSTemp "abc" strconv.ErrSyntax))).
Proof.
  split; [| split; [| split; [| split; [| split; [| split]]]]].
  - intros s m e. apply FormatFloat_finite_fraction.
  - intros []; vm_compute; reflexivity.
  - vm_compute; reflexivity.
  - intros t0. vm_compute; reflexivity.
  - intros v t0 err H. unfold Temperature_decode. by rewrite H.
  - intros c rest t0 H. unfold Temperature_decode.
    by rewrite (ParseFloat_not_number c rest H).
  - intros t0. reflexivity.
Qed.

Lemma Temperature_codec_witness :
  Temperature_decode "1e400" f22_5
  = (f22_5, Some (ErrParseSTemp "1e400" strconv.ErrRange))
  ∧ Temperature_decode "warm" f22_5
    = (f22_5, Some (ErrParseSTemp "warm" strconv.ErrSyntax)).
Proof.
  destruct Temperature_codec as (_ & _ & _ & _ & Herr & Hstart & _).
  split; [apply Herr; vm_compute; reflexivity | apply Hstart; reflexivity].
Defined.

(** ** Response framing *)

Example ReadAll_samples :
  csv.ReadAll "ret=OK,pow=1,mode=3" = Some (inl [["ret=OK"; "pow=1"; "mode=3"]])
  ∧ csv.ReadAll (String "a" (String "=" (String "1" (String csv.LF "b=2"))))
    = Some (inl [["a=1"]; ["b=2"]])
  ∧ csv.ReadAll "" = Some (inl [])
  ∧ csv.ReadAll "OK" = Some (inl [["OK"]])
  ∧ csv.ReadAll (String "a" (String csv.CR (String csv.LF (String csv.LF "b,c"))))
    = Some (inr csv.ErrFieldCount)
  ∧ csv.ReadAll (String "a" (String csv.quote "b")) = Some (inr csv.ErrBareQuote)
  ∧ csv.ReadAll (String csv.quote (String "a" (String "," (String csv.LF
       (String "b" (String csv.quote (String csv.quote (String "c" (String csv.quote ",d")))))))))
    = Some (inl [[String "a" (String "," (String csv.LF (String "b" (String csv.quote "c")))); "d"]])
  ∧ csv.ReadAll (String csv.quote "a") = Some (inr csv.ErrQuote)
  ∧ csv.ReadAll ("ret=OK,pow=1" +:+ String csv.CR (String csv.LF ""))
    = Some (inl [["ret=OK"; "pow=1"]])
  ∧ csv.ReadAll (String csv.LF (String csv.LF "a,b")) = Some (inl [["a"; "b"]]).
Proof. repeat split; vm_compute; reflexivity. Qed.

(** *** The reader always returns *)

Lemma length_take n (s : string) :
  String.length (strings.take n s) = Nat.min n (String.length s).
Proof.
  revert s. induction n as [| n IH]; intros [| c s]; cbn; try done.
  by rewrite IH.
Qed.

Lemma length_drop n (s : string) :
  String.length (strings.drop n s) = (String.length s - n)%nat.
Proof.
  revert s. induction n as [| n IH]; intros [| c s]; cbn; try done.
Qed.

Lemma length_append (s t : string) :
  String.length (s +:+ t) = (String.length s + String.length t)%nat.
Proof.
  induction s as [| c s IH]; [done |]. rewrite append_cons. cbn. by rewrite IH.
Qed.

Lemma IndexByte_lt b c i : csv.IndexByte b c = Some i → (i < String.length b)%nat.
Proof.
  revert i. induction b as [| x b IH]; intros i H; cbn in *; [done |].
  destruct (eqb_ascii x c).
  - injection H as <-. lia.
  - destruct (csv.IndexByte b c) as [j |]; [| done].
    injection H as <-. specialize (IH j eq_refl). lia.
Qed.

Lemma readLine_cases input :
  csv.readLine input
  = match csv.IndexByte input csv.LF with
    | Some i => (normalizeNL (strings.take (S i) input), false,
                 strings.drop (S i) input)
    | None => if (0 <? String.length input)%nat
              then (normalizeNL (dropCR input), false, "")
              else (input, true, "")
    end.
Proof.
  unfold csv.readLine.
  destruct (csv.IndexByte input csv.LF) as [i |].
  - generalize (strings.take (S i) input) (strings.drop (S i) input).
    intros l r. by rewrite andb_false_r.
  - destruct (0 <? String.length input)%nat eqn:E0; cbn [andb]; [done |].
    destruct input; [done | discriminate E0].
Qed.

Lemma length_normalizeNL line :
  (String.length (normalizeNL line) <= String.length line)%nat.
Proof.
  unfold normalizeNL.
  destruct (Nat.leb_spec 2 (String.length line)); cbn [andb]; [| lia].
  destruct (_ && _); [| lia].
  rewrite length_append, length_take. cbn. lia.
Qed.

Lemma length_dropCR line :
  (String.length (dropCR line) <= String.length line)%nat.
Proof.
  unfold dropCR. destruct (csv.byteIs _ _); [rewrite length_take |]; lia.
Qed.

Lemma readLine_length input line eof rest :
  csv.readLine input = (line, eof, rest) →
  (String.length line + String.length rest <= String.length input)%nat
  ∧ (eof = false → (String.length rest < String.length input)%nat)
  ∧ (eof = true → line = "" ∧ rest = "").
Proof.
  rewrite readLine_cases.
  destruct (csv.IndexByte input csv.LF) as [i |] eqn:Ei.
  - apply IndexByte_lt in Ei.
    pose proof (length_normalizeNL (strings.take (S i) input)) as Hn.
    rewrite length_take in Hn.
    pose proof (length_drop (S i) input) as Hd.
    revert Hn Hd.
    generalize (normalizeNL (strings.take (S i) input)) (strings.drop (S i) input).
    intros l r Hn Hd H; injection H as <- <- <-.
    split; [lia |]. split; [lia | done].
  - destruct (Nat.ltb_spec 0 (String.length input)) as [Hpos | Hz];
      intros H; injection H as <- <- <-.
    + pose proof (length_normalizeNL (dropCR input)) as Hn.
      pose proof (length_dropCR input) as Hc. cbn [String.length].
      split; [lia |]. split; [done | done].
    + destruct input; [| cbn in Hz; lia]. cbn. split; [lia |]. done.
Qed.

Lemma get0_Some (line : string) c :
  csv.byteIs (String.get 0 line) c = true → (0 < String.length line)%nat.
Proof. destruct line; cbn; [done | lia]. Qed.

Lemma quotedField_total fuel :
  ∀ line rest buf,
    (String.length line + String.length rest < fuel)%nat →
    match csv.quotedField fuel line rest buf with
    | csv.QComma _ line' rest' =>
        (String.length line' + String.length rest'
         <= String.length line + String.length rest)%nat
        ∧ (String.length rest' <= String.length rest)%nat
    | csv.QEnd _ rest' => (String.length rest' <= String.length rest)%nat
    | csv.QErr _ => True
    | csv.QFuel => False
    end.
Proof.
  induction fuel as [| fuel IH]; intros line rest buf Hf; [lia |].
  cbn [csv.quotedField].
  destruct (csv.IndexByte line csv.quote) as [i |] eqn:Ei.
  - apply IndexByte_lt in Ei.
    pose proof (length_drop (i + 1) line) as Hd.
    set (line2 := strings.drop (i + 1) line) in *.
    pose proof (length_drop 1 line2) as Hd1.
    destruct (csv.byteIs (String.get 0 line2) csv.quote) eqn:Eq.
    + apply get0_Some in Eq.
      specialize (IH (strings.drop 1 line2) rest
                     ((buf +:+ strings.take i line) +:+ String csv.quote ""))
        as IH'.
      destruct (csv.quotedField fuel _ rest _); lia.
    + destruct (csv.byteIs (String.get 0 line2) csv.comma); [lia |].
      destruct (_ =? _)%nat; [lia | done].
  - destruct (Nat.ltb_spec 0 (String.length line)) as [Hpos | _]; [| done].
    destruct (csv.readLine rest) as [[line' e] rest'] eqn:Er.
    apply readLine_length in Er as (Hlen & _ & _).
    specialize (IH line' rest' (buf +:+ line)) as IH'.
    destruct (csv.quotedField fuel line' rest' _); lia.
Qed.

Lemma parseField_total fuel :
  ∀ line rest fields,
    (String.length line + String.length rest < fuel)%nat →
    match csv.parseField fuel line rest fields with
    | csv.PRecord _ rest' => (String.length rest' <= String.length rest)%nat
    | csv.PErr _ => True
    | csv.PFuel => False
    end.
Proof.
  induction fuel as [| fuel IH]; intros line rest fields Hf; [lia |].
  cbn [csv.parseField].
  destruct (_ || _) eqn:Ecase.
  - destruct (csv.IndexByte line csv.comma) as [i |] eqn:Ei.
    + apply IndexByte_lt in Ei. destruct (csv.hasQuote _); [done |].
      pose proof (length_drop (i + 1) line) as Hd.
      specialize (IH (strings.drop (i + 1) line) rest
                     (fields ++ [strings.take i line])%list) as IH'.
      destruct (csv.parseField fuel _ rest _); lia.
    + destruct (csv.hasQuote _); [done | lia].
  - apply orb_false_elim in Ecase as [Hne _].
    apply Nat.eqb_neq in Hne.
    pose proof (length_drop 1 line) as Hd.
    pose proof (quotedField_total fuel (strings.drop 1 line) rest "") as Hq.
    destruct (csv.quotedField fuel (strings.drop 1 line) rest "")
      as [f l' r' | f r' | e |]; [| lia | done | lia].
    specialize (IH l' r' (fields ++ [f])%list) as IH'.
    destruct (csv.parseField fuel l' r' _); lia.
Qed.

Lemma readRecord_total fuel :
  ∀ input, (String.length input < fuel)%nat →
    match csv.readRecord fuel input with
    | csv.RRecord _ rest => (String.length rest < String.length input)%nat
    | csv.RFuel => False
    | _ => True
    end.
Proof.
  induction fuel as [| fuel IH]; intros input Hf; [lia |].
  cbn [csv.readRecord].
  destruct (csv.readLine input) as [[line e] rest] eqn:Er.
  apply readLine_length in Er as (Hlen & Hlt & _).
  destruct e; cbn [negb andb]; [done |].
  specialize (Hlt eq_refl).
  destruct (_ =? _)%nat.
  - specialize (IH rest) as IH'.
    destruct (csv.readRecord fuel rest); lia.
  - pose proof (parseField_total (S (String.length line + String.length rest))
                  line rest [] ltac:(lia)) as Hp.
    destruct (csv.parseField _ line rest []); [lia | done | done].
Qed.

Lemma readAll_total fuel :
  ∀ input fpr records, (String.length input < fuel)%nat →
    csv.readAll fuel input fpr records ≠ None.
Proof.
  induction fuel as [| fuel IH]; intros input fpr records Hf; [lia |].
  cbn [csv.readAll].
  pose proof (readRecord_total (S (String.length input)) input ltac:(lia)) as Hr.
  destruct (csv.readRecord _ input) as [| fields rest | e |]; [done | | done | done].
  destruct (0 <? fpr)%nat.
  - destruct (negb _); [done |]. apply IH. lia.
  - apply IH. lia.
Qed.

(** The csv reader returns on every input: with records or with an error. *)
Lemma ReadAll_total input :
  ∃ r, csv.ReadAll input = Some r.
Proof.
  unfold csv.ReadAll.
  pose proof (readAll_total (S (String.length input)) input 0 [] ltac:(lia)) as H.
  destruct (csv.readAll _ input 0 []) as [r |]; [by exists r | done].
Qed.

(** *** parseResponse *)

Lemma SplitN_eq_cases r :
  strings.SplitN r "=" 2
  = match strings.Index r "=" with
    | None => [r]
    | Some m => [strings.take m r; strings.drop (m + 1) r]
    end.
Proof.
  destruct r as [| c r]; [reflexivity |].
  unfold strings.SplitN.
  replace (Nat.min 2 (String.length (String c r) + 1) - 1)%nat with 1%nat
    by (cbn [String.length]; lia).
  cbn [strings.genSplit]. by destruct (strings.Index _ _).
Qed.

Lemma Index_token k v :
  strings.Index k "=" = None →
  strings.Index (token (k, v)) "=" = Some (String.length k).
Proof.
  unfold token. cbn [fst snd].
  induction k as [| c k IH]; intros H; [reflexivity |].
  rewrite append_cons. cbn [strings.Index strings.hasPrefix] in H |- *.
  rewrite andb_true_r in *.
  destruct (eqb_ascii "=" c); [discriminate H |].
  destruct (strings.Index k "=") eqn:E; [discriminate H |].
  by rewrite IH.
Qed.

Lemma take_token k v : strings.take (String.length k) (token (k, v)) = k.
Proof.
  unfold token. cbn [fst snd].
  induction k as [| c k IH]; [reflexivity |].
  rewrite append_cons. cbn. by rewrite IH.
Qed.

Lemma drop_token k v : strings.drop (String.length k + 1) (token (k, v)) = v.
Proof.
  unfold token. cbn [fst snd].
  induction k as [| c k IH]; [reflexivity |].
  rewrite append_cons. cbn. by rewrite IH.
Qed.

Lemma parseResponse_fields_tokens kvs :
  Forall (λ kv, strings.Index kv.1 "=" = None) kvs →
  ∀ values, parseResponse_fields (token <$> kvs) values
            = Ret (foldl (λ m kv, <[kv.1 := kv.2]> m) values kvs).
Proof.
  induction 1 as [| [k v] kvs Hk _ IH]; intros values; [reflexivity |].
  cbn [fmap list_fmap parseResponse_fields foldl fst snd] in *.
  rewrite SplitN_eq_cases, (Index_token k v Hk), take_token, drop_token.
  cbn. apply IH.
Qed.

(** [parseResponse] returns on every body: with a mapping, with an error,
    or by a panic. *)
Lemma parseResponse_returns body : ∃ o, parseResponse body = Some o.
Proof.
  destruct body as [body | err]; [| by eexists].
  unfold parseResponse. destruct (ReadAll_total body) as [[records | e] ->].
  - destruct (negb _); [by eexists |]. destruct (records !! 0%nat); by eexists.
  - by eexists.
Qed.

(** C4. [parseResponse] fails with the error of the number of rows when the
    body parses into zero or several records; on a body of one record whose
    tokens are [key=value] with no ['='] in the key, it returns the mapping
    of each key to the rest of its token after the first ['='] (which may
    hold further ['=']).  ["ret=OK,pow=1,mode=3"] yields
    [{ret: OK, pow: 1, mode: 3}] and a body of two rows fails. *)
Theorem parseResponse_framing :
  (∀ body records,
      csv.ReadAll body = Some (inl records) → length records ≠ 1%nat →
      parseResponse (inl body) = Some (Fail (ErrRows (length records))))
  ∧ (∀ body kvs,
      csv.ReadAll body = Some (inl [token <$> kvs]) →
      Forall (λ kv, strings.Index kv.1 "=" = None) kvs →
      parseResponse (inl body) = Some (Ret (valuesOf kvs)))
  ∧ parseResponse (inl "ret=OK,pow=1,mode=3")
    = Some (Ret (<["mode" := "3"]> (<["pow" := "1"]> (<["ret" := "OK"]> ∅))))
  ∧ parseResponse (inl "k=a=b,x=") = Some (Ret (<["x" := ""]> (<["k" := "a=b"]> ∅)))
  ∧ parseResponse (inl (String "a" (String "=" (String "1" (String csv.LF "b=2")))))
    = Some (Fail (ErrRows 2))
  ∧ parseResponse (inl "") = Some (Fail (ErrRows 0)).
Proof.
  split; [| split].
  - intros body records E Hn. unfold parseResponse. rewrite E.
    destruct (Nat.eqb_spec (length records) 1); [done | reflexivity].
  - intros body kvs E Hk. unfold parseResponse. rewrite E. cbn.
    f_equal. by apply parseResponse_fields_tokens.
  - assert (∀ body kvs,
        csv.ReadAll body = Some (inl [token <$> kvs]) →
        Forall (λ kv, strings.Index kv.1 "=" = None) kvs →
        parseResponse (inl body) = Some (Ret (valuesOf kvs))) as Hone.
    { intros body kvs E Hk. unfold parseResponse. rewrite E. cbn.
      f_equal. by apply parseResponse_fields_tokens. }
    split; [| split; [| split]].
    + apply (Hone _ [("ret", "OK"); ("pow", "1"); ("mode", "3")]);
        [vm_compute; reflexivity | repeat constructor].
    + apply (Hone _ [("k", "a=b"); ("x", "")]);
        [vm_compute; reflexivity | repeat constructor].
    + vm_compute; reflexivity.
    + vm_compute; reflexivity.
Qed.

Lemma parseResponse_framing_witness :
  parseResponse (inl "pow=0,pow=1") = Some (Ret (valuesOf [("pow", "0"); ("pow", "1")]))
  ∧ parseResponse (inl (String "a" (String "=" (String "1" (String csv.LF
       (String "b" (String "=" (String "2" (String csv.LF "c=3")))))))))
    = Some (Fail (ErrRows 3)).
Proof.
  destruct parseResponse_framing as (Hrows & Hone & _).
  split.
  - apply Hone; [vm_compute; reflexivity | repeat constructor].
  - apply (Hrows _ [["a=1"]; ["b=2"]; ["c=3"]]); [vm_compute; reflexivity | cbn; lia].
Defined.

(** C10. The body ["OK"] is one record for the csv reader, and its only
    token has no ['=']: [strings.SplitN] returns one part and
    [parseResponse] panics on [parts[1]]. *)
Theorem parseResponse_panics_without_eq :
  csv.ReadAll "OK" = Some (inl [["OK"]])
  ∧ strings.SplitN "OK" "=" 2 = ["OK"]
  ∧ parseResponse (inl "OK") = Some (Panic "index out of range")
  ∧ parseResponse (inl "ret=OK,pow") = Some (Panic "index out of range").
Proof. repeat split; vm_compute; reflexivity. Qed.

(** ** Discovery *)

Example ParseCIDR_sample :
  ipv4.ParseCIDR "192.168.1.42/24"
  = Some ([0; 0; 0; 0; 0; 0; 0; 0; 0; 0; 255; 255; 192; 168; 1; 42],
          {| net.IP := [192; 168; 1; 0]; net.Mask := [255; 255; 255; 0] |})
  ∧ ipv4.ParseCIDR "10.1.2.3/20"
    = Some ([0; 0; 0; 0; 0; 0; 0; 0; 0; 0; 255; 255; 10; 1; 2; 3],
            {| net.IP := [10; 1; 0; 0]; net.Mask := [255; 255; 240; 0] |})
  ∧ ipv4.ParseCIDR "fe80::1/64" = None
  ∧ ipv4.ParseCIDR "192.168.1.42" = None
  ∧ ipv4.ParseCIDR "192.168.01.42/24" = None
  ∧ ipv4.ParseCIDR "192.168.1.42/33" = None
  ∧ ipv4.IPString [192; 168; 1; 255] = "192.168.1.255".
Proof. repeat split; vm_compute; reflexivity. Qed.

(** *** Selection of the interfaces *)

Lemma ifaceLoop_app lib d ifl1 ifl2 bs :
  ifaceLoop lib d (ifl1 ++ ifl2) bs
  = match ifaceLoop lib d ifl1 bs with
    | Ret bs' => ifaceLoop lib d ifl2 bs'
    | other => other
    end.
Proof.
  revert bs. induction ifl1 as [| i ifl1 IH]; intros bs; [done |].
  cbn [app ifaceLoop]. destruct (skipInterface d i); [apply IH |].
  destruct (net.Addrs i) as [adr | err]; [| apply IH].
  destruct (addrLoop lib adr bs); [apply IH | done | done].
Qed.

Lemma skipInterface_flags d i : net.Flags i ≠ wantFlags → skipInterface d i = true.
Proof.
  intros H. unfold skipInterface.
  by destruct (Z.eqb_spec (net.Flags i) wantFlags).
Qed.

Lemma ifaceLoop_skipped lib d i before after bs :
  skipInterface d i = true →
  ifaceLoop lib d (before ++ i :: after) bs = ifaceLoop lib d (before ++ after) bs.
Proof.
  intros H. rewrite !ifaceLoop_app. cbn [ifaceLoop]. by rewrite H.
Qed.

(** C1. The loop over the interfaces tests [i.Flags != wantFlags], an
    equality on the whole flag word.  An interface whose flags include up,
    broadcast and multicast and also any other flag is passed over: the
    result of [getBroadcastAddresses] is the same as with that interface
    taken out of the list, whatever its addresses.  So for [eth0] with
    192.168.1.42/24, up, broadcast, multicast and running, no broadcast
    address is computed: without a configured name the scan returns nil
    with no beacon written, with the name [eth0] configured it fails for a
    missing interface; with the three flags alone the address
    192.168.1.255 is computed. *)
Theorem interface_with_more_flags_not_selected :
  (∀ lib d i before after,
      Z.land (net.Flags i) wantFlags = wantFlags →
      net.Flags i ≠ wantFlags →
      getBroadcastAddresses lib (inl (before ++ i :: after)) d
      = getBroadcastAddresses lib (inl (before ++ after)) d)
  ∧ (let running := Z.lor wantFlags net.FlagRunning in
     Z.land running wantFlags = wantFlags
     ∧ getBroadcastAddresses ipv4.lib (inl [eth0 running]) (NewNetwork [])
       = (set_broadcasts [] (NewNetwork []), Ret tt)
     ∧ getBroadcastAddresses ipv4.lib (inl [eth0 running])
         (NewNetwork [InterfaceOption "eth0"])
       = (set_broadcasts [] (NewNetwork [InterfaceOption "eth0"]),
          Fail (ErrNoInterface "eth0"))
     ∧ Discover ipv4.lib
         {| interfaces := inl [eth0 running]; listenError := None;
            schedule := [turn 0 (ReadFrom [192; 168; 1; 9]); turn 0 ReadTimeout] |}
         (NewNetwork [])
       = Some (NewNetwork [], Ret tt, [EvInterfaces; EvListenUDP 30000; EvClose])
     ∧ getBroadcastAddresses ipv4.lib (inl [eth0 wantFlags]) (NewNetwork [])
       = (set_broadcasts [[192; 168; 1; 255]] (NewNetwork []), Ret tt)).
Proof.
  split; [| cbn zeta; repeat split; vm_compute; reflexivity].
  intros lib d i before after _ Hne. unfold getBroadcastAddresses.
  by rewrite ifaceLoop_skipped by by apply skipInterface_flags.
Qed.

Lemma interface_with_more_flags_not_selected_witness :
  getBroadcastAddresses ipv4.lib
    (inl [eth0 (Z.lor wantFlags net.FlagRunning);
          {| net.IfName := "eth1"; net.Flags := wantFlags;
             net.Addrs := inl ["10.1.2.3/20"] |}])
    (NewNetwork [])
  = (set_broadcasts [[10; 1; 15; 255]] (NewNetwork []), Ret tt).
Proof.
  destruct interface_with_more_flags_not_selected as [H _].
  refine (eq_trans
            (H ipv4.lib (NewNetwork []) (eth0 (Z.lor wantFlags net.FlagRunning)) []
               [{| net.IfName := "eth1"; net.Flags := wantFlags;
                   net.Addrs := inl ["10.1.2.3/20"] |}] _ _) _).
  - vm_compute; reflexivity.
  - vm_compute. discriminate.
  - vm_compute; reflexivity.
Defined.

(** *** The broadcast address *)

Lemma bCastOf_cases network :
  bCastOf network
  = match net.IP network, net.Mask network with
    | x0 :: x1 :: x2 :: x3 :: _, m0 :: m1 :: m2 :: m3 :: _ =>
        Some [bCastOctet x0 m0; bCastOctet x1 m1; bCastOctet x2 m2; bCastOctet x3 m3]
    | _, _ => None
    end.
Proof.
  destruct network as [ip mask]. unfold bCastOf. cbn [net.IP net.Mask].
  destruct ip as [| x0 [| x1 [| x2 [| x3 ip]]]];
    destruct mask as [| m0 [| m1 [| m2 [| m3 mask]]]]; reflexivity.
Qed.

Lemma bCastOctet_byte x m :
  0 <= x < 256 → 0 <= m < 256 → bCastOctet x m = Z.lor x (255 - m).
Proof. intros Hx Hm. unfold bCastOctet. rewrite !Z.mod_small; lia. Qed.

(** C5. For an address of a selected interface that [net.ParseCIDR] reads
    and whose IP is IPv4, the address appended to the broadcast addresses
    has, for each of its four octets, the octet of the network IP or-ed
    with 0xff minus the octet of the mask; for 192.168.1.42 with mask
    255.255.255.0 it is 192.168.1.255. *)
Theorem broadcast_address :
  (∀ lib a adr bs ip four x0 x1 x2 x3 xs m0 m1 m2 m3 ms,
      net.ParseCIDR lib a
      = Some (ip, {| net.IP := x0 :: x1 :: x2 :: x3 :: xs;
                     net.Mask := m0 :: m1 :: m2 :: m3 :: ms |}) →
      net.To4 ip = Some four →
      Forall (λ b, 0 <= b < 256) [x0; x1; x2; x3; m0; m1; m2; m3] →
      addrLoop lib (a :: adr) bs
      = addrLoop lib adr
          (bs ++ [[Z.lor x0 (255 - m0); Z.lor x1 (255 - m1);
                   Z.lor x2 (255 - m2); Z.lor x3 (255 - m3)]]))
  ∧ (let d := NewNetwork [] in
     getBroadcastAddresses ipv4.lib (inl [eth0 wantFlags]) d
     = (set_broadcasts [[192; 168; 1; 255]] d, Ret tt)).
Proof.
  split; [| vm_compute; reflexivity].
  intros lib a adr bs ip four x0 x1 x2 x3 xs m0 m1 m2 m3 ms Hp H4 Hb.
  cbn [addrLoop]. rewrite Hp, H4, bCastOf_cases. cbn [net.IP net.Mask].
  repeat match goal with
         | H : Forall _ (_ :: _) |- _ => apply Forall_cons in H as [? H]
         end.
  by rewrite !bCastOctet_byte.
Qed.

Lemma broadcast_address_witness :
  addrLoop ipv4.lib ["10.1.2.3/20"] [] = Ret [[10; 1; 15; 255]].
Proof.
  destruct broadcast_address as [H _].
  refine (H ipv4.lib "10.1.2.3/20" [] []
            [0; 0; 0; 0; 0; 0; 0; 0; 0; 0; 255; 255; 10; 1; 2; 3] [10; 1; 2; 3]
            10 1 0 0 [] 255 255 240 0 [] _ _ _).
  - vm_compute; reflexivity.
  - vm_compute; reflexivity.
  - repeat constructor; lia.
Defined.

(** *** Discovery with no poll *)

(** C8. With [PollCount < 1], [Discover] returns nil at once: no call is
    made on the network (no interface enumeration, no socket), and the
    network value, its registry included, is the one it was given. *)
Theorem Discover_no_poll lib (w : World) (d : DaikinNetwork) :
  PollCount d < 1 → Discover lib w d = Some (d, Ret tt, []).
Proof.
  intros H. unfold Discover. by destruct (Z.ltb_spec (PollCount d) 1); [| lia].
Qed.

Lemma Discover_no_poll_witness :
  let d := NewNetwork [InterfaceOption "eth0"; AddressOption "192.168.1.7"] in
  let w := {| interfaces := inl [eth0 wantFlags]; listenError := None;
              schedule := [{| who := 0; writeFails := false;
                              readAnswer := ReadFrom [192; 168; 1; 9] |}] |} in
  PollCount d = 0
  ∧ Devices d = Some {[ "192.168.1.7" := newDaikin "192.168.1.7" ]}
  ∧ Discover ipv4.lib w d = Some (d, Ret tt, []).
Proof.
  cbn zeta. split; [reflexivity |]. split; [reflexivity |].
  apply Discover_no_poll. vm_compute. reflexivity.
Defined.


(** ** Name and the display names *)

Example PathEscape_samples :
  neturl.PathEscape "Living room" = "Living%20room"
  ∧ neturl.PathEscape "a/b,c;d?e" = "a%2Fb%2Cc%3Bd%3Fe"
  ∧ neturl.PathEscape "x=1&y:$@+-_.~" = "x=1&y:$@+-_.~"
  ∧ neturl.PathEscape "50%" = "50%25"
  ∧ neturl.PathUnescape "Living%20room" = inl "Living room"
  ∧ neturl.PathUnescape "a%2fb" = inl "a/b"
  ∧ neturl.PathUnescape "a+b" = inl "a+b"
  ∧ neturl.PathUnescape "50%" = inr (neturl.EscapeErr "%")
  ∧ neturl.PathUnescape "%zz9" = inr (neturl.EscapeErr "%zz")
  ∧ neturl.PathUnescape "%4" = inr (neturl.EscapeErr "%4").
Proof. repeat split; vm_compute; reflexivity. Qed.

Lemma escape_byte c :
  neturl.ishex (neturl.upperhex (Z.shiftr (byteOf c) 4)) = true
  ∧ neturl.ishex (neturl.upperhex (Z.land (byteOf c) 15)) = true
  ∧ ascii_of_N
      (Z.to_N
         (Z.lor
            (Z.shiftl (neturl.unhex (neturl.upperhex (Z.shiftr (byteOf c) 4))) 4 mod 256)
            (neturl.unhex (neturl.upperhex (Z.land (byteOf c) 15))))) = c.
Proof. destruct c as [[] [] [] [] [] [] [] []]; vm_compute; done. Qed.

Lemma shouldEscape_percent c :
  neturl.shouldEscape c = false → eqb_ascii c "%" = false.
Proof.
  destruct c as [[] [] [] [] [] [] [] []]; vm_compute; intros H;
    first [discriminate H | reflexivity].
Qed.

Lemma escape_checked s : neturl.badEscape (neturl.escape s) = None.
Proof.
  induction s as [| c s IH]; [done |]. cbn [neturl.escape].
  destruct (neturl.shouldEscape c) eqn:E.
  - cbn [neturl.badEscape]. change (eqb_ascii "%" "%") with true. cbn match.
    destruct (escape_byte c) as (-> & -> & _). exact IH.
  - cbn [neturl.badEscape]. by rewrite (shouldEscape_percent c E).
Qed.

Lemma escape_unescapeLoop s : neturl.unescapeLoop (neturl.escape s) = s.
Proof.
  induction s as [| c s IH]; [done |]. cbn [neturl.escape].
  destruct (neturl.shouldEscape c) eqn:E.
  - cbn [neturl.unescapeLoop]. change (eqb_ascii "%" "%") with true. cbn match.
    destruct (escape_byte c) as (_ & _ & ->). by rewrite IH.
  - cbn [neturl.unescapeLoop]. rewrite (shouldEscape_percent c E). by rewrite IH.
Qed.

(** X1. Decoding the text that [Name.setUrlValues] writes for a name gives
    the name back, for every byte string. *)
Theorem Name_decode_encode (n n0 : string) :
  Name_decode (Name_encode n) n0 = (n, None).
Proof.
  unfold Name_decode, Name_encode, Name_setUrlValues, url.Set_, url.Get.
  rewrite lookup_insert_eq. unfold neturl.PathUnescape, neturl.PathEscape, Name_String.
  by rewrite escape_checked, escape_unescapeLoop.
Qed.

Lemma ishex_percent c : neturl.ishex c = true → eqb_ascii c "%" = false.
Proof.
  destruct c as [[] [] [] [] [] [] [] []]; vm_compute; intros H;
    first [discriminate H | reflexivity].
Qed.

Lemma eqb_ascii_true a b : eqb_ascii a b = true ↔ a = b.
Proof. unfold eqb_ascii. apply Ascii.eqb_eq. Qed.

Lemma wellEscaped_skip c s :
  eqb_ascii c "%" = false → (wellEscaped (String c s) ↔ wellEscaped s).
Proof.
  intros Hc. split; intros H i Hi.
  - destruct (H (S i) Hi) as (a & b & Ha & Hb & Hx). by exists a, b.
  - destruct i as [| i]; [| by apply (H i)].
    cbn in Hi. injection Hi as ->. discriminate Hc.
Qed.

Lemma wellEscaped_escape a b s :
  neturl.ishex a = true → neturl.ishex b = true →
  (wellEscaped (String "%" (String a (String b s))) ↔ wellEscaped s).
Proof.
  intros Ha Hb. split; intros H i Hi.
  - destruct (H (S (S (S i))) Hi) as (x & y & Hx & Hy & Hh). by exists x, y.
  - destruct i as [| [| [| i]]].
    + by exists a, b.
    + cbn in Hi. injection Hi as ->. by apply ishex_percent in Ha.
    + cbn in Hi. injection Hi as ->. by apply ishex_percent in Hb.
    + by apply (H i).
Qed.

Lemma badEscape_None_iff n :
  ∀ s, (String.length s <= n)%nat → (neturl.badEscape s = None ↔ wellEscaped s).
Proof.
  induction n as [| n IH]; intros s Hlen.
  - destruct s; [| cbn in Hlen; lia]. split; [| done]. intros _ i Hi. destruct i; done.
  - destruct s as [| c s]; [split; [intros _ i Hi; destruct i; done | done] |].
    cbn [String.length] in Hlen. cbn [neturl.badEscape].
    destruct (eqb_ascii c "%") eqn:Ec.
    + apply eqb_ascii_true in Ec as ->.
      destruct s as [| a [| b s]].
      * split; [done |]. intros H. destruct (H 0%nat eq_refl) as (x & y & Hx & _). done.
      * split; [done |]. intros H.
        destruct (H 0%nat eq_refl) as (x & y & _ & Hy & _). done.
      * destruct (neturl.ishex a) eqn:Ha; [destruct (neturl.ishex b) eqn:Hb |]; cbn [andb].
        -- rewrite wellEscaped_escape by done. apply IH. cbn [String.length] in Hlen. lia.
        -- split; [done |]. intros H.
           destruct (H 0%nat eq_refl) as (x & y & _ & Hy & _ & Hh).
           cbn in Hy. injection Hy as <-. congruence.
        -- split; [done |]. intros H.
           destruct (H 0%nat eq_refl) as (x & y & Hx & _ & Hh & _).
           cbn in Hx. injection Hx as <-. congruence.
    + rewrite wellEscaped_skip by done. apply IH. lia.
Qed.

(** X2. [Name.decode] succeeds exactly on the texts in which every [%] is
    followed by two hexadecimal digits; on the others it returns an error
    and leaves the name as it was. *)
Theorem Name_decode_succeeds_iff (s n0 : string) :
  ((∃ v, Name_decode s n0 = (v, None)) ↔ wellEscaped s)
  ∧ ((∃ e, Name_decode s n0 = (n0, Some e)) ↔ ¬ wellEscaped s).
Proof.
  pose proof (badEscape_None_iff (String.length s) s (le_n _)) as Hiff.
  unfold Name_decode, neturl.PathUnescape.
  destruct (neturl.badEscape s) as [e |].
  - split; split.
    + intros [v Hv]. discriminate Hv.
    + intros H. apply Hiff in H. discriminate H.
    + intros _ H. apply Hiff in H. discriminate H.
    + intros _. by eexists.
  - split; split.
    + intros _. by apply Hiff.
    + intros _. by eexists.
    + intros [e He]. discriminate He.
    + intros H. destruct H. by apply Hiff.
Qed.

(** *** Display names *)

Ltac decode_case H s c :=
  destruct (String.eqb_spec s c) as [-> | _];
  [injection H as <-; vm_compute; reflexivity |].

(** X3. A value that a [decode] of an enumerated type stores has a display
    name in the type's table: [String] returns that name and not an
    [Unknown ...] text.  A value outside the constants of the type is
    displayed as [Unknown ...] with the value. *)
Theorem decoded_values_have_names :
  (∀ s p0 v, Power_decode s p0 = (v, None) → powerMap !! v = Some (Power_String v))
  ∧ (∀ s m0 v, Mode_decode s m0 = (v, None) → modeMap !! v = Some (Mode_String v))
  ∧ (∀ s f0 v, Fan_decode s f0 = (v, None) → fanMap !! v = Some (Fan_String v))
  ∧ (∀ s f0 v, FanDir_decode s f0 = (v, None) →
               fanDirMap !! v = Some (FanDir_String v))
  ∧ (∀ v, v ∉ Power_consts →
          Power_String v = "Unknown Power [" +:+ strconv.Itoa v +:+ "]")
  ∧ (∀ v, v ∉ Mode_consts →
          Mode_String v = "Unknown Mode [" +:+ strconv.Itoa v +:+ "]")
  ∧ (∀ v, v ∉ Fan_consts → Fan_String v = "Unknown Fan [" +:+ v +:+ "]")
  ∧ (∀ v, v ∉ FanDir_consts →
          FanDir_String v = "Unknown FanDir [" +:+ strconv.Itoa v +:+ "]").
Proof.
  repeat split.
  - intros s p0 v H. unfold Power_decode in H.
    decode_case H s "0". decode_case H s "1". discriminate H.
  - intros s m0 v H. unfold Mode_decode in H.
    decode_case H s "2". decode_case H s "3". decode_case H s "4".
    decode_case H s "6". decode_case H s "0". decode_case H s "1".
    decode_case H s "7". discriminate H.
  - intros s f0 v H. unfold Fan_decode in H.
    decode_case H s "A". decode_case H s "B". decode_case H s "3".
    decode_case H s "4". decode_case H s "5". decode_case H s "6".
    decode_case H s "7". discriminate H.
  - intros s f0 v H. unfold FanDir_decode in H.
    destruct (strconv.Atoi s) as [x | e]; [| discriminate H].
    unfold FanDir_String.
    destruct (fanDirMap !! x) as [name |] eqn:E; [| discriminate H].
    injection H as <-. by rewrite E.
  - intros v H. unfold Power_String, powerMap.
    by rewrite not_elem_of_list_to_map_1.
  - intros v H. unfold Mode_String, modeMap.
    by rewrite not_elem_of_list_to_map_1.
  - intros v H. unfold Fan_String, fanMap.
    by rewrite not_elem_of_list_to_map_1.
  - intros v H. unfold FanDir_String, fanDirMap.
    by rewrite not_elem_of_list_to_map_1.
Qed.

Lemma decoded_values_have_names_witness :
  modeMap !! ModeHeat = Some (Mode_String ModeHeat)
  ∧ Fan_String "9" = "Unknown Fan [9]"
  ∧ Power_String 7 = "Unknown Power [7]".
Proof.
  destruct decoded_values_have_names as (_ & HM & _ & _ & HP & _ & HF & _).
  split; [apply (HM "4" ModeAuto); reflexivity |].
  split; [apply HF; by_decide | apply HP; by_decide].
Defined.

Lemma Name_decode_succeeds_iff_witness :
  (∃ v, Name_decode "Living%20room" "old" = (v, None))
  ∧ ¬ wellEscaped "50%".
Proof.
  split.
  - apply (proj1 (Name_decode_succeeds_iff "Living%20room" "old")).
    apply (badEscape_None_iff 20); [vm_compute; lia | reflexivity].
  - apply (proj2 (Name_decode_succeeds_iff "50%" "old")). by eexists.
Defined.

(** ** populate *)

Lemma ControlInfo_body_error c k v :
  (ControlInfo_populate_body c k v).2 = ControlInfo_entryError k v.
Proof.
  unfold ControlInfo_entryError, ControlInfo_populate_body.
  repeat (destruct (String.eqb k _); [
    first [ by unfold Power_decode; repeat (destruct (String.eqb v _); [done |])
          | by unfold Mode_decode; repeat (destruct (String.eqb v _); [done |])
          | by unfold Fan_decode; repeat (destruct (String.eqb v _); [done |])
          | by unfold Temperature_decode; destruct (strconv.ParseFloat v)
          | by unfold Humidity_decode; destruct (strconv.Atoi _)
          | by unfold FanDir_decode; destruct (strconv.Atoi v) as [x |];
              [destruct (fanDirMap !! x) |]
          | done ] |]).
  done.
Qed.

Lemma rangeLoop_fails {S : Type} (body : S → string → string → S * option error)
    (entryError : string → string → option error) :
  (∀ s k v, (body s k v).2 = entryError k v) →
  ∀ kvs s,
    Exists (λ kv, entryError kv.1 kv.2 ≠ None) kvs →
    ∃ kv e, kv ∈ kvs ∧ entryError kv.1 kv.2 = Some e
            ∧ (rangeLoop body kvs s).2 = Some e.
Proof.
  intros Hbody kvs. induction kvs as [| [k v] kvs IH]; intros s Hex.
  - by apply Exists_nil in Hex.
  - cbn [rangeLoop]. specialize (Hbody s k v).
    destruct (body s k v) as [s' [e |]] eqn:Eb; cbn [snd] in Hbody.
    + exists (k, v), e. split; [left |]. done.
    + apply Exists_cons in Hex as [Hhd | Htl]; [cbn in Hhd; congruence |].
      destruct (IH s' Htl) as (kv & e & Hin & He & Hres).
      exists kv, e. split; [by right | done].
Qed.

Lemma ControlInfo_populated_empty c : ControlInfo_populated ∅ c = c.
Proof. by destruct c. Qed.

Lemma ControlInfo_body_populated (M : gmap string string) c k v c1 :
  M !! k = None →
  ControlInfo_populate_body c k v = (c1, None) →
  ControlInfo_populated M c1 = ControlInfo_populated (<[k := v]> M) c.
Proof.
  intros HM Hb. unfold ControlInfo_populate_body in Hb.
  unfold ControlInfo_populated.
  repeat match type of Hb with
         | (if String.eqb k ?key then _ else _) = _ =>
             destruct (String.eqb_spec k key) as [-> | ?]
         end.
  all: try match type of Hb with
           | context [match ?dec with pair _ _ => _ end] =>
               destruct dec as [x err] eqn:Ed; injection Hb as <- ->
           end.
  all: try (injection Hb as <-).
  all: cbn [Power Mode Fan FanDir Temperature Humidity].
  all: rewrite ?lookup_insert_eq, ?HM; rewrite ?lookup_insert_ne by congruence.
  all: cbn [fieldOf]; rewrite ?Ed; try reflexivity.
Qed.

Lemma rangeLoop_ControlInfo_ok kvs :
  ∀ c, NoDup kvs.*1 →
       Forall (λ kv, ControlInfo_entryError kv.1 kv.2 = None) kvs →
       rangeLoop ControlInfo_populate_body kvs c
       = (ControlInfo_populated (list_to_map kvs) c, None).
Proof.
  induction kvs as [| [k v] kvs IH]; intros c Hnd Hok.
  - cbn. by rewrite ControlInfo_populated_empty.
  - cbn [rangeLoop]. apply Forall_cons in Hok as [Hk Hok]. cbn [fst snd] in Hk.
    cbn [fmap list_fmap fst] in Hnd. apply NoDup_cons in Hnd as [Hnotin Hnd].
    pose proof (ControlInfo_body_error c k v) as He. rewrite Hk in He.
    destruct (ControlInfo_populate_body c k v) as [c1 err] eqn:Eb.
    cbn [snd] in He. subst err.
    rewrite (IH c1 Hnd Hok). f_equal. cbn [list_to_map foldr].
    apply (ControlInfo_body_populated _ c k v c1); [| done].
    by apply not_elem_of_list_to_map_1.
Qed.

Lemma rangeOrder_list_to_map order (values : gmap string string) :
  rangeOrder order →
  NoDup (order values).*1 ∧ list_to_map (order values) = values
  ∧ ∀ k v, (k, v) ∈ order values ↔ values !! k = Some v.
Proof.
  intros Hord. specialize (Hord values).
  assert (NoDup (order values).*1) as Hnd.
  { rewrite Hord. apply NoDup_fst_map_to_list. }
  split; [done |]. split.
  - rewrite <- (list_to_map_to_list values) at 2.
    by apply list_to_map_proper.
  - intros k v. rewrite Hord. apply elem_of_map_to_list.
Qed.

Lemma ControlInfo_populate_success order values c :
  rangeOrder order →
  (∀ k v, values !! k = Some v → ControlInfo_entryError k v = None) →
  ControlInfo_populate order values c = (ControlInfo_populated values c, None).
Proof.
  intros Hord Hok.
  destruct (rangeOrder_list_to_map order values Hord) as (Hnd & Hmap & Hin).
  unfold ControlInfo_populate. rewrite rangeLoop_ControlInfo_ok; [by rewrite Hmap | done |].
  apply Forall_forall. intros [k v] Hkv. apply Hok. by apply Hin.
Qed.

(** X4. When no entry of the response fails to decode, and its [ret], if
    any, is [OK], [ControlInfo.populate] returns nil and the result does
    not depend on the order in which the map is ranged over: each field is
    the decoding of the value of its key, a field whose key is absent is
    left as it was, and the other keys are ignored. *)
Theorem ControlInfo_populate_ok order values c :
  rangeOrder order →
  (∀ k v, values !! k = Some v → ControlInfo_entryError k v = None) →
  ControlInfo_populate order values c = (ControlInfo_populated values c, None).
Proof. apply ControlInfo_populate_success. Qed.

(** X5. When some entry of the response fails to decode, or its [ret] is
    not [OK], [ControlInfo.populate] returns an error in every order of the
    range, and the error is that of one of the failing entries. *)
Theorem ControlInfo_populate_fails order values c k v :
  rangeOrder order →
  values !! k = Some v → ControlInfo_entryError k v ≠ None →
  ∃ k' v' e, values !! k' = Some v' ∧ ControlInfo_entryError k' v' = Some e
             ∧ (ControlInfo_populate order values c).2 = Some e.
Proof.
  intros Hord Hk Hfail.
  destruct (rangeOrder_list_to_map order values Hord) as (_ & _ & Hin).
  destruct (rangeLoop_fails ControlInfo_populate_body ControlInfo_entryError
              (λ s k v, ControlInfo_body_error s k v) (order values) c)
    as ([k' v'] & e & Hkv & He & Hres).
  - apply Exists_exists. exists (k, v). split; [by apply Hin | done].
  - exists k', v', e. split; [by apply Hin | done].
Qed.

Lemma rangeOrder_map_to_list : rangeOrder map_to_list.
Proof. intros m. reflexivity. Qed.

Lemma ControlInfo_populate_ok_witness :
  ControlInfo_populate map_to_list
    (<["pow" := "1"]> (<["mode" := "4"]> (<["f_rate" := "A"]> (<["f_dir" := "3"]>
       (<["stemp" := "22.5"]> (<["shum" := "45"]> (<["ret" := "OK"]>
          (<["adv" := ""]> ∅))))))))
    ControlInfo_zero
  = ({| Power := PowerOn; Mode := ModeHeat; Fan := FanAuto; FanDir := FanDirBoth;
        Temperature := f22_5; Humidity := 45 |}, None).
Proof.
  rewrite ControlInfo_populate_ok.
  - vm_compute; reflexivity.
  - exact rangeOrder_map_to_list.
  - apply map_Forall_lookup.
    repeat (apply map_Forall_insert_2; [vm_compute; reflexivity |]).
    apply map_Forall_empty.
Defined.

Lemma ControlInfo_populate_fails_witness :
  ∃ k' v' e,
    (<["pow" := "1"]> (<["mode" := "9"]> (∅ : gmap string string))) !! k' = Some v'
    ∧ ControlInfo_entryError k' v' = Some e
    ∧ (ControlInfo_populate map_to_list
         (<["pow" := "1"]> (<["mode" := "9"]> ∅)) ControlInfo_zero).2 = Some e.
Proof.
  apply (ControlInfo_populate_fails map_to_list _ ControlInfo_zero "mode" "9").
  - exact rangeOrder_map_to_list.
  - vm_compute; reflexivity.
  - vm_compute. discriminate.
Defined.

(** *** SensorInfo *)

Lemma SensorInfo_body_error s k v :
  (SensorInfo_populate_body s k v).2 = SensorInfo_entryError k v.
Proof.
  unfold SensorInfo_entryError, SensorInfo_populate_body.
  repeat (destruct (String.eqb k _); [
    first [ by unfold Temperature_decode; destruct (strconv.ParseFloat v)
          | by unfold Humidity_decode; destruct (strconv.Atoi _)
          | done ] |]).
  done.
Qed.

Lemma SensorInfo_body_populated (M : gmap string string) s k v s1 :
  M !! k = None →
  SensorInfo_populate_body s k v = (s1, None) →
  SensorInfo_populated M s1 = SensorInfo_populated (<[k := v]> M) s.
Proof.
  intros HM Hb. unfold SensorInfo_populate_body in Hb.
  unfold SensorInfo_populated.
  repeat match type of Hb with
         | (if String.eqb k ?key then _ else _) = _ =>
             destruct (String.eqb_spec k key) as [-> | ?]
         end.
  all: try match type of Hb with
           | context [match ?dec with pair _ _ => _ end] =>
               destruct dec as [x err] eqn:Ed; injection Hb as <- ->
           end.
  all: try (injection Hb as <-).
  all: cbn [HomeTemperature OutsideTemperature SensorHumidity].
  all: rewrite ?lookup_insert_eq, ?HM; rewrite ?lookup_insert_ne by congruence.
  all: cbn [fieldOf]; rewrite ?Ed; try reflexivity.
Qed.

Lemma rangeLoop_SensorInfo_ok kvs :
  ∀ s, NoDup kvs.*1 →
       Forall (λ kv, SensorInfo_entryError kv.1 kv.2 = None) kvs →
       rangeLoop SensorInfo_populate_body kvs s
       = (SensorInfo_populated (list_to_map kvs) s, None).
Proof.
  induction kvs as [| [k v] kvs IH]; intros s Hnd Hok.
  - cbn. by destruct s.
  - cbn [rangeLoop]. apply Forall_cons in Hok as [Hk Hok]. cbn [fst snd] in Hk.
    cbn [fmap list_fmap fst] in Hnd. apply NoDup_cons in Hnd as [Hnotin Hnd].
    pose proof (SensorInfo_body_error s k v) as He. rewrite Hk in He.
    destruct (SensorInfo_populate_body s k v) as [s1 err] eqn:Eb.
    cbn [snd] in He. subst err.
    rewrite (IH s1 Hnd Hok). f_equal. cbn [list_to_map foldr].
    apply (SensorInfo_body_populated _ s k v s1); [| done].
    by apply not_elem_of_list_to_map_1.
Qed.

(** X6. [SensorInfo.populate], in every order of the range: when no entry
    of the response fails, it returns nil and each of the three readings is
    the decoding of [htemp], [otemp] or [hhum], or is left as it was when
    the key is absent; when some entry fails, it returns the error of one of
    the failing entries. *)
Theorem SensorInfo_populate_result order values s :
  rangeOrder order →
  ((∀ k v, values !! k = Some v → SensorInfo_entryError k v = None) →
   SensorInfo_populate order values s = (SensorInfo_populated values s, None))
  ∧ (∀ k v, values !! k = Some v → SensorInfo_entryError k v ≠ None →
       ∃ k' v' e, values !! k' = Some v' ∧ SensorInfo_entryError k' v' = Some e
                  ∧ (SensorInfo_populate order values s).2 = Some e).
Proof.
  intros Hord.
  destruct (rangeOrder_list_to_map order values Hord) as (Hnd & Hmap & Hin).
  split.
  - intros Hok. unfold SensorInfo_populate.
    rewrite rangeLoop_SensorInfo_ok; [by rewrite Hmap | done |].
    apply Forall_forall. intros [k v] Hkv. apply Hok. by apply Hin.
  - intros k v Hk Hfail.
    destruct (rangeLoop_fails SensorInfo_populate_body SensorInfo_entryError
                (λ s k v, SensorInfo_body_error s k v) (order values) s)
      as ([k' v'] & e & Hkv & He & Hres).
    + apply Exists_exists. exists (k, v). split; [by apply Hin | done].
    + exists k', v', e. split; [by apply Hin | done].
Qed.

Lemma SensorInfo_populate_result_witness :
  SensorInfo_populate map_to_list
    (<["ret" := "OK"]> (<["htemp" := "22.5"]> (<["hhum" := "-"]>
       (<["otemp" := "-0.5"]> (<["err" := "0"]> ∅)))))
    SensorInfo_zero
  = ({| HomeTemperature := f22_5;
        OutsideTemperature := S754_finite true 4503599627370496 (-53);
        SensorHumidity := -1 |}, None).
Proof.
  rewrite (proj1 (SensorInfo_populate_result map_to_list _ SensorInfo_zero
                    rangeOrder_map_to_list)).
  - vm_compute; reflexivity.
  - apply map_Forall_lookup.
    repeat (apply map_Forall_insert_2; [vm_compute; reflexivity |]).
    apply map_Forall_empty.
Defined.

(** *** What populate can store *)

Lemma Power_decode_stores v p x e :
  Power_decode v p = (x, e) → x = p ∨ x ∈ Power_consts.
Proof.
  unfold Power_decode.
  repeat (destruct (String.eqb v _);
          [intros H; injection H as <- _; right; by_decide |]).
  intros H; injection H as <- _. by left.
Qed.

Lemma Mode_decode_stores v p x e :
  Mode_decode v p = (x, e) → x = p ∨ x ∈ Mode_consts.
Proof.
  unfold Mode_decode.
  repeat (destruct (String.eqb v _);
          [intros H; injection H as <- _; right; by_decide |]).
  intros H; injection H as <- _. by left.
Qed.

Lemma Fan_decode_stores v p x e :
  Fan_decode v p = (x, e) → x = p ∨ x ∈ Fan_consts.
Proof.
  unfold Fan_decode.
  repeat (destruct (String.eqb v _);
          [intros H; injection H as <- _; right; by_decide |]).
  intros H; injection H as <- _. by left.
Qed.

Lemma FanDir_decode_stores v p x e :
  FanDir_decode v p = (x, e) → x = p ∨ x ∈ FanDir_consts.
Proof.
  unfold FanDir_decode. destruct (strconv.Atoi v) as [z | err].
  - destruct (fanDirMap !! z) eqn:E; intros H; injection H as <- _; [| by left].
    right. apply fanDirMap_lookup. by eexists.
  - intros H; injection H as <- _. by left.
Qed.

Lemma Humidity_decode_stores v p x e :
  Humidity_decode v p = (x, e) → x = p ∨ - 2 ^ 31 <= x < 2 ^ 31.
Proof.
  unfold Humidity_decode. destruct (strconv.Atoi _) as [z | err];
    intros H; injection H as <- _; [| by left].
  right. unfold int32.
  pose proof (Z.mod_pos_bound (z + 2 ^ 31) (2 ^ 32) ltac:(lia)). lia.
Qed.

Lemma storedFrom_refl c : storedFrom c c.
Proof. repeat split; by left. Qed.

Lemma storedFrom_trans c1 c2 c3 :
  storedFrom c1 c2 → storedFrom c2 c3 → storedFrom c1 c3.
Proof.
  intros (P1 & M1 & F1 & D1 & H1) (P2 & M2 & F2 & D2 & H2).
  repeat split.
  - destruct P2 as [-> | ?]; [done | by right].
  - destruct M2 as [-> | ?]; [done | by right].
  - destruct F2 as [-> | ?]; [done | by right].
  - destruct D2 as [-> | ?]; [done | by right].
  - destruct H2 as [-> | ?]; [done | by right].
Qed.

Lemma ControlInfo_body_storedFrom c k v c1 e :
  ControlInfo_populate_body c k v = (c1, e) → storedFrom c c1.
Proof.
  unfold ControlInfo_populate_body. intros Hb.
  repeat match type of Hb with
         | (if String.eqb k ?key then _ else _) = _ =>
             destruct (String.eqb k key)
         end.
  all: try match type of Hb with
           | context [match ?dec with pair _ _ => _ end] =>
               destruct dec as [x err] eqn:Ed; injection Hb as <- _
           end.
  all: try (injection Hb as <- _; apply storedFrom_refl).
  all: unfold storedFrom; cbn [Power Mode Fan FanDir Temperature Humidity].
  all: repeat split; try (by left).
  - by eapply Power_decode_stores.
  - by eapply Mode_decode_stores.
  - by eapply Humidity_decode_stores.
  - by eapply Fan_decode_stores.
  - by eapply FanDir_decode_stores.
Qed.

Lemma rangeLoop_storedFrom kvs :
  ∀ c, storedFrom c (rangeLoop ControlInfo_populate_body kvs c).1.
Proof.
  induction kvs as [| [k v] kvs IH]; intros c.
  - apply storedFrom_refl.
  - cbn [rangeLoop].
    destruct (ControlInfo_populate_body c k v) as [c1 [e |]] eqn:Eb.
    + by eapply ControlInfo_body_storedFrom.
    + eapply storedFrom_trans; [by eapply ControlInfo_body_storedFrom | apply IH].
Qed.

(** X7. Whatever the response and the order of the range, and whether it
    returns an error or not, [ControlInfo.populate] leaves in each
    enumerated field the value it held or a constant of the type, never
    another number or string, and in the humidity the value it held or one
    that fits an [int32]. *)
Theorem ControlInfo_populate_stores order values c :
  storedFrom c (ControlInfo_populate order values c).1.
Proof. apply rangeLoop_storedFrom. Qed.

(** *** What urlValues writes, read back *)

Ltac by_cases_of H :=
  repeat (apply elem_of_cons in H as [-> | H]; [vm_compute; reflexivity |]);
  by apply elem_of_nil in H.

Lemma Power_decode_Itoa p p0 :
  p ∈ Power_consts → Power_decode (strconv.Itoa p) p0 = (p, None).
Proof. intros H. unfold Power_consts in H. by_cases_of H. Qed.

Lemma Mode_decode_Itoa m m0 :
  m ∈ Mode_consts → Mode_decode (strconv.Itoa m) m0 = (m, None).
Proof. intros H. unfold Mode_consts in H. by_cases_of H. Qed.

Lemma Fan_decode_self f f0 : f ∈ Fan_consts → Fan_decode f f0 = (f, None).
Proof. intros H. unfold Fan_consts in H. by_cases_of H. Qed.

Lemma FanDir_decode_Itoa f f0 :
  f ∈ FanDir_consts → FanDir_decode (strconv.Itoa f) f0 = (f, None).
Proof. intros H. unfold FanDir_consts in H. by_cases_of H. Qed.

Lemma Humidity_decode_Itoa z h :
  - 2 ^ 31 <= z < 2 ^ 31 → Humidity_decode (strconv.Itoa z) h = (z, None).
Proof.
  intros Hz. unfold Humidity_decode.
  assert (strconv.Atoi (strconv.Itoa z) = inl z) as E.
  { apply Atoi_Itoa. change strconv.minInt with (- 2 ^ 63).
    change strconv.maxInt with (2 ^ 63 - 1). lia. }
  destruct (String.eqb_spec (strconv.Itoa z) "-") as [Heq | _].
  - rewrite Heq in E. vm_compute in E. discriminate E.
  - rewrite E. by rewrite int32_small.
Qed.

Lemma firstValues_urlValues c :
  firstValues (ControlInfo_urlValues c)
  = <["shum" := strconv.Itoa (Humidity c)]>
      (<["stemp" := strconv.FormatFloat_f1 (Temperature c)]>
         (<["f_dir" := strconv.Itoa (FanDir c)]>
            (<["f_rate" := Fan c]>
               (<["mode" := strconv.Itoa (Mode c)]>
                  (<["pow" := strconv.Itoa (Power c)]> ∅))))).
Proof.
  unfold firstValues, ControlInfo_urlValues, Humidity_setUrlValues,
    Temperature_setUrlValues, FanDir_setUrlValues, Fan_setUrlValues,
    Mode_setUrlValues, Power_setUrlValues, url.Set_.
  rewrite !fmap_insert, fmap_empty. reflexivity.
Qed.

Lemma populate_of_urlValues order c c0 :
  rangeOrder order →
  ControlInfo_valid c →
  strconv.ParseFloat (Temperature_String (Temperature c)) = inl (Temperature c) →
  ControlInfo_populate order (firstValues (ControlInfo_urlValues c)) c0 = (c, None).
Proof.
  intros Hord (HP & HM & HF & HD & HH) HT.
  assert (∀ t0, Temperature_decode (strconv.FormatFloat_f1 (Temperature c)) t0
                = (Temperature c, None)) as HTd.
  { intros t0. unfold Temperature_decode. unfold Temperature_String in HT.
    by rewrite HT. }
  rewrite ControlInfo_populate_success; [| done |].
  - f_equal. rewrite firstValues_urlValues. unfold ControlInfo_populated.
    repeat first [rewrite lookup_insert_eq | rewrite lookup_insert_ne by done].
    cbn [fieldOf].
    rewrite Power_decode_Itoa, Mode_decode_Itoa, Fan_decode_self,
      FanDir_decode_Itoa, Humidity_decode_Itoa, HTd by done.
    by destruct c.
  - rewrite firstValues_urlValues. apply map_Forall_lookup.
    unfold ControlInfo_entryError.
    repeat apply map_Forall_insert_2; [| | | | | | apply map_Forall_empty].
    + cbn. by rewrite Humidity_decode_Itoa.
    + cbn. by rewrite HTd.
    + cbn. by rewrite FanDir_decode_Itoa.
    + cbn. by rewrite Fan_decode_self.
    + cbn. by rewrite Mode_decode_Itoa.
    + cbn. by rewrite Power_decode_Itoa.
Qed.

(** X8. For a [ControlInfo] whose enumerated fields hold constants of their
    types, whose humidity fits its [int32] and whose temperature is read
    back by [ParseFloat] from its one-digit text, [populate] on the
    parameters that [urlValues] writes gives that [ControlInfo] back,
    whatever the fields held before and whatever the order of the range. *)
Theorem urlValues_populate order c c0 :
  rangeOrder order →
  ControlInfo_valid c →
  strconv.ParseFloat (Temperature_String (Temperature c)) = inl (Temperature c) →
  ControlInfo_populate order (firstValues (ControlInfo_urlValues c)) c0 = (c, None).
Proof. apply populate_of_urlValues. Qed.

Lemma urlValues_populate_witness :
  let c := {| Power := PowerOn; Mode := ModeCool; Fan := Fan3; FanDir := FanDirVertical;
              Temperature := f22_5; Humidity := -1 |} in
  ControlInfo_populate map_to_list (firstValues (ControlInfo_urlValues c))
    ControlInfo_zero = (c, None).
Proof.
  cbn zeta. apply urlValues_populate.
  - exact rangeOrder_map_to_list.
  - repeat split; first [by_decide | lia].
  - vm_compute; reflexivity.
Defined.

(** ** Framing a record and reading it back *)

Lemma noneOf_weaken cs c s :
  noneOf cs s = true → existsb (eqb_ascii c) cs = true → noneOf [c] s = true.
Proof.
  intros Hs Hc. induction s as [| x s IH]; [done |].
  cbn [noneOf] in *. apply andb_prop in Hs as [Hx Hs]. rewrite (IH Hs), andb_true_r.
  cbn [existsb]. rewrite orb_false_r.
  destruct (eqb_ascii x c) eqn:E; [| done].
  apply eqb_ascii_true in E as ->. by rewrite Hc in Hx.
Qed.

Lemma noneOf_IndexByte c s : noneOf [c] s = true → csv.IndexByte s c = None.
Proof.
  induction s as [| x s IH]; [done |]. cbn [noneOf csv.IndexByte existsb].
  rewrite orb_false_r. intros [Hx Hs]%andb_prop.
  destruct (eqb_ascii x c); [done |]. by rewrite (IH Hs).
Qed.

Lemma noneOf_get c s i : noneOf [c] s = true → csv.byteIs (String.get i s) c = false.
Proof.
  revert i. induction s as [| x s IH]; intros i; [done |].
  cbn [noneOf existsb]. rewrite orb_false_r. intros [Hx Hs]%andb_prop.
  destruct i as [| i]; cbn [String.get csv.byteIs].
  - by destruct (eqb_ascii x c).
  - by apply IH.
Qed.

Lemma noneOf_lastByte c s : noneOf [c] s = true → csv.byteIs (csv.lastByte s) c = false.
Proof.
  induction s as [| x s IH]; [done |].
  cbn [noneOf existsb]. rewrite orb_false_r. intros [Hx Hs]%andb_prop.
  cbn [csv.lastByte]. destruct s as [| y s]; [| by apply IH].
  cbn [csv.byteIs]. by destruct (eqb_ascii x c).
Qed.

Lemma noneOf_append cs s t :
  noneOf cs (s +:+ t) = noneOf cs s && noneOf cs t.
Proof.
  induction s as [| x s IH]; [done |]. rewrite append_cons. cbn [noneOf].
  by rewrite IH, andb_assoc.
Qed.

Lemma IndexByte_append c (f r : string) :
  noneOf [c] f = true → csv.IndexByte (f +:+ String c r) c = Some (String.length f).
Proof.
  induction f as [| x f IH].
  - intros _. rewrite append_empty_l. cbn [csv.IndexByte].
    unfold eqb_ascii. by rewrite Ascii.eqb_refl.
  - cbn [noneOf existsb]. rewrite orb_false_r. intros [Hx Hf]%andb_prop.
    rewrite append_cons. cbn [csv.IndexByte String.length].
    destruct (eqb_ascii x c); [done |]. by rewrite (IH Hf).
Qed.

Lemma take_app_length (k v : string) : strings.take (String.length k) (k +:+ v) = k.
Proof.
  induction k as [| x k IH]; [by destruct v |].
  rewrite append_cons. cbn. by rewrite IH.
Qed.

Lemma take_length (s : string) : strings.take (String.length s) s = s.
Proof. induction s as [| x s IH]; [done |]. cbn. by rewrite IH. Qed.

Lemma plainField_parts f :
  plainField f = true →
  noneOf [csv.comma] f = true ∧ noneOf [csv.quote] f = true
  ∧ noneOf [csv.CR] f = true ∧ noneOf [csv.LF] f = true.
Proof.
  intros H. repeat split; by eapply noneOf_weaken.
Qed.

Lemma readLine_plain line :
  line ≠ "" → noneOf [csv.CR] line = true → noneOf [csv.LF] line = true →
  csv.readLine line = (line, false, "").
Proof.
  intros Hne Hcr Hlf. rewrite readLine_cases, (noneOf_IndexByte _ _ Hlf).
  destruct line as [| x line]; [done |]. cbn [String.length Nat.ltb Nat.leb].
  unfold dropCR. rewrite (noneOf_lastByte _ _ Hcr).
  unfold normalizeNL. by rewrite (noneOf_get _ _ _ Hlf), andb_false_r.
Qed.

Lemma hasQuote_plain f : noneOf [csv.quote] f = true → csv.hasQuote f = false.
Proof. intros H. unfold csv.hasQuote. by rewrite (noneOf_IndexByte _ _ H). Qed.

Lemma lengthNL_plain f : noneOf [csv.LF] f = true → csv.lengthNL f = 0%nat.
Proof. intros H. unfold csv.lengthNL. by rewrite (noneOf_lastByte _ _ H). Qed.

Lemma parseField_plain fields :
  ∀ fuel acc,
    fields ≠ [] → Forall (λ f, plainField f = true) fields →
    (String.length (joinFields fields) < fuel)%nat →
    csv.parseField fuel (joinFields fields) "" acc = csv.PRecord (acc ++ fields) "".
Proof.
  induction fields as [| f fields IH]; intros fuel acc Hne Hplain Hfuel; [done |].
  apply Forall_cons in Hplain as [Hf Hplain].
  destruct (plainField_parts f Hf) as (Hcomma & Hquote & Hcr & Hlf).
  destruct fuel as [| fuel]; [lia |].
  destruct fields as [| g fields].
  - cbn [joinFields csv.parseField].
    rewrite (noneOf_get _ _ 0 Hquote), orb_true_r.
    rewrite (noneOf_IndexByte _ _ Hcomma), (lengthNL_plain _ Hlf), Nat.sub_0_r.
    by rewrite take_length, (hasQuote_plain _ Hquote).
  - change (joinFields (f :: g :: fields))
      with (f +:+ String csv.comma (joinFields (g :: fields))) in *.
    cbn [csv.parseField].
    assert (csv.byteIs (String.get 0 (f +:+ String csv.comma (joinFields (g :: fields))))
              csv.quote = false) as ->.
    { destruct f as [| x f]; [done |]. rewrite append_cons. cbn [String.get].
      apply (noneOf_get _ _ 0 Hquote). }
    rewrite orb_true_r, (IndexByte_append _ _ _ Hcomma).
    rewrite take_app_length, (hasQuote_plain _ Hquote).
    replace (String.length f + 1)%nat with (String.length (f +:+ String csv.comma ""))
      by (rewrite length_snoc; lia).
    rewrite (append_snoc f csv.comma (joinFields (g :: fields))), drop_app_length.
    rewrite (IH fuel (acc ++ [f])); [by rewrite <- app_assoc | done | done |].
    rewrite length_append in Hfuel. cbn [String.length] in Hfuel. lia.
Qed.

Lemma joinFields_noneOf c fields :
  c ≠ csv.comma →
  Forall (λ f, noneOf [c] f = true) fields → noneOf [c] (joinFields fields) = true.
Proof.
  intros Hc. induction 1 as [| f fields Hf _ IH]; [done |].
  destruct fields as [| g fields]; [done |].
  change (joinFields (f :: g :: fields))
    with (f +:+ String csv.comma (joinFields (g :: fields))).
  rewrite noneOf_append, Hf. cbn [noneOf existsb andb]. rewrite IH, andb_true_r.
  rewrite orb_false_r. destruct (eqb_ascii csv.comma c) eqn:E; [| done].
  apply eqb_ascii_true in E. congruence.
Qed.

(** The csv reader on one line of plain fields: one record, the fields. *)
Lemma ReadAll_plain fields :
  joinFields fields ≠ "" → Forall (λ f, plainField f = true) fields →
  csv.ReadAll (joinFields fields) = Some (inl [fields]).
Proof.
  intros Hne Hplain.
  assert (fields ≠ []) as Hnil by (by intros ->).
  assert (noneOf [csv.CR] (joinFields fields) = true) as Hcr.
  { apply joinFields_noneOf; [done |]. eapply Forall_impl; [exact Hplain |].
    intros f Hf. by apply plainField_parts in Hf as (_ & _ & ? & _). }
  assert (noneOf [csv.LF] (joinFields fields) = true) as Hlf.
  { apply joinFields_noneOf; [done |]. eapply Forall_impl; [exact Hplain |].
    intros f Hf. by apply plainField_parts in Hf as (_ & _ & _ & ?). }
  set (line := joinFields fields) in *.
  assert (csv.readRecord (S (String.length line)) line = csv.RRecord fields "") as Hrec.
  { cbn [csv.readRecord]. rewrite (readLine_plain line Hne Hcr Hlf).
    rewrite (lengthNL_plain _ Hlf). cbn [negb andb].
    destruct (Nat.eqb_spec (String.length line) 0) as [H0 | _];
      [by destruct line |].
    subst line. rewrite parseField_plain; [done | done | done |].
    cbn [String.length]. lia. }
  unfold csv.ReadAll. cbn [csv.readAll]. rewrite Hrec. cbn [Nat.ltb Nat.leb].
  destruct (String.length line) eqn:El; [by destruct line |].
  reflexivity.
Qed.

Lemma plainField_token k v :
  plainField k = true → plainField v = true → plainField (token (k, v)) = true.
Proof.
  intros Hk Hv. unfold plainField, token in *. cbn [fst snd].
  rewrite noneOf_append, Hk. cbn [noneOf andb]. by rewrite Hv.
Qed.

Lemma joinFields_tokens_nonempty kvs :
  kvs ≠ [] → joinFields (token <$> kvs) ≠ "".
Proof.
  destruct kvs as [| [k v] kvs]; [done |]. intros _.
  cbn [fmap list_fmap]. unfold token at 1. cbn [fst snd].
  destruct (token <$> kvs); cbn [joinFields]; destruct k; done.
Qed.

Lemma parseResponse_frame (kvs : list (string * string)) :
  kvs ≠ [] →
  Forall (λ kv, plainField kv.1 = true ∧ plainField kv.2 = true
                ∧ strings.Index kv.1 "=" = None) kvs →
  parseResponse (inl (joinFields (token <$> kvs))) = Some (Ret (valuesOf kvs)).
Proof.
  intros Hne Hkvs. unfold parseResponse.
  rewrite ReadAll_plain.
  - cbn. f_equal. apply parseResponse_fields_tokens.
    eapply Forall_impl; [exact Hkvs |]. by intros kv (_ & _ & ?).
  - by apply joinFields_tokens_nonempty.
  - apply Forall_fmap. eapply Forall_impl; [exact Hkvs |].
    intros [k v] (Hk & Hv & _). by apply plainField_token.
Qed.

(** X9. A response body made of one or more [key=value] tokens joined by
    commas, whose keys and values hold no comma, quote, carriage return or
    line feed and whose keys hold no ['='], parses to the mapping of each
    key to its value (the last one, for a key given twice). *)
Theorem parseResponse_of_frame (kvs : list (string * string)) :
  kvs ≠ [] →
  Forall (λ kv, plainField kv.1 = true ∧ plainField kv.2 = true
                ∧ strings.Index kv.1 "=" = None) kvs →
  parseResponse (inl (joinFields (token <$> kvs))) = Some (Ret (valuesOf kvs)).
Proof. apply parseResponse_frame. Qed.

Lemma parseResponse_of_frame_witness :
  parseResponse (inl "ret=OK,pow=1,name=%4c%69v,adv=")
  = Some (Ret (valuesOf [("ret", "OK"); ("pow", "1"); ("name", "%4c%69v"); ("adv", "")])).
Proof.
  apply (parseResponse_of_frame
           [("ret", "OK"); ("pow", "1"); ("name", "%4c%69v"); ("adv", "")]).
  - discriminate.
  - repeat constructor.
Defined.

Lemma foldl_insert_lookup_notin (kvs : list (string * string)) :
  ∀ (m : gmap string string) k,
    k ∉ kvs.*1 → foldl (λ m kv, <[kv.1 := kv.2]> m) m kvs !! k = m !! k.
Proof.
  induction kvs as [| [k' v'] kvs IH]; intros m k Hk; [done |].
  cbn [foldl fst snd]. cbn [fmap list_fmap fst] in Hk.
  apply not_elem_of_cons in Hk as [Hne Hk].
  rewrite IH by done. by rewrite lookup_insert_ne.
Qed.

Lemma foldl_insert_dom (kvs : list (string * string)) :
  ∀ (m : gmap string string),
    dom (foldl (λ m kv, <[kv.1 := kv.2]> m) m kvs) = dom m ∪ list_to_set kvs.*1.
Proof.
  induction kvs as [| [k v] kvs IH]; intros m.
  - cbn. set_solver.
  - cbn [foldl fst snd fmap list_fmap list_to_set]. rewrite IH, dom_insert_L.
    set_solver.
Qed.

(** X10. On a record of [key=value] tokens, the mapping that
    [parseResponse] builds has exactly the keys of the tokens, and a key
    given several times is mapped to the value of its last token. *)
Theorem parseResponse_fields_last (kvs1 kvs2 : list (string * string)) k v :
  Forall (λ kv, strings.Index kv.1 "=" = None) (kvs1 ++ (k, v) :: kvs2) →
  k ∉ kvs2.*1 →
  ∃ m, parseResponse_fields (token <$> (kvs1 ++ (k, v) :: kvs2)) ∅ = Ret m
       ∧ m !! k = Some v
       ∧ dom m = list_to_set (kvs1 ++ (k, v) :: kvs2).*1.
Proof.
  intros Hkeys Hk. eexists. split; [by apply parseResponse_fields_tokens |].
  split.
  - rewrite foldl_app. cbn [foldl fst snd].
    rewrite foldl_insert_lookup_notin by done. apply lookup_insert_eq.
  - rewrite foldl_insert_dom, dom_empty_L. by rewrite (left_id_L ∅ (∪)).
Qed.

Lemma parseResponse_fields_last_witness :
  ∃ m, parseResponse_fields ["pow=0"; "mode=3"; "pow=1"; "ret=OK"] ∅ = Ret m
       ∧ m !! "pow" = Some "1"
       ∧ dom m = list_to_set ["pow"; "mode"; "pow"; "ret"].
Proof.
  apply (parseResponse_fields_last [("pow", "0"); ("mode", "3")] [("ret", "OK")] "pow" "1").
  - repeat constructor.
  - by_decide.
Defined.

Lemma parseResponse_fields_cases rec :
  ∀ values,
    (Exists (λ r, strings.Index r "=" = None) rec
     ∧ parseResponse_fields rec values = Panic "index out of range")
    ∨ (Forall (λ r, strings.Index r "=" ≠ None) rec
       ∧ ∃ m, parseResponse_fields rec values = Ret m).
Proof.
  induction rec as [| r rec IH]; intros values.
  - right. split; [constructor | by eexists].
  - cbn [parseResponse_fields]. rewrite SplitN_eq_cases.
    destruct (strings.Index r "=") as [i |] eqn:E.
    + cbn. destruct (IH (<[strings.take i r := strings.drop (i + 1) r]> values))
        as [[Hex Hp] | [Hall Hr]].
      * left. split; [by right | done].
      * right. split; [| done]. constructor; [congruence | done].
    + left. split; [by left | done].
Qed.

(** X11. On a body that the csv reader takes as one record,
    [parseResponse] panics exactly when some field of the record has no
    ['='], and returns a mapping exactly when every field has one; it
    returns no error on such a body. *)
Theorem parseResponse_one_record body rec :
  csv.ReadAll body = Some (inl [rec]) →
  (parseResponse (inl body) = Some (Panic "index out of range")
   ↔ Exists (λ r, strings.Index r "=" = None) rec)
  ∧ ((∃ m, parseResponse (inl body) = Some (Ret m))
     ↔ Forall (λ r, strings.Index r "=" ≠ None) rec).
Proof.
  intros E. unfold parseResponse. rewrite E. cbn.
  destruct (parseResponse_fields_cases rec ∅) as [[Hex Hp] | [Hall [m Hr]]].
  - rewrite Hp. split; split; try done.
    + intros [m Hm]. discriminate Hm.
    + intros Hall. apply Exists_exists in Hex as (r & Hin & Hr).
      rewrite Forall_forall in Hall. by destruct (Hall r Hin).
  - rewrite Hr. split; split; try done.
    + intros Hex. apply Exists_exists in Hex as (r & Hin & Hnone).
      rewrite Forall_forall in Hall. by destruct (Hall r Hin).
    + intros _. by eexists.
Qed.

Lemma parseResponse_one_record_witness :
  parseResponse (inl "ret=PARAM NG,") = Some (Panic "index out of range").
Proof.
  apply (proj1 (parseResponse_one_record "ret=PARAM NG," ["ret=PARAM NG"; ""]
                  ltac:(vm_compute; reflexivity))).
  right. left. reflexivity.
Defined.

(** ** The requests to a unit *)

(** X12. When the unit answers [get_control_info] with one line of
    [key=value] tokens (plain keys and values, no ['='] in a key) none of
    which fails to decode, [GetControlInfo] sends one GET to
    [http://<address>/aircon/get_control_info], returns nil, and stores a
    [ControlInfo] whose fields are decoded from the values of their keys,
    the fields whose key is absent being the zero values, whatever the
    order of the range; the rest of the device is left as it was. *)
Theorem GetControlInfo_of_frame order (kvs : list (string * string)) d :
  rangeOrder order →
  kvs ≠ [] →
  Forall (λ kv, plainField kv.1 = true ∧ plainField kv.2 = true
                ∧ strings.Index kv.1 "=" = None) kvs →
  (∀ k v, valuesOf kvs !! k = Some v → ControlInfo_entryError k v = None) →
  GetControlInfo order (Response (inl (joinFields (token <$> kvs)))) d
  = Some (set_ControlInfo
            (Some (ControlInfo_populated (valuesOf kvs) ControlInfo_zero)) d,
          Ret tt, [HttpGet ("http://" +:+ Address d +:+ "/aircon/get_control_info")]).
Proof.
  intros Hord Hne Hkvs Hok. unfold GetControlInfo.
  rewrite parseResponse_frame by done.
  by rewrite ControlInfo_populate_success.
Qed.

Lemma GetControlInfo_of_frame_witness :
  GetControlInfo map_to_list
    (Response (inl "ret=OK,pow=1,mode=4,adv=,stemp=22.5,shum=0,f_rate=A,f_dir=3"))
    (newDaikin "192.168.1.9")
  = Some ({| Address := "192.168.1.9"; Name := "";
             DaikinControlInfo :=
               Some {| Power := PowerOn; Mode := ModeHeat; Fan := FanAuto;
                       FanDir := FanDirBoth; Temperature := f22_5; Humidity := 0 |};
             DaikinSensorInfo := None |},
          Ret tt, [HttpGet "http://192.168.1.9/aircon/get_control_info"]).
Proof.
  rewrite (GetControlInfo_of_frame map_to_list
             [("ret", "OK"); ("pow", "1"); ("mode", "4"); ("adv", ""); ("stemp", "22.5");
              ("shum", "0"); ("f_rate", "A"); ("f_dir", "3")]).
  - vm_compute; reflexivity.
  - exact rangeOrder_map_to_list.
  - discriminate.
  - repeat constructor.
  - apply map_Forall_lookup. unfold valuesOf. cbn [foldl fst snd].
    repeat (apply map_Forall_insert_2; [vm_compute; reflexivity |]).
    apply map_Forall_empty.
Defined.

(** X13. Whatever the unit answers, [GetControlInfo] sends one GET and
    leaves the address, the name and the sensor readings of the device as
    they were.  On an error of the transport the device is unchanged.  Once
    a response has arrived, the [ControlInfo] of the device is a new one,
    also when the call fails or panics: its power, mode and fan direction
    are constants of their types, its fan is a constant or the empty
    string, its humidity fits an [int32]. *)
Theorem GetControlInfo_replaces order reply d d' o sent :
  GetControlInfo order reply d = Some (d', o, sent) →
  sent = [HttpGet (unitURL d uriGetControlInfo)]
  ∧ Address d' = Address d ∧ Name d' = Name d
  ∧ DaikinSensorInfo d' = DaikinSensorInfo d
  ∧ match reply with
    | TransportError _ => d' = d ∧ ∃ e, o = Fail e
    | Response _ =>
        ∃ c, DaikinControlInfo d' = Some c
             ∧ Power c ∈ Power_consts ∧ Mode c ∈ Mode_consts
             ∧ FanDir c ∈ FanDir_consts ∧ (Fan c = "" ∨ Fan c ∈ Fan_consts)
             ∧ - 2 ^ 31 <= Humidity c < 2 ^ 31
    end.
Proof.
  assert (∀ c, storedFrom ControlInfo_zero c →
               Power c ∈ Power_consts ∧ Mode c ∈ Mode_consts
               ∧ FanDir c ∈ FanDir_consts ∧ (Fan c = "" ∨ Fan c ∈ Fan_consts)
               ∧ - 2 ^ 31 <= Humidity c < 2 ^ 31) as Hzero.
  { intros c (HP & HM & HF & HD & HH). cbn in HP, HM, HF, HD, HH.
    split; [destruct HP as [-> | ?]; [by_decide | done] |].
    split; [destruct HM as [-> | ?]; [by_decide | done] |].
    split; [destruct HD as [-> | ?]; [by_decide | done] |].
    split; [done |]. destruct HH as [-> | ?]; lia. }
  unfold GetControlInfo. destruct reply as [err | body].
  - intros H; injection H as <- <- <-. repeat split; try done. by eexists.
  - destruct (parseResponse body) as [[vals | e | what] |]; [| | | done].
    + destruct (ControlInfo_populate order vals ControlInfo_zero) as [c err] eqn:Ep.
      intros H; injection H as <- <- <-. repeat split; try done.
      exists c. split; [done |]. apply Hzero.
      pose proof (rangeLoop_storedFrom (order vals) ControlInfo_zero) as Hs.
      unfold ControlInfo_populate in Ep. by rewrite Ep in Hs.
    + intros H; injection H as <- <- <-. repeat split; try done.
      exists ControlInfo_zero. split; [done |]. apply Hzero, storedFrom_refl.
    + intros H; injection H as <- <- <-. repeat split; try done.
      exists ControlInfo_zero. split; [done |]. apply Hzero, storedFrom_refl.
Qed.

Lemma GetControlInfo_replaces_witness :
  ∃ c, DaikinControlInfo
         (set_ControlInfo (Some ControlInfo_zero)
            (set_ControlInfo
               (Some {| Power := PowerOn; Mode := ModeHeat; Fan := FanAuto;
                        FanDir := FanDirBoth; Temperature := f22_5; Humidity := 40 |})
               (newDaikin "192.168.1.9"))) = Some c
       ∧ Power c ∈ Power_consts ∧ Mode c ∈ Mode_consts
       ∧ FanDir c ∈ FanDir_consts ∧ (Fan c = "" ∨ Fan c ∈ Fan_consts)
       ∧ - 2 ^ 31 <= Humidity c < 2 ^ 31.
Proof.
  refine (proj2 (proj2 (proj2 (proj2
    (GetControlInfo_replaces map_to_list (Response (inl "ret=PARAM NG"))
       (set_ControlInfo
          (Some {| Power := PowerOn; Mode := ModeHeat; Fan := FanAuto;
                   FanDir := FanDirBoth; Temperature := f22_5; Humidity := 40 |})
          (newDaikin "192.168.1.9"))
       _ (Fail (ErrDeviceRet "PARAM NG")) _ _))))).
  vm_compute; reflexivity.
Defined.

(** X14. [SetControlInfo] on a device that holds a [ControlInfo] sends one
    POST to [http://<address>/aircon/set_control_info] with the parameters
    of [urlValues], leaves the device as it was, and returns nil exactly
    when the response parses to a mapping whose [ret] is [OK]; on a device
    whose [ControlInfo] is nil it panics before sending anything. *)
Theorem SetControlInfo_result reply d :
  (∀ c, DaikinControlInfo d = Some c →
     ∃ o, SetControlInfo reply d
          = Some (d, o, [HttpPostForm ("http://" +:+ Address d +:+ "/aircon/set_control_info")
                           (ControlInfo_urlValues c)])
          ∧ (o = Ret tt
             ↔ ∃ body vals, reply = Response body
                            ∧ parseResponse body = Some (Ret vals)
                            ∧ vals !! "ret" = Some "OK"))
  ∧ (DaikinControlInfo d = None →
     SetControlInfo reply d = Some (d, Panic "nil pointer dereference", [])).
Proof.
  split.
  - intros c Hc. unfold SetControlInfo. rewrite Hc.
    destruct reply as [err | body].
    + eexists. split; [reflexivity |]. split; [done |].
      intros (b & vals & H & _). discriminate H.
    + destruct (parseResponse_returns body) as [o Ho]. rewrite Ho.
      destruct o as [vals | e | what].
      * destruct (vals !! "ret") as [v |] eqn:Ev; cbn [default from_option id].
        -- destruct (String.eqb_spec v "OK") as [-> | Hne]; cbn [negb].
           ++ eexists. split; [reflexivity |]. split; [| done].
              intros _. by exists body, vals.
           ++ eexists. split; [reflexivity |]. split; [done |].
              intros (b & vals' & Hb & Hp & Hret). injection Hb as <-.
              rewrite Ho in Hp. injection Hp as <-. congruence.
        -- eexists. split; [reflexivity |]. split; [done |].
           intros (b & vals' & Hb & Hp & Hret). injection Hb as <-.
           rewrite Ho in Hp. injection Hp as <-. congruence.
      * eexists. split; [reflexivity |]. split; [done |].
        intros (b & vals' & Hb & Hp & _). injection Hb as <-.
        rewrite Ho in Hp. discriminate Hp.
      * eexists. split; [reflexivity |]. split; [done |].
        intros (b & vals' & Hb & Hp & _). injection Hb as <-.
        rewrite Ho in Hp. discriminate Hp.
  - intros Hc. unfold SetControlInfo. by rewrite Hc.
Qed.

Lemma SetControlInfo_result_witness :
  SetControlInfo (Response (inl "ret=OK,adv=")) (newDaikin "192.168.1.9")
  = Some (newDaikin "192.168.1.9", Panic "nil pointer dereference", []).
Proof.
  apply (proj2 (SetControlInfo_result (Response (inl "ret=OK,adv="))
                  (newDaikin "192.168.1.9"))).
  reflexivity.
Defined.

(** X15. A response of plain [key=value] tokens that has no [ret] key and
    whose entries all decode is a success for [GetControlInfo] and a
    failure for [SetControlInfo], which reports the device error with an
    empty [ret]. *)
Theorem missing_ret_Get_Set order (kvs : list (string * string)) d c :
  rangeOrder order →
  kvs ≠ [] →
  Forall (λ kv, plainField kv.1 = true ∧ plainField kv.2 = true
                ∧ strings.Index kv.1 "=" = None) kvs →
  (∀ k v, valuesOf kvs !! k = Some v → ControlInfo_entryError k v = None) →
  "ret" ∉ kvs.*1 →
  DaikinControlInfo d = Some c →
  let reply := Response (inl (joinFields (token <$> kvs))) in
  (∃ d' sent, GetControlInfo order reply d = Some (d', Ret tt, sent))
  ∧ (∃ sent, SetControlInfo reply d = Some (d, Fail (ErrDeviceRet ""), sent)).
Proof.
  intros Hord Hne Hkvs Hok Hret Hc reply. subst reply. split.
  - unfold GetControlInfo. rewrite parseResponse_frame by done.
    rewrite ControlInfo_populate_success by done. by eexists _, _.
  - unfold SetControlInfo. rewrite Hc, parseResponse_frame by done.
    unfold valuesOf. rewrite foldl_insert_lookup_notin by done.
    rewrite lookup_empty. cbn. by eexists.
Qed.

Lemma missing_ret_Get_Set_witness :
  let d := set_ControlInfo (Some ControlInfo_zero) (newDaikin "192.168.1.9") in
  (∃ d' sent, GetControlInfo map_to_list (Response (inl "pow=1,mode=3")) d
              = Some (d', Ret tt, sent))
  ∧ (∃ sent, SetControlInfo (Response (inl "pow=1,mode=3")) d
             = Some (d, Fail (ErrDeviceRet ""), sent)).
Proof.
  cbn zeta.
  apply (missing_ret_Get_Set map_to_list [("pow", "1"); ("mode", "3")] _ ControlInfo_zero).
  - exact rangeOrder_map_to_list.
  - discriminate.
  - repeat constructor.
  - apply map_Forall_lookup. unfold valuesOf. cbn [foldl fst snd].
    repeat (apply map_Forall_insert_2; [vm_compute; reflexivity |]).
    apply map_Forall_empty.
  - by_decide.
  - reflexivity.
Defined.

(** X16. When the unit answers [get_sensor_info] with one line of plain
    [key=value] tokens none of which fails to decode, [GetSensorInfo] sends
    one GET to [http://<address>/aircon/get_sensor_info], returns nil and
    stores the readings decoded from [htemp], [otemp] and [hhum], a reading
    whose key is absent being zero; the rest of the device is left as it
    was. *)
Theorem GetSensorInfo_of_frame order (kvs : list (string * string)) d :
  rangeOrder order →
  kvs ≠ [] →
  Forall (λ kv, plainField kv.1 = true ∧ plainField kv.2 = true
                ∧ strings.Index kv.1 "=" = None) kvs →
  (∀ k v, valuesOf kvs !! k = Some v → SensorInfo_entryError k v = None) →
  GetSensorInfo order (Response (inl (joinFields (token <$> kvs)))) d
  = Some (set_SensorInfo
            (Some (SensorInfo_populated (valuesOf kvs) SensorInfo_zero)) d,
          Ret tt, [HttpGet ("http://" +:+ Address d +:+ "/aircon/get_sensor_info")]).
Proof.
  intros Hord Hne Hkvs Hok. unfold GetSensorInfo.
  rewrite parseResponse_frame by done.
  destruct (rangeOrder_list_to_map order (valuesOf kvs) Hord) as (Hnd & Hmap & Hin).
  unfold SensorInfo_populate. rewrite rangeLoop_SensorInfo_ok; [by rewrite Hmap | done |].
  apply Forall_forall. intros [k v] Hkv. apply Hok. by apply Hin.
Qed.

Lemma GetSensorInfo_of_frame_witness :
  GetSensorInfo map_to_list
    (Response (inl "ret=OK,htemp=22.5,hhum=-,otemp=-0.5,err=0,cmpfreq=0"))
    (newDaikin "192.168.1.9")
  = Some ({| Address := "192.168.1.9"; Name := ""; DaikinControlInfo := None;
             DaikinSensorInfo :=
               Some {| HomeTemperature := f22_5;
                       OutsideTemperature := S754_finite true 4503599627370496 (-53);
                       SensorHumidity := -1 |} |},
          Ret tt, [HttpGet "http://192.168.1.9/aircon/get_sensor_info"]).
Proof.
  rewrite (GetSensorInfo_of_frame map_to_list
             [("ret", "OK"); ("htemp", "22.5"); ("hhum", "-"); ("otemp", "-0.5");
              ("err", "0"); ("cmpfreq", "0")]).
  - vm_compute; reflexivity.
  - exact rangeOrder_map_to_list.
  - discriminate.
  - repeat constructor.
  - apply map_Forall_lookup. unfold valuesOf. cbn [foldl fst snd].
    repeat (apply map_Forall_insert_2; [vm_compute; reflexivity |]).
    apply map_Forall_empty.
Defined.

(** ** More on discovery *)

Lemma lor_byte a b : 0 <= a < 256 → 0 <= b < 256 → 0 <= Z.lor a b < 256.
Proof.
  intros Ha Hb. split; [apply Z.lor_nonneg; lia |].
  destruct (Z.eq_dec (Z.lor a b) 0) as [-> | Hne]; [lia |].
  assert (0 < Z.lor a b) as Hpos.
  { assert (0 <= Z.lor a b) by (apply Z.lor_nonneg; lia). lia. }
  change 256 with (2 ^ 8). apply Z.log2_lt_pow2; [done |].
  rewrite Z.log2_lor by lia.
  assert (Z.log2 a < 8) as Hla.
  { destruct (Z.eq_dec a 0) as [-> | ?]; [done |].
    apply Z.log2_lt_pow2; [lia |]. change (2 ^ 8) with 256. lia. }
  assert (Z.log2 b < 8) as Hlb.
  { destruct (Z.eq_dec b 0) as [-> | ?]; [done |].
    apply Z.log2_lt_pow2; [lia |]. change (2 ^ 8) with 256. lia. }
  lia.
Qed.

Lemma bCastOctet_range x m : 0 <= bCastOctet x m < 256.
Proof.
  unfold bCastOctet. apply lor_byte; apply Z.mod_pos_bound; lia.
Qed.

Lemma bCastOf_isIPv4 network b : bCastOf network = Some b → isIPv4 b.
Proof.
  rewrite bCastOf_cases.
  destruct (net.IP network) as [| x0 [| x1 [| x2 [| x3 ip]]]]; try done.
  destruct (net.Mask network) as [| m0 [| m1 [| m2 [| m3 mask]]]]; try done.
  intros H; injection H as <-. split; [done |].
  repeat constructor; apply bCastOctet_range.
Qed.

Lemma addrLoop_isIPv4 lib adr :
  ∀ bs bs', Forall isIPv4 bs → addrLoop lib adr bs = Ret bs' → Forall isIPv4 bs'.
Proof.
  induction adr as [| a adr IH]; intros bs bs' Hbs H; cbn [addrLoop] in H.
  - by injection H as <-.
  - destruct (net.ParseCIDR lib a) as [[ip network] |]; [| by eapply IH].
    destruct (net.To4 ip); [| by eapply IH].
    destruct (bCastOf network) as [b |] eqn:Eb; [| done].
    eapply IH; [| exact H]. apply Forall_app. split; [done |].
    constructor; [by eapply bCastOf_isIPv4 | constructor].
Qed.

Lemma ifaceLoop_isIPv4 lib d ifs :
  ∀ bs bs', Forall isIPv4 bs → ifaceLoop lib d ifs bs = Ret bs' → Forall isIPv4 bs'.
Proof.
  induction ifs as [| i ifs IH]; intros bs bs' Hbs H; cbn [ifaceLoop] in H.
  - by injection H as <-.
  - destruct (skipInterface d i); [by eapply IH |].
    destruct (net.Addrs i) as [adr | err]; [| by eapply IH].
    destruct (addrLoop lib adr bs) as [bs1 | e | what] eqn:Ea; try done.
    eapply IH; [| exact H]. by eapply addrLoop_isIPv4.
Qed.

Lemma getBroadcastAddresses_cases lib ifs d d' r :
  getBroadcastAddresses lib ifs d = (d', r) →
  (broadcasts d' = [] ∧ r ≠ Ret tt)
  ∨ (∃ ifl, ifs = inl ifl ∧ ifaceLoop lib (set_broadcasts [] d) ifl [] = Ret (broadcasts d')
            ∧ r = Ret tt
            ∧ (Interface d = "" ∨ broadcasts d' ≠ [])).
Proof.
  unfold getBroadcastAddresses. destruct ifs as [ifl | err].
  - destruct (ifaceLoop lib _ ifl []) as [bs | e | what] eqn:El.
    + cbn [broadcasts set_broadcasts Interface].
      destruct bs as [| b bs]; cbn [length Nat.eqb andb].
      * destruct (String.eqb_spec (Interface d) "") as [Hi | Hi]; cbn [negb];
          intros H; injection H as <- <-.
        -- right. exists ifl. repeat split; try done. by left.
        -- by left.
      * intros H; injection H as <- <-. right. exists ifl. repeat split; try done.
        by right.
    + intros H; injection H as <- <-. by left.
    + intros H; injection H as <- <-. by left.
  - intros H; injection H as <- <-. by left.
Qed.

(** X17. Every broadcast address that [getBroadcastAddresses] leaves in
    the network is an IPv4 address: four octets, each from 0 to 255,
    whatever the addresses of the interfaces parse to. *)
Theorem broadcasts_are_IPv4 lib ifs d d' r :
  getBroadcastAddresses lib ifs d = (d', r) → Forall isIPv4 (broadcasts d').
Proof.
  intros H. apply getBroadcastAddresses_cases in H as [[-> _] | (ifl & _ & Hl & _)].
  - constructor.
  - eapply ifaceLoop_isIPv4; [| exact Hl]. constructor.
Qed.

Lemma broadcasts_are_IPv4_witness :
  Forall isIPv4 [[192; 168; 1; 255]].
Proof.
  apply (broadcasts_are_IPv4 ipv4.lib (inl [eth0 wantFlags]) (NewNetwork [])
           (set_broadcasts [[192; 168; 1; 255]] (NewNetwork [])) (Ret tt)).
  vm_compute; reflexivity.
Defined.

Lemma ifaceLoop_all_skipped lib d ifs bs :
  Forall (λ i, skipInterface d i = true) ifs → ifaceLoop lib d ifs bs = Ret bs.
Proof.
  induction 1 as [| i ifs Hi _ IH]; [done |]. cbn [ifaceLoop]. by rewrite Hi.
Qed.

Lemma addrLoop_not_Fail lib adr : ∀ bs e, addrLoop lib adr bs ≠ Fail e.
Proof.
  induction adr as [| a adr IH]; intros bs e; cbn [addrLoop]; [done |].
  destruct (net.ParseCIDR lib a) as [[ip network] |]; [| apply IH].
  destruct (net.To4 ip); [| apply IH].
  destruct (bCastOf network); [apply IH | done].
Qed.

Lemma ifaceLoop_not_Fail lib d ifs : ∀ bs e, ifaceLoop lib d ifs bs ≠ Fail e.
Proof.
  induction ifs as [| i ifs IH]; intros bs e; cbn [ifaceLoop]; [done |].
  destruct (skipInterface d i); [apply IH |].
  destruct (net.Addrs i) as [adr | err]; [| apply IH].
  pose proof (addrLoop_not_Fail lib adr bs) as Ha.
  destruct (addrLoop lib adr bs) as [bs1 | e1 | w1]; [apply IH | by destruct (Ha e1) | done].
Qed.

(** X18. [getBroadcastAddresses] returns the error of a missing interface
    exactly when an interface name is configured and no broadcast address
    was computed; when it returns nil with a name configured there is at
    least one broadcast address.  In particular, when the name matches no
    interface whose flags are the wanted ones, the error is returned, and
    with no name configured and no such interface it returns nil with no
    address. *)
Theorem getBroadcastAddresses_named lib ifl d d' r :
  getBroadcastAddresses lib (inl ifl) d = (d', r) →
  (∀ e, r = Fail e →
        e = ErrNoInterface (Interface d) ∧ Interface d ≠ "" ∧ broadcasts d' = [])
  ∧ (r = Ret tt → Interface d = "" ∨ broadcasts d' ≠ [])
  ∧ (Forall (λ i, skipInterface d i = true) ifl →
     broadcasts d' = []
     ∧ r = if String.eqb (Interface d) "" then Ret tt
           else Fail (ErrNoInterface (Interface d))).
Proof.
  intros H. split; [| split].
  - intros e ->. unfold getBroadcastAddresses in H.
    destruct (ifaceLoop lib _ ifl []) as [bs | e' | what] eqn:El.
    + cbn [broadcasts set_broadcasts Interface] in H.
      destruct ((length bs =? 0)%nat && negb (String.eqb (Interface d) "")) eqn:Ec;
        [| by injection H].
      injection H as <- <-. apply andb_prop in Ec as [Hlen Hname].
      split; [done |]. split.
      * intros Hi. by rewrite Hi in Hname.
      * cbn. destruct bs; [done | discriminate Hlen].
    + by apply ifaceLoop_not_Fail in El.
    + by injection H.
  - intros ->. apply getBroadcastAddresses_cases in H as [[_ Hr] | (_ & _ & _ & _ & Hc)];
      done.
  - intros Hskip. unfold getBroadcastAddresses in H.
    rewrite ifaceLoop_all_skipped in H.
    + cbn [broadcasts set_broadcasts Interface length Nat.eqb andb] in H.
      destruct (String.eqb (Interface d) ""); cbn [negb] in H;
        by injection H as <- <-.
    + exact Hskip.
Qed.

Lemma getBroadcastAddresses_named_witness :
  let d := NewNetwork [InterfaceOption "wlan0"] in
  getBroadcastAddresses ipv4.lib (inl [eth0 wantFlags]) d
  = (d, Fail (ErrNoInterface "wlan0")).
Proof.
  cbn zeta.
  destruct (getBroadcastAddresses ipv4.lib (inl [eth0 wantFlags])
              (NewNetwork [InterfaceOption "wlan0"])) as [d' r] eqn:E.
  destruct (getBroadcastAddresses_named _ _ _ _ _ E) as (_ & _ & Hskip).
  destruct Hskip as [Hb Hr]; [by repeat constructor |]. subst r.
  vm_compute in E. injection E as <-. reflexivity.
Defined.


(** *** The run of the pollers *)

Lemma getBroadcastAddresses_frame lib ifs d d' r :
  getBroadcastAddresses lib ifs d = (d', r) →
  Interface d' = Interface d ∧ PollInterval d' = PollInterval d
  ∧ PollCount d' = PollCount d ∧ Devices d' = Devices d.
Proof.
  unfold getBroadcastAddresses. destruct ifs as [ifs | err].
  - destruct (ifaceLoop lib _ ifs []) as [bs | e | what].
    + destruct (_ && _); intros H; by injection H as <- <-.
    + intros H; by injection H as <- <-.
    + intros H; by injection H as <- <-.
  - intros H; by injection H as <- <-.
Qed.

(** What every step keeps, every run keeps: [I] is stated on the network,
    the pollers and the events so far, [Q] on the answers of the
    schedule. *)
Lemma runPollers_inv lib (Q : answer → Prop)
    (I : DaikinNetwork → list poller → list event → Prop) :
  (∀ a d ps p d' p' evs0 evs,
      Q a → ps !! who a = Some p → stepPoller lib a d p = (d', p', evs) →
      I d ps evs0 → I d' (<[who a := p']> ps) (evs0 ++ evs)) →
  ∀ sched d ps d' ps' evs evs0,
    Forall Q sched →
    runPollers lib sched d ps = (d', ps', evs) →
    I d ps evs0 → I d' ps' (evs0 ++ evs).
Proof.
  intros Hstep. induction sched as [| a sched IH];
    intros d ps d' ps' evs evs0 HQ Hrun Hinv.
  - injection Hrun as <- <- <-. by rewrite app_nil_r.
  - apply Forall_cons in HQ as [Ha HQ]. cbn [runPollers] in Hrun.
    destruct (ps !! who a) as [p |] eqn:Hp; [| by eapply IH].
    destruct (stepPoller lib a d p) as [[d1 p1] evs1] eqn:Hs.
    pose proof (Hstep _ _ _ _ _ _ evs0 _ Ha Hp Hs Hinv) as Hinv1.
    destruct (isPanic p1).
    + by injection Hrun as <- <- <-.
    + destruct (runPollers lib sched d1 (<[who a := p1]> ps))
        as [[d2 ps2] evs2] eqn:Hrest.
      injection Hrun as <- <- <-. rewrite (assoc_L (++)). by eapply IH.
Qed.

Lemma Forall_True {A} (l : list A) : Forall (λ _, True) l.
Proof. by apply Forall_forall. Qed.

Lemma stepPoller_frame lib a d p d' p' evs :
  stepPoller lib a d p = (d', p', evs) →
  Interface d' = Interface d ∧ PollInterval d' = PollInterval d
  ∧ PollCount d' = PollCount d ∧ broadcasts d' = broadcasts d
  ∧ bCast p' = bCast p.
Proof.
  unfold stepPoller. intros H.
  repeat match type of H with
         | context [match ?x with _ => _ end] => destruct x
         end.
  all: by injection H as <- <- _.
Qed.

Lemma runPollers_frame lib sched d ps d' ps' evs :
  runPollers lib sched d ps = (d', ps', evs) →
  Interface d' = Interface d ∧ PollInterval d' = PollInterval d
  ∧ PollCount d' = PollCount d ∧ broadcasts d' = broadcasts d
  ∧ bCast <$> ps' = bCast <$> ps.
Proof.
  intros Hrun.
  apply (runPollers_inv lib (λ _, True)
           (λ d1 ps1 _, Interface d1 = Interface d ∧ PollInterval d1 = PollInterval d
                        ∧ PollCount d1 = PollCount d ∧ broadcasts d1 = broadcasts d
                        ∧ bCast <$> ps1 = bCast <$> ps)
           ) with (sched := sched) (d := d) (ps := ps) (evs := evs) (evs0 := []);
    [| apply Forall_True | done | done].
  intros a d0 ps0 p d1 p1 _ evs1 _ Hp Hs (Hi & Hv & Hc & Hb & Hbc).
  apply stepPoller_frame in Hs as (Hi1 & Hv1 & Hc1 & Hb1 & Hbc1).
  repeat split; try congruence.
  rewrite list_fmap_insert, Hbc1, <- Hbc. apply list_insert_id.
  by rewrite list_lookup_fmap, Hp.
Qed.

Lemma runPollers_length lib sched d ps d' ps' evs :
  runPollers lib sched d ps = (d', ps', evs) → length ps' = length ps.
Proof.
  intros H. apply runPollers_frame in H as (_ & _ & _ & _ & H).
  by rewrite <- (length_fmap bCast ps'), H, length_fmap.
Qed.

(** X19. [Discover] never changes the interface name, the poll interval
    or the poll count of the network, however it ends. *)
Theorem Discover_keeps_configuration lib w d d' r evs :
  Discover lib w d = Some (d', r, evs) →
  Interface d' = Interface d ∧ PollInterval d' = PollInterval d
  ∧ PollCount d' = PollCount d.
Proof.
  unfold Discover. destruct (PollCount d <? 1).
  { intros H; by injection H as <- <- <-. }
  destruct (getBroadcastAddresses lib (interfaces w) d) as [d1 r1] eqn:Hg.
  apply getBroadcastAddresses_frame in Hg as (Hi & Hv & Hc & _).
  destruct r1 as [[] | e | what];
    [| intros H; injection H as <- <- <-; done | intros H; injection H as <- <- <-; done].
  destruct (listenError w).
  { intros H; by injection H as <- <- <-. }
  destruct (runPollers lib (schedule w) d1 _) as [[d2 ps2] evs2] eqn:Hrun.
  destruct (forallb isDone ps2 && negb (dataRace ps2)); [| done].
  intros H; injection H as <- <- <-.
  apply runPollers_frame in Hrun as (Hi2 & Hv2 & Hc2 & _).
  repeat split; congruence.
Qed.

Lemma Discover_keeps_configuration_witness :
  ∃ d', PollInterval d' = Second ∧ PollCount d' = 1.
Proof.
  eexists.
  refine (proj2 (Discover_keeps_configuration ipv4.lib scan1 (NewNetwork []) _ (Ret tt) _ _)).
  vm_compute; reflexivity.
Defined.

(** *** The beacons of a scan *)

Lemma writes_app evs1 evs2 : writes (evs1 ++ evs2) = writes evs1 + writes evs2.
Proof. unfold writes. rewrite filter_app, length_app. lia. Qed.

Lemma writes_cons e evs :
  writes (e :: evs) = (if isWrite e then 1 else 0) + writes evs.
Proof.
  unfold writes. rewrite filter_cons.
  destruct (isWrite e) eqn:E; case_decide as Hd; cbn [length];
    first [lia | by destruct Hd | by rewrite E in Hd].
Qed.

Lemma writes_nil : writes [] = 0.
Proof. reflexivity. Qed.

Lemma beaconsTo_app dst evs1 evs2 :
  beaconsTo dst (evs1 ++ evs2) = beaconsTo dst evs1 + beaconsTo dst evs2.
Proof. unfold beaconsTo. rewrite filter_app, length_app. lia. Qed.

Lemma beaconsTo_cons dst e evs :
  beaconsTo dst (e :: evs) = (if isBeaconTo dst e then 1 else 0) + beaconsTo dst evs.
Proof.
  unfold beaconsTo. rewrite filter_cons.
  destruct (isBeaconTo dst e) eqn:E; case_decide as Hd; cbn [length];
    first [lia | by destruct Hd | by rewrite E in Hd].
Qed.

Lemma beaconsTo_nil dst : beaconsTo dst [] = 0.
Proof. reflexivity. Qed.

Lemma isBeaconTo_beacon dst dst' :
  isBeaconTo dst (beacon dst') = bool_decide (dst' = dst).
Proof.
  unfold isBeaconTo, beacon. rewrite String.eqb_refl.
  by destruct (bool_decide (dst' = dst)).
Qed.

Lemma sumOver_insert f (ps : list poller) :
  ∀ i p p', ps !! i = Some p →
            sumOver f (<[i := p']> ps) = sumOver f ps - f p + f p'.
Proof.
  unfold sumOver.
  induction ps as [| q ps IH]; intros i p p' Hi; [done |].
  destruct i as [| i].
  - cbn in Hi |- *. injection Hi as ->. lia.
  - change (<[S i := p']> (q :: ps)) with (q :: <[i := p']> ps).
    cbn [foldr]. rewrite (IH i p p' Hi). lia.
Qed.

Lemma loopHead_inv d b i :
  0 <= i <= PollCount d → pollerInv (PollCount d) (loopHead d b i).
Proof.
  intros Hi. unfold pollerInv, loopHead. cbn.
  destruct (Z.ltb_spec i (PollCount d)); lia.
Qed.

(** A step writes at most one datagram, the beacon to the address of the
    poller, and the poller counts it. *)
Lemma stepPoller_count lib a d p d' p' evs :
  stepPoller lib a d p = (d', p', evs) →
  pollerInv (PollCount d) p →
  pollerInv (PollCount d) p'
  ∧ written p' = written p + writes evs
  ∧ (∀ dst, beaconsTo dst evs
            = if bool_decide (net.ParseIP lib (bCast p) = dst) then writes evs else 0)
  ∧ Forall (λ e, isWrite e = true → e = beacon (net.ParseIP lib (bCast p))) evs.
Proof.
  unfold stepPoller, pollerInv, written.
  destruct (at_ p) eqn:Hat; intros H Hinv.
  all: repeat match type of H with
              | context [if ?b then _ else _] => destruct b
              | context [match ?x with _ => _ end] => destruct x
              end.
  all: injection H as <- <- <-.
  all: split; [| split; [| split]].
  all: try (intros dst; fold (beacon (net.ParseIP lib (bCast p)));
            rewrite ?beaconsTo_cons, ?beaconsTo_nil, ?writes_cons, ?writes_nil,
              ?isBeaconTo_beacon; cbn [isWrite isBeaconTo beacon];
            destruct (bool_decide (net.ParseIP lib (bCast p) = dst)); lia).
  all: try (repeat constructor; done).
  all: rewrite ?writes_cons, ?writes_nil; cbn [isWrite].
  all: unfold nextIter, goto, reading, storing; cbn [at_ iter]; rewrite ?Hat.
  all: try (destruct (Z.ltb_spec (iter p + 1) (PollCount d))); lia.
Qed.

Lemma written_start d (f : list Z → string) (g : poller → Z) bs :
  1 <= PollCount d →
  (∀ p, written p = 0 → g p = 0) →
  sumOver g ((λ b, loopHead d (f b) 0) <$> bs) = 0
  ∧ Forall (pollerInv (PollCount d)) ((λ b, loopHead d (f b) 0) <$> bs).
Proof.
  intros Hn Hg. induction bs as [| b bs [IH1 IH2]]; [split; [done | constructor] |].
  cbn [fmap list_fmap sumOver foldr].
  fold (sumOver g ((λ b, loopHead d (f b) 0) <$> bs)). rewrite IH1. split.
  - rewrite Hg; [done |]. unfold written, loopHead. cbn.
    destruct (Z.ltb_spec 0 (PollCount d)); lia.
  - constructor; [apply loopHead_inv; lia | done].
Qed.

Lemma written_done n ps :
  Forall (pollerInv n) ps → forallb isDone ps = true →
  sumOver written ps = n * Z.of_nat (length ps).
Proof.
  induction 1 as [| p ps Hp _ IH]; [cbn; lia |].
  cbn [forallb]. intros [Hd Hps]%andb_prop.
  cbn [sumOver foldr length]. fold (sumOver written ps). rewrite (IH Hps).
  unfold isDone in Hd. unfold pollerInv in Hp. unfold written.
  destruct (at_ p); try discriminate Hd. lia.
Qed.

Lemma writtenTo_done lib dst n ps bs :
  Forall (pollerInv n) ps → forallb isDone ps = true →
  bCast <$> ps = net.IPString lib <$> bs →
  sumOver (writtenTo lib dst) ps
  = n * Z.of_nat (length (filter (sendsTo lib dst) bs)).
Proof.
  intros Hinv. revert bs. induction Hinv as [| p ps Hp _ IH]; intros bs Hd Hbs.
  - destruct bs; [cbn; lia | discriminate Hbs].
  - destruct bs as [| b bs]; [discriminate Hbs |].
    cbn [fmap list_fmap] in Hbs. injection Hbs as Hb Hbs.
    cbn [forallb] in Hd. apply andb_prop in Hd as [Hdp Hd].
    cbn [sumOver foldr]. fold (sumOver (writtenTo lib dst) ps).
    rewrite (IH bs Hd Hbs). rewrite filter_cons.
    unfold writtenTo at 1. rewrite Hb. fold (sendsTo lib dst b).
    unfold isDone in Hdp. unfold pollerInv in Hp. unfold written.
    destruct (at_ p); try discriminate Hdp.
    destruct (sendsTo lib dst b) eqn:E;
      case_decide as Hdec; cbn [length];
      first [lia | by destruct Hdec | by rewrite E in Hdec].
Qed.

Lemma runPollers_count lib sched d ps d' ps' evs :
  runPollers lib sched d ps = (d', ps', evs) →
  Forall (pollerInv (PollCount d)) ps →
  Forall (pollerInv (PollCount d)) ps'
  ∧ sumOver written ps' = sumOver written ps + writes evs
  ∧ (∀ dst, sumOver (writtenTo lib dst) ps'
            = sumOver (writtenTo lib dst) ps + beaconsTo dst evs)
  ∧ Forall (λ e, isWrite e = true →
                 ∃ b, b ∈ bCast <$> ps ∧ e = beacon (net.ParseIP lib b)) evs.
Proof.
  intros Hrun Hinv.
  apply (runPollers_inv lib (λ _, True)
           (λ d1 ps1 evs1,
              PollCount d1 = PollCount d ∧ bCast <$> ps1 = bCast <$> ps
              ∧ Forall (pollerInv (PollCount d)) ps1
              ∧ sumOver written ps1 = sumOver written ps + writes evs1
              ∧ (∀ dst, sumOver (writtenTo lib dst) ps1
                        = sumOver (writtenTo lib dst) ps + beaconsTo dst evs1)
              ∧ Forall (λ e, isWrite e = true →
                             ∃ b, b ∈ bCast <$> ps ∧ e = beacon (net.ParseIP lib b)) evs1))
    with (evs0 := []) in Hrun; [tauto | | apply Forall_True |].
  - clear. intros a d0 ps0 p d1 p1 evs0 evs1 _ Hp Hs (Hc & Hbc & Hinv & Hw & Hd & Hall).
    destruct (stepPoller_frame _ _ _ _ _ _ _ Hs) as (_ & _ & Hc1 & _ & Hbc1).
    destruct (stepPoller_count _ _ _ _ _ _ _ Hs) as (Hp1 & Hw1 & Hd1 & Hall1).
    { rewrite Hc. rewrite Forall_forall in Hinv. apply Hinv.
      apply list_elem_of_lookup. eauto. }
    rewrite Hc in Hp1.
    split; [congruence |]. split; [| split; [by apply Forall_insert | split; [| split]]].
    + rewrite list_fmap_insert, Hbc1, <- Hbc. apply list_insert_id.
      by rewrite list_lookup_fmap, Hp.
    + rewrite (sumOver_insert written ps0 (who a) p p1 Hp), writes_app. lia.
    + intros dst.
      rewrite (sumOver_insert (writtenTo lib dst) ps0 (who a) p p1 Hp), beaconsTo_app,
        Hd, Hd1.
      unfold writtenTo. rewrite Hbc1.
      destruct (bool_decide (net.ParseIP lib (bCast p) = dst)); lia.
    + apply Forall_app. split; [done |].
      eapply Forall_impl; [exact Hall1 |]. intros e He Hwe.
      exists (bCast p). split; [| by apply He].
      rewrite <- Hbc. apply list_elem_of_fmap. exists p. split; [done |].
      apply list_elem_of_lookup. eauto.
  - split; [done |]. split; [done |]. split; [done |].
    split; [rewrite writes_nil; lia |].
    split; [intros dst; rewrite beaconsTo_nil; lia | constructor].
Qed.

(** X20. A scan with a poll count of at least 1 that returns nil has
    written, to every destination, exactly [PollCount] beacons (the query
    payload, to port 30050) for each broadcast address of the network whose
    text parses to that destination, the writes that failed included; it
    has written [PollCount] datagrams for each broadcast address in all,
    and every datagram written is such a beacon.  This holds whatever the
    schedule of the pollers and the replies. *)
Theorem Discover_beacons lib w d d' evs :
  Discover lib w d = Some (d', Ret tt, evs) →
  1 <= PollCount d →
  (∀ dst, beaconsTo dst evs
          = PollCount d * Z.of_nat (length (filter (sendsTo lib dst) (broadcasts d'))))
  ∧ writes evs = PollCount d * Z.of_nat (length (broadcasts d'))
  ∧ Forall (λ e, isWrite e = true →
                 ∃ b, b ∈ broadcasts d'
                      ∧ e = beacon (net.ParseIP lib (net.IPString lib b))) evs.
Proof.
  unfold Discover. intros H Hn.
  destruct (Z.ltb_spec (PollCount d) 1); [lia |].
  destruct (getBroadcastAddresses lib (interfaces w) d) as [d1 r1] eqn:Hg.
  apply getBroadcastAddresses_frame in Hg as (_ & _ & Hc & _).
  destruct r1 as [[] | e | what]; [| discriminate H | discriminate H].
  destruct (listenError w); [discriminate H |].
  destruct (runPollers lib (schedule w) d1 _) as [[d2 ps2] evs2] eqn:Hrun.
  destruct (forallb isDone ps2) eqn:Hdone; [| discriminate H].
  destruct (negb (dataRace ps2)); [| discriminate H].
  injection H as <- <-.
  unfold startPollers in Hrun.
  assert (1 <= PollCount d1) as Hn1 by lia.
  destruct (written_start d1 (net.IPString lib) written (broadcasts d1) Hn1)
    as [Hz Hinv]; [done |].
  destruct (runPollers_frame _ _ _ _ _ _ _ Hrun) as (_ & _ & _ & Hb & Hbc).
  rewrite <- list_fmap_compose in Hbc.
  destruct (runPollers_count _ _ _ _ _ _ _ Hrun Hinv) as (Hinv2 & Hw & Hd & Hall).
  rewrite Hb, <- Hc.
  change (EvInterfaces :: EvListenUDP 30000 :: evs2 ++ [EvClose])
    with ([EvInterfaces; EvListenUDP 30000] ++ evs2 ++ [EvClose]).
  split; [| split].
  - intros dst. specialize (Hd dst).
    rewrite (writtenTo_done lib dst _ _ (broadcasts d1) Hinv2 Hdone) in Hd by exact Hbc.
    destruct (written_start d1 (net.IPString lib) (writtenTo lib dst) (broadcasts d1) Hn1)
      as [Hz' _].
    { intros p Hp. unfold writtenTo. rewrite Hp. by destruct (bool_decide _). }
    rewrite Hz' in Hd. rewrite !beaconsTo_app.
    change (beaconsTo dst [EvInterfaces; EvListenUDP 30000]) with 0.
    change (beaconsTo dst [EvClose]) with 0. lia.
  - rewrite (written_done _ _ Hinv2 Hdone), Hz in Hw.
    rewrite (runPollers_length _ _ _ _ _ _ _ Hrun), length_fmap in Hw.
    rewrite !writes_app. change (writes [EvInterfaces; EvListenUDP 30000]) with 0.
    change (writes [EvClose]) with 0. lia.
  - apply Forall_app. split; [repeat constructor; discriminate |].
    apply Forall_app. split; [| repeat constructor; discriminate].
    eapply Forall_impl; [exact Hall |]. intros e He Hwe.
    destruct (He Hwe) as (b & Hin & ->).
    rewrite <- list_fmap_compose in Hin.
    apply list_elem_of_fmap in Hin as (b0 & -> & Hin). by exists b0.
Qed.

Lemma Discover_beacons_witness :
  let w := {| interfaces := interfaces scan2; listenError := None;
              schedule := [turn 1 ReadTimeout; turn 0 ReadTimeout;
                           turn 0 ReadTimeout; turn 1 ReadTimeout] |} in
  let dst := Some [0; 0; 0; 0; 0; 0; 0; 0; 0; 0; 255; 255; 10; 1; 15; 255] in
  ∃ d' evs,
    Discover ipv4.lib w (NewNetwork []) = Some (d', Ret tt, evs)
    ∧ broadcasts d' = [[192; 168; 1; 255]; [10; 1; 15; 255]]
    ∧ filter (sendsTo ipv4.lib dst) (broadcasts d') = [[10; 1; 15; 255]]
    ∧ beaconsTo dst evs
      = 1 * Z.of_nat (length (filter (sendsTo ipv4.lib dst) (broadcasts d'))).
Proof.
  cbn zeta. eexists _, _. split; [vm_compute; reflexivity |].
  split; [vm_compute; reflexivity |]. split; [vm_compute; reflexivity |].
  refine (proj1 (Discover_beacons ipv4.lib
                   {| interfaces := interfaces scan2; listenError := None;
                      schedule := [turn 1 ReadTimeout; turn 0 ReadTimeout;
                                   turn 0 ReadTimeout; turn 1 ReadTimeout] |}
                   (NewNetwork []) _ _ _ _) _).
  - vm_compute; reflexivity.
  - vm_compute. discriminate.
Defined.

(** *** A scan ends on timeouts only *)

Lemma stepPoller_busy lib a d p d' p' evs :
  stepPoller lib a d p = (d', p', evs) →
  writeFails a = false → readAnswer a ≠ ReadTimeout →
  isDone p = false → isDone p' = false.
Proof.
  unfold stepPoller, isDone. intros H Hw Hr.
  destruct (at_ p) eqn:Hat; intros Hd; try discriminate Hd.
  - rewrite Hw in H. by injection H as _ <- _.
  - destruct (readAnswer a) as [| what | rAddr]; [done | |].
    + injection H as _ <- _. by rewrite Hat.
    + destruct (lookupDevice d _); injection H as _ <- _; [cbn; by rewrite Hat | done].
  - destruct (Devices d); by injection H as _ <- _.
  - injection H as _ <- _. by rewrite Hat.
Qed.

Lemma runPollers_busy lib sched d ps d' ps' evs :
  runPollers lib sched d ps = (d', ps', evs) →
  Forall (λ a, writeFails a = false ∧ readAnswer a ≠ ReadTimeout) sched →
  Forall (λ p, isDone p = false) ps →
  Forall (λ p, isDone p = false) ps'.
Proof.
  intros Hrun Hsched Hps.
  apply (runPollers_inv lib (λ a, writeFails a = false ∧ readAnswer a ≠ ReadTimeout)
           (λ _ ps1 _, Forall (λ p, isDone p = false) ps1))
    with (evs0 := []) in Hrun; [done | | done | done].
  intros a d0 ps0 p d1 p1 _ evs1 [Hw Hr] Hp Hs Hbusy.
  apply Forall_insert; [done |].
  eapply stepPoller_busy; [exact Hs | done | done |].
  rewrite Forall_forall in Hbusy. apply Hbusy. apply list_elem_of_lookup. eauto.
Qed.

(** X21. [Discover] does not return as long as no read times out and no
    write fails: with at least one broadcast address, a schedule in which
    every read returns a reply or an error other than a timeout, however
    long, lets no poller leave its read loop and close its channel. *)
Theorem Discover_needs_timeout lib w d d1 :
  1 <= PollCount d →
  getBroadcastAddresses lib (interfaces w) d = (d1, Ret tt) →
  broadcasts d1 ≠ [] →
  listenError w = None →
  Forall (λ a, writeFails a = false ∧ readAnswer a ≠ ReadTimeout) (schedule w) →
  Discover lib w d = None.
Proof.
  intros Hn Hg Hb Hl Hsched. unfold Discover.
  destruct (Z.ltb_spec (PollCount d) 1); [lia |]. rewrite Hg, Hl.
  destruct (runPollers lib (schedule w) d1 _) as [[d2 ps2] evs2] eqn:Hrun.
  apply getBroadcastAddresses_frame in Hg as (_ & _ & Hc & _).
  pose proof (runPollers_length _ _ _ _ _ _ _ Hrun) as Hlen.
  apply runPollers_busy in Hrun; [| done |].
  - unfold startPollers in Hlen. rewrite length_fmap in Hlen.
    destruct ps2 as [| p ps2]; [by destruct (broadcasts d1) |].
    apply Forall_cons in Hrun as [Hp _]. cbn [forallb]. by rewrite Hp.
  - apply Forall_fmap, Forall_forall. intros b _. unfold isDone, loopHead. cbn.
    by destruct (Z.ltb_spec 0 (PollCount d1)); [| lia].
Qed.

Lemma Discover_needs_timeout_witness :
  Discover ipv4.lib
    {| interfaces := inl [eth0 wantFlags]; listenError := None;
       schedule := [turn 0 (ReadError "refused"); turn 0 (ReadError "refused");
                    turn 0 (ReadFrom [192; 168; 1; 9]); turn 0 (ReadError "refused");
                    turn 0 (ReadError "refused")] |}
    (NewNetwork []) = None.
Proof.
  apply (Discover_needs_timeout ipv4.lib _ (NewNetwork [])
           (set_broadcasts [[192; 168; 1; 255]] (NewNetwork []))).
  - vm_compute. discriminate.
  - vm_compute; reflexivity.
  - discriminate.
  - reflexivity.
  - repeat constructor; discriminate.
Defined.

(** *** The registry and the pollers *)

Lemma stepPoller_flags lib a d p d' p' evs :
  stepPoller lib a d p = (d', p', evs) →
  (hasRead p = true → hasRead p' = true)
  ∧ (hasStored p = true → hasStored p' = true).
Proof.
  unfold stepPoller. intros H.
  repeat match type of H with
         | context [match ?x with _ => _ end] => destruct x
         end.
  all: by injection H as _ <- _.
Qed.

Lemma dataRace_spec ps :
  dataRace ps = true
  ↔ ∃ i j p q, i ≠ j ∧ ps !! i = Some p ∧ ps !! j = Some q
               ∧ hasStored p = true ∧ hasRead q = true.
Proof.
  induction ps as [| p0 ps IH]; cbn [dataRace].
  - split; [done |]. by intros (i & j & p & q & _ & Hp & _).
  - rewrite orb_true_iff, IH, existsb_exists. split.
    + intros [(q & Hin & Hr) | (i & j & p & q & Hne & Hp & Hq & Hs & Hl)].
      * apply list_elem_of_In, list_elem_of_lookup in Hin as [k Hk].
        apply orb_true_iff in Hr as [Hr | Hr]; apply andb_prop in Hr as [Hs Hl].
        -- exists 0%nat, (S k), p0, q. by repeat split.
        -- exists (S k), 0%nat, q, p0. by repeat split.
      * exists (S i), (S j), p, q. repeat split; try done. lia.
    + intros (i & j & p & q & Hne & Hp & Hq & Hs & Hl).
      destruct i as [| i], j as [| j]; [done | | |].
      * left. cbn in Hp, Hq. injection Hp as ->. exists q. split.
        -- apply list_elem_of_In, list_elem_of_lookup. eauto.
        -- unfold racesWith. by rewrite Hs, Hl.
      * left. cbn in Hp, Hq. injection Hq as ->. exists p. split.
        -- apply list_elem_of_In, list_elem_of_lookup. eauto.
        -- unfold racesWith. rewrite Hs, Hl. by rewrite orb_true_r.
      * right. exists i, j, p, q. repeat split; try done. lia.
Qed.

(** The accesses of a poller are never forgotten: a race stays one. *)
Lemma dataRace_insert ps k p0 p1 :
  ps !! k = Some p0 →
  (hasRead p0 = true → hasRead p1 = true) →
  (hasStored p0 = true → hasStored p1 = true) →
  dataRace ps = true → dataRace (<[k := p1]> ps) = true.
Proof.
  intros Hk Hr Hs. rewrite !dataRace_spec.
  intros (i & j & p & q & Hne & Hp & Hq & Hsp & Hlq).
  assert (k < length ps)%nat as Hlt by (by eapply lookup_lt_Some).
  exists i, j.
  destruct (decide (i = k)) as [-> | Hik]; destruct (decide (j = k)) as [-> | Hjk];
    [done | | |].
  - exists p1, q. rewrite list_lookup_insert_eq, list_lookup_insert_ne by done.
    repeat split; try done. apply Hs. congruence.
  - exists p, p1. rewrite list_lookup_insert_eq, list_lookup_insert_ne by done.
    repeat split; try done. apply Hr. congruence.
  - exists p, q. rewrite !list_lookup_insert_ne by done. by repeat split.
Qed.

Lemma runPollers_race lib sched d ps d' ps' evs :
  runPollers lib sched d ps = (d', ps', evs) →
  dataRace ps = true → dataRace ps' = true.
Proof.
  intros Hrun Hrace.
  apply (runPollers_inv lib (λ _, True) (λ _ ps1 _, dataRace ps1 = true))
    with (evs0 := []) in Hrun; [done | | apply Forall_True | done].
  intros a d0 ps0 p d1 p1 _ evs1 _ Hp Hs Hr.
  destruct (stepPoller_flags _ _ _ _ _ _ _ Hs) as [Hread Hstored].
  by eapply dataRace_insert.
Qed.

Lemma existsb_isPanic_insert ps k p :
  existsb isPanic ps = false → isPanic p = false →
  existsb isPanic (<[k := p]> ps) = false.
Proof.
  revert k. induction ps as [| q ps IH]; intros k Hps Hp; [done |].
  cbn [existsb] in Hps. apply orb_false_elim in Hps as [Hq Hps].
  destruct k as [| k].
  - cbn. by rewrite Hp, Hps.
  - change (<[S k := p]> (q :: ps)) with (q :: <[k := p]> ps).
    cbn [existsb]. by rewrite Hq, IH.
Qed.

Lemma existsb_isPanic_insert_true ps k p0 p :
  ps !! k = Some p0 → isPanic p = true → existsb isPanic (<[k := p]> ps) = true.
Proof.
  intros Hk Hp. apply existsb_exists. exists p. split; [| done].
  apply list_elem_of_In, list_elem_of_lookup. exists k.
  apply list_lookup_insert_eq. by eapply lookup_lt_Some.
Qed.

(** A run over a schedule and then over more turns: when a poller has
    panicked the run is over. *)
Lemma runPollers_app lib sched more :
  ∀ d ps,
    existsb isPanic ps = false →
    runPollers lib (sched ++ more) d ps
    = let '(d1, ps1, evs1) := runPollers lib sched d ps in
      if existsb isPanic ps1 then (d1, ps1, evs1)
      else let '(d2, ps2, evs2) := runPollers lib more d1 ps1 in
           (d2, ps2, evs1 ++ evs2).
Proof.
  induction sched as [| a sched IH]; intros d ps Hps.
  - cbn [app runPollers]. rewrite Hps. by destruct (runPollers lib more d ps) as [[? ?] ?].
  - cbn [app runPollers]. destruct (ps !! who a) as [p |] eqn:Hp; [| by apply IH].
    destruct (stepPoller lib a d p) as [[d1 p1] evs1].
    destruct (isPanic p1) eqn:Hp1.
    + by rewrite (existsb_isPanic_insert_true ps (who a) p p1).
    + rewrite IH by by apply existsb_isPanic_insert.
      destruct (runPollers lib sched d1 _) as [[d2 ps2] evs2].
      destruct (existsb isPanic ps2); [done |].
      destruct (runPollers lib more d2 ps2) as [[d3 ps3] evs3].
      by rewrite (assoc_L (++)).
Qed.

Lemma startPollers_no_panic lib d : existsb isPanic (startPollers lib d) = false.
Proof.
  unfold startPollers. induction (broadcasts d) as [| b bs IH]; [done |].
  cbn [fmap list_fmap existsb]. rewrite IH. unfold isPanic, loopHead. cbn.
  by destruct (_ <? _).
Qed.

Lemma panicOf_none ps : omap panicOf ps = [] → existsb isPanic ps = false.
Proof.
  induction ps as [| p ps IH]; [done |].
  cbn [omap list_omap existsb]. unfold isPanic at 1, panicOf at 1.
  destruct (at_ p); cbn; done.
Qed.

Lemma panicOf_some ps :
  omap panicOf ps ≠ [] → existsb isPanic ps = true ∧ forallb isDone ps = false.
Proof.
  induction ps as [| p ps IH]; [done |].
  cbn [omap list_omap existsb forallb]. unfold isPanic at 1, isDone at 1, panicOf at 1.
  destruct (at_ p); cbn; try done.
  all: intros H; destruct (IH H) as [-> Hd]; by rewrite ?Hd.
Qed.

Lemma faultOf_Some ps f :
  faultOf ps = Some f →
  (existsb isPanic ps = true ∧ forallb isDone ps = false)
  ∨ (existsb isPanic ps = false ∧ dataRace ps = true).
Proof.
  unfold faultOf. destruct (omap panicOf ps) as [| what l] eqn:E.
  - destruct (dataRace ps); [| done]. intros _. right. by split; [apply panicOf_none |].
  - intros _. left. apply panicOf_some. by rewrite E.
Qed.

(** A fault is final: once a poller has panicked, or two pollers have
    raced on the registry, [Discover] has no result, whatever turns
    follow. *)
Lemma fault_final lib w d f more :
  DiscoverFault lib w d = Some f → Discover lib (extend w more) d = None.
Proof.
  unfold DiscoverFault, Discover, extend. cbn [interfaces listenError schedule].
  destruct (PollCount d <? 1); [done |].
  destruct (getBroadcastAddresses lib (interfaces w) d) as [d1 [[] | e | what]];
    [| done | done].
  destruct (listenError w); [done |].
  rewrite runPollers_app by apply startPollers_no_panic.
  destruct (runPollers lib (schedule w) d1 _) as [[d2 ps2] evs2]. cbn [fst snd].
  intros [[Hp Hd] | [Hp Hr]]%faultOf_Some; rewrite Hp.
  - by rewrite Hd.
  - destruct (runPollers lib more d2 ps2) as [[d3 ps3] evs3] eqn:Hmore.
    apply runPollers_race in Hmore; [| done]. rewrite Hmore.
    by rewrite andb_false_r.
Qed.

(** C9. The pollers register replies in [d.Devices] with no lock.  With
    two broadcast addresses there are two pollers; in [scan2] each reads a
    reply from 192.168.1.9, finds no entry for it, and stores one: both
    have read the map and both have stored into it, a data race on the map,
    and [Discover] has no result that Go defines (no registry with one
    entry for the address is promised).  The same holds of every run in
    which a fault has occurred, whatever turns follow.  With one poller the
    same two replies leave one entry. *)
Theorem registry_unsynchronised :
  (∀ lib w d f more,
      DiscoverFault lib w d = Some f → Discover lib (extend w more) d = None)
  ∧ (let d1 := (getBroadcastAddresses ipv4.lib (interfaces scan2) (NewNetwork [])).1 in
     let ps := (runPollers ipv4.lib (schedule scan2) d1 (startPollers ipv4.lib d1)).1.2 in
     length ps = 2%nat
     ∧ hasRead <$> ps = [true; true] ∧ hasStored <$> ps = [true; true]
     ∧ isDone <$> ps = [true; true])
  ∧ DiscoverFault ipv4.lib scan2 (NewNetwork []) = Some DevicesDataRace
  ∧ Discover ipv4.lib scan2 (NewNetwork []) = None
  ∧ (∃ d' evs,
       Discover ipv4.lib scan1 (NewNetwork []) = Some (d', Ret tt, evs)
       ∧ Devices d' = Some {[ "192.168.1.9" := newDaikin "192.168.1.9" ]}).
Proof.
  split; [apply fault_final |].
  split; [cbn zeta; repeat split; vm_compute; reflexivity |].
  split; [vm_compute; reflexivity |].
  split; [vm_compute; reflexivity |].
  eexists _, _. split; vm_compute; reflexivity.
Qed.

Lemma registry_unsynchronised_witness :
  Discover ipv4.lib (extend scan2 [turn 0 ReadTimeout; turn 1 ReadTimeout]) (NewNetwork [])
  = None.
Proof.
  destruct registry_unsynchronised as [H _].
  apply (H ipv4.lib scan2 (NewNetwork []) DevicesDataRace).
  vm_compute; reflexivity.
Defined.

(** *** Options *)

Lemma foldl_InterfaceOption names :
  ∀ d, let d' := foldl (λ dn opt, opt dn) d (InterfaceOption <$> names) in
       PollCount d' = PollCount d ∧ Devices d' = Devices d
       ∧ PollInterval d' = PollInterval d ∧ broadcasts d' = broadcasts d.
Proof.
  induction names as [| n names IH]; intros d; [done |].
  cbn [fmap list_fmap foldl]. cbn zeta in IH |- *.
  destruct (IH (InterfaceOption n d)) as (-> & -> & -> & ->). done.
Qed.

(** X22. A network made by [NewNetwork] with [AddressOption] of a
    non-empty address, whatever options come before it and whatever
    [InterfaceOption]s come after it, has that one device in its registry
    (devices seeded by earlier options are dropped) and a poll count of 0,
    and [Discover] on it returns nil without any call on the network,
    leaving the registry as seeded. *)
Theorem AddressOption_skips_discovery lib w opts addr names :
  addr ≠ "" →
  let d := NewNetwork (opts ++ [AddressOption addr] ++ (InterfaceOption <$> names)) in
  Devices d = Some {[ addr := newDaikin addr ]}
  ∧ PollCount d = 0
  ∧ Discover lib w d = Some (d, Ret tt, []).
Proof.
  intros Haddr d.
  assert (Devices d = Some {[ addr := newDaikin addr ]} ∧ PollCount d = 0) as [HD HP].
  { subst d. unfold NewNetwork. rewrite !foldl_app.
    destruct (foldl_InterfaceOption names
                (foldl (λ dn opt, opt dn)
                   (foldl (λ dn opt, opt dn)
                      {| Interface := ""; PollInterval := Second; PollCount := 1;
                         Devices := Some ∅; broadcasts := [] |} opts)
                   [AddressOption addr])) as (-> & -> & _).
    cbn [foldl]. unfold AddressOption.
    destruct (String.eqb_spec addr "") as [? | _]; [done |]. cbn. done. }
  split; [done |]. split; [done |].
  unfold Discover. by rewrite HP.
Qed.

Lemma AddressOption_skips_discovery_witness :
  let d := NewNetwork [AddressOption "10.0.0.1"; AddressOption "192.168.1.7";
                       InterfaceOption "eth0"] in
  Devices d = Some {[ "192.168.1.7" := newDaikin "192.168.1.7" ]}
  ∧ PollCount d = 0
  ∧ Discover ipv4.lib scan1 d = Some (d, Ret tt, []).
Proof.
  apply (AddressOption_skips_discovery ipv4.lib scan1 [AddressOption "10.0.0.1"]
           "192.168.1.7" ["eth0"]).
  discriminate.
Defined.

(** ** Temperatures in tenths of a degree *)

Lemma sameFloat_eq a b : sameFloat a b = true → a = b.
Proof.
  destruct a as [s | s | | s m e], b as [s' | s' | | s' m' e']; cbn; try discriminate.
  - by intros ->%Bool.eqb_prop.
  - by intros ->%Bool.eqb_prop.
  - done.
  - intros [[->%Bool.eqb_prop ->%Pos.eqb_eq]%andb_prop ->%Z.eqb_eq]%andb_prop. done.
Qed.

Lemma tenthsRoundTrip_range :
  forallb tenthsRoundTrip (seqZ (-1000) 2001) = true.
Proof. vm_compute. reflexivity. Qed.

Lemma tenths_round_trip k t0 :
  -1000 <= k <= 1000 →
  Temperature_encode (tenths k) = tenthsText k
  ∧ Temperature_decode (Temperature_encode (tenths k)) t0 = (tenths k, None).
Proof.
  intros Hk.
  assert (tenthsRoundTrip k = true) as H.
  { pose proof tenthsRoundTrip_range as Hall. rewrite forallb_forall in Hall.
    apply Hall. apply list_elem_of_In, elem_of_seqZ. lia. }
  unfold tenthsRoundTrip in H. apply andb_prop in H as [He Hd].
  apply String.eqb_eq in He. split; [done |].
  rewrite He. unfold Temperature_decode.
  destruct (strconv.ParseFloat (tenthsText k)) as [f | err]; [| discriminate Hd].
  by rewrite (sameFloat_eq _ _ Hd).
Qed.

(** X23. Every temperature of a whole number of tenths of a degree from
    -100.0 to 100.0 is written by encode as its decimal text with one
    fractional digit, and decode reads that text back to the same
    [float64]. *)
Theorem Temperature_tenths_round_trip k t0 :
  -1000 <= k <= 1000 →
  Temperature_encode (tenths k) = tenthsText k
  ∧ Temperature_decode (Temperature_encode (tenths k)) t0 = (tenths k, None).
Proof. apply tenths_round_trip. Qed.

Lemma Temperature_tenths_round_trip_witness :
  Temperature_encode (tenths (-55)) = "-5.5"
  ∧ Temperature_decode (Temperature_encode (tenths (-55))) (S754_zero false)
    = (tenths (-55), None).
Proof.
  apply (Temperature_tenths_round_trip (-55) (S754_zero false)). lia.
Defined.

(** *** What a scan leaves in the registry *)

Lemma stepPoller_registry lib sched (R : gmap string Daikin) a d ps p d' p' evs :
  a ∈ sched → ps !! who a = Some p →
  stepPoller lib a d p = (d', p', evs) →
  (∃ R1, Devices d = Some R1
         ∧ (∀ k dev, R !! k = Some dev → R1 !! k = Some dev)
         ∧ (∀ k dev, R1 !! k = Some dev → R !! k = None →
                     dev = newDaikin k ∧ heardIn lib sched k)
         ∧ Forall (λ p, ∀ ip, at_ p = PStore ip → R !! ip = None ∧ heardIn lib sched ip) ps) →
  ∃ R1, Devices d' = Some R1
        ∧ (∀ k dev, R !! k = Some dev → R1 !! k = Some dev)
        ∧ (∀ k dev, R1 !! k = Some dev → R !! k = None →
                    dev = newDaikin k ∧ heardIn lib sched k)
        ∧ Forall (λ p, ∀ ip, at_ p = PStore ip → R !! ip = None ∧ heardIn lib sched ip)
            (<[who a := p']> ps).
Proof.
  intros Ha Hp Hs (R1 & HD & Hkeep & Hnew & Hst).
  assert (∀ ip, at_ p = PStore ip → R !! ip = None ∧ heardIn lib sched ip) as Hpst.
  { rewrite Forall_forall in Hst. apply Hst. apply list_elem_of_lookup. eauto. }
  unfold stepPoller in Hs. destruct (at_ p) as [| | ip | | what] eqn:Hat.
  - exists R1. destruct (writeFails a); injection Hs as <- <- <-.
    all: split; [done |]; split; [done |]; split; [done |].
    all: apply Forall_insert; [done |]; cbn; intros ip.
    + by destruct (_ <? _).
    + done.
  - exists R1. destruct (readAnswer a) as [| what | rAddr] eqn:Hans.
    + injection Hs as <- <- <-. split; [done |]. split; [done |]. split; [done |].
      apply Forall_insert; [done |]. cbn. intros ip. by destruct (_ <? _).
    + injection Hs as <- <- <-. split; [done |]. split; [done |]. split; [done |].
      apply Forall_insert; [done |]. intros ip. by rewrite Hat.
    + unfold lookupDevice in Hs. rewrite HD in Hs.
      destruct (R1 !! net.IPString lib rAddr) as [dev |] eqn:Hl;
        injection Hs as <- <- <-.
      * split; [done |]. split; [done |]. split; [done |].
        apply Forall_insert; [done |]. cbn. intros ip. by rewrite Hat.
      * split; [done |]. split; [done |]. split; [done |].
        apply Forall_insert; [done |]. cbn. intros ip [= <-]. split.
        -- destruct (R !! net.IPString lib rAddr) as [dev |] eqn:E; [| done].
           apply Hkeep in E. congruence.
        -- by exists a, rAddr.
  - rewrite HD in Hs. injection Hs as <- <- <-.
    destruct (Hpst ip eq_refl) as [Hfresh Hheard].
    exists (<[ip := newDaikin ip]> R1). cbn [set_Devices Devices].
    split; [done |]. split; [| split].
    + intros k dev Hk. rewrite lookup_insert_ne by congruence. by apply Hkeep.
    + intros k dev Hk Hk0. destruct (decide (ip = k)) as [-> | Hne].
      * rewrite lookup_insert_eq in Hk. by injection Hk as <-.
      * rewrite lookup_insert_ne in Hk by done. by apply Hnew.
    + apply Forall_insert; [done |]. cbn. done.
  - exists R1. injection Hs as <- <- <-. split; [done |]. split; [done |]. split; [done |].
    apply Forall_insert; [done |]. intros ip. by rewrite Hat.
  - exists R1. injection Hs as <- <- <-. split; [done |]. split; [done |]. split; [done |].
    apply Forall_insert; [done |]. intros ip. by rewrite Hat.
Qed.

(** X26. Whatever the schedule of the pollers, when [Discover] returns on
    a network whose map of devices is not nil, every entry that the map
    held before the scan is still there as it was (the first seen wins,
    nothing is merged into it), and every entry added by the scan is the
    bare device of its key, which is the source address of a reply among
    the answers of the socket. *)
Theorem Discover_registry_kept lib w d (R : gmap string Daikin) d' r evs :
  Devices d = Some R →
  Discover lib w d = Some (d', r, evs) →
  ∃ R', Devices d' = Some R'
        ∧ (∀ k dev, R !! k = Some dev → R' !! k = Some dev)
        ∧ (∀ k dev, R' !! k = Some dev → R !! k = None →
                    dev = newDaikin k ∧ heardIn lib (schedule w) k).
Proof.
  intros HD. unfold Discover. destruct (PollCount d <? 1).
  { intros H; injection H as <- <- <-. exists R. split; [done |]. split; [done |]. congruence. }
  destruct (getBroadcastAddresses lib (interfaces w) d) as [d1 r1] eqn:Hg.
  apply getBroadcastAddresses_frame in Hg as (_ & _ & _ & HD1). rewrite HD in HD1.
  assert (∀ r0 evs0, Some (d1, r0, evs0) = Some (d', r, evs) →
            ∃ R', Devices d' = Some R'
                  ∧ (∀ k dev, R !! k = Some dev → R' !! k = Some dev)
                  ∧ (∀ k dev, R' !! k = Some dev → R !! k = None →
                              dev = newDaikin k ∧ heardIn lib (schedule w) k)) as Hsame.
  { intros r0 evs0 H; injection H as <- <- <-. exists R. split; [done |]. split; [done |].
    congruence. }
  destruct r1 as [[] | e | what]; [| apply Hsame | apply Hsame].
  destruct (listenError w); [apply Hsame |].
  destruct (runPollers lib (schedule w) d1 _) as [[d2 ps2] evs2] eqn:Hrun.
  destruct (forallb isDone ps2 && negb (dataRace ps2)); [| done].
  intros H; injection H as <- <- <-.
  apply (runPollers_inv lib (λ a, a ∈ schedule w)
           (λ d0 ps0 _,
              ∃ R1, Devices d0 = Some R1
                    ∧ (∀ k dev, R !! k = Some dev → R1 !! k = Some dev)
                    ∧ (∀ k dev, R1 !! k = Some dev → R !! k = None →
                                dev = newDaikin k ∧ heardIn lib (schedule w) k)
                    ∧ Forall (λ p, ∀ ip, at_ p = PStore ip →
                                         R !! ip = None ∧ heardIn lib (schedule w) ip) ps0))
    with (evs0 := []) in Hrun.
  - destruct Hrun as (R' & ? & ? & ? & _). by exists R'.
  - intros a d0 ps0 p d3 p3 _ evs3 Ha Hp Hs Hinv. by eapply stepPoller_registry.
  - by apply Forall_forall.
  - exists R. split; [done |]. split; [done |]. split; [congruence |].
    unfold startPollers. apply Forall_fmap, Forall_forall. intros b _ ip. cbn.
    by destruct (_ <? _).
Qed.

Lemma Discover_registry_kept_witness :
  ∃ d' evs R',
    Discover ipv4.lib scan1 seededNetwork = Some (d', Ret tt, evs)
    ∧ Devices d' = Some R'
    ∧ R' !! "192.168.1.7" = Some (newDaikin "192.168.1.7")
    ∧ R' !! "192.168.1.9" = Some (newDaikin "192.168.1.9").
Proof.
  assert (∃ d' evs, Discover ipv4.lib scan1 seededNetwork = Some (d', Ret tt, evs)
                    ∧ ∃ R', Devices d' = Some R'
                            ∧ R' !! "192.168.1.9" = Some (newDaikin "192.168.1.9"))
    as (d' & evs & H & R1 & HD1 & H9).
  { eexists _, _. split; [vm_compute; reflexivity |].
    eexists. split; vm_compute; reflexivity. }
  destruct (Discover_registry_kept ipv4.lib scan1 seededNetwork
              {[ "192.168.1.7" := newDaikin "192.168.1.7" ]} d' (Ret tt) evs eq_refl H)
    as (R' & HD & Hkeep & _).
  exists d', evs, R'. split; [exact H |]. split; [exact HD |]. split.
  - apply Hkeep. reflexivity.
  - rewrite HD in HD1. injection HD1 as ->. exact H9.
Defined.

(** *** A nil map of devices *)

Lemma existsb_insert_mono {A} (f : A → bool) (l : list A) k x0 x1 :
  l !! k = Some x0 → (f x0 = true → f x1 = true) →
  existsb f l = true → existsb f (<[k := x1]> l) = true.
Proof.
  intros Hk Hmono. rewrite !existsb_exists. intros (x & Hin & Hx).
  apply list_elem_of_In, list_elem_of_lookup in Hin as [j Hj].
  assert (k < length l)%nat as Hlt by (by eapply lookup_lt_Some).
  destruct (decide (j = k)) as [-> | Hne].
  - exists x1. split.
    + apply list_elem_of_In, list_elem_of_lookup. exists k.
      by apply list_lookup_insert_eq.
    + apply Hmono. congruence.
  - exists x. split; [| done].
    apply list_elem_of_In, list_elem_of_lookup. exists j.
    by rewrite list_lookup_insert_ne.
Qed.

Lemma existsb_insert_new {A} (f : A → bool) (l : list A) k x0 x1 :
  l !! k = Some x0 → f x1 = true → existsb f (<[k := x1]> l) = true.
Proof.
  intros Hk Hx. apply existsb_exists. exists x1. split; [| done].
  apply list_elem_of_In, list_elem_of_lookup. exists k.
  apply list_lookup_insert_eq. by eapply lookup_lt_Some.
Qed.

Lemma stepPoller_nil lib a d p d' p' evs :
  stepPoller lib a d p = (d', p', evs) →
  Devices d = None →
  Devices d' = None
  ∧ (isStoring p = true → isStoring p' = true)
  ∧ (existsb isReply evs = true → isStoring p' = true).
Proof.
  unfold stepPoller, lookupDevice, isStoring. intros H HD. rewrite HD in H.
  destruct (at_ p) eqn:Hat.
  all: repeat match type of H with
              | context [match ?x with _ => _ end] => destruct x
              end.
  all: injection H as <- <- <-; cbn; rewrite ?Hat; by repeat split.
Qed.

Lemma done_not_storing ps : forallb isDone ps = true → existsb isStoring ps = false.
Proof.
  induction ps as [| p ps IH]; [done |]. cbn [forallb existsb].
  intros [Hp Hps]%andb_prop. rewrite (IH Hps).
  unfold isDone in Hp. unfold isStoring. by destruct (at_ p).
Qed.

(** X27. On a network whose map of devices is nil, a scan that returns
    has read no reply, and the map is still nil: a poller that reads a
    reply finds no entry in the nil map and stores one, which panics, and
    the call does not return.  So with a nil map the first reply ends the
    process. *)
Theorem Discover_nil_registry lib w d d' r evs :
  Devices d = None →
  Discover lib w d = Some (d', r, evs) →
  Devices d' = None ∧ Forall (λ e, isReply e = false) evs.
Proof.
  intros HD. unfold Discover. destruct (PollCount d <? 1).
  { intros H; injection H as <- <- <-. by split. }
  destruct (getBroadcastAddresses lib (interfaces w) d) as [d1 r1] eqn:Hg.
  apply getBroadcastAddresses_frame in Hg as (_ & _ & _ & HD1). rewrite HD in HD1.
  destruct r1 as [[] | e | what];
    [| intros H; injection H as <- <- <-; split; [done | by repeat constructor]
     | intros H; injection H as <- <- <-; split; [done | by repeat constructor]].
  destruct (listenError w).
  { intros H; injection H as <- <- <-. split; [done | by repeat constructor]. }
  destruct (runPollers lib (schedule w) d1 _) as [[d2 ps2] evs2] eqn:Hrun.
  destruct (forallb isDone ps2) eqn:Hdone; [| done].
  destruct (negb (dataRace ps2)); [| done].
  intros H; injection H as <- <- <-.
  apply (runPollers_inv lib (λ _, True)
           (λ d0 ps0 evs0,
              Devices d0 = None
              ∧ (existsb isReply evs0 = true → existsb isStoring ps0 = true)))
    with (evs0 := []) in Hrun; [| | apply Forall_True | by split].
  - destruct Hrun as [HD2 Hst]. split; [done |].
    apply done_not_storing in Hdone.
    do 2 (constructor; [done |]).
    apply Forall_app. split; [| by repeat constructor].
    apply Forall_forall. intros e He.
    destruct (isReply e) eqn:Hr; [| done].
    rewrite Hst in Hdone; [done |]. apply existsb_exists. exists e.
    split; [by apply list_elem_of_In | done].
  - intros a d0 ps0 p d3 p3 evs0 evs3 _ Hp Hs [HD0 Hst].
    destruct (stepPoller_nil _ _ _ _ _ _ _ Hs HD0) as (HD3 & Hkeep & Hnew).
    split; [done |]. rewrite existsb_app. intros [H0 | H3]%orb_true_iff.
    + eapply existsb_insert_mono; [exact Hp | exact Hkeep | by apply Hst].
    + eapply existsb_insert_new; [exact Hp | by apply Hnew].
Qed.

Lemma Discover_nil_registry_witness :
  (∃ d' evs,
     Discover ipv4.lib
       {| interfaces := inl [eth0 wantFlags]; listenError := None;
          schedule := [quiet; quiet] |} bareNetwork
     = Some (d', Ret tt, evs)
     ∧ Devices d' = None ∧ Forall (λ e, isReply e = false) evs)
  ∧ Discover ipv4.lib scan1 bareNetwork = None
  ∧ DiscoverFault ipv4.lib scan1 bareNetwork
    = Some (NilMapPanic "assignment to entry in nil map").
Proof.
  split; [| split; vm_compute; reflexivity].
  eexists _, _. split; [vm_compute; reflexivity |].
  apply (Discover_nil_registry ipv4.lib
           {| interfaces := inl [eth0 wantFlags]; listenError := None;
              schedule := [quiet; quiet] |} bareNetwork _ (Ret tt) _).
  - reflexivity.
  - vm_compute; reflexivity.
Defined.

(** *** A scan with one poller *)

Lemma register_spec ip (m : gmap string Daikin) :
  dom (register ip m) = dom m ∪ {[ ip ]}
  ∧ (∀ k dev, m !! k = Some dev → register ip m !! k = Some dev)
  ∧ (∀ k dev, register ip m !! k = Some dev → m !! k = None → dev = newDaikin k).
Proof.
  unfold register. destruct (m !! ip) as [dev0 |] eqn:E.
  - split; [| split; [done | congruence]].
    assert (ip ∈ dom m) by (apply elem_of_dom; eauto). set_solver.
  - split; [by rewrite dom_insert_L, (comm_L (∪)) | split].
    + intros k dev Hk. rewrite lookup_insert_ne by congruence. done.
    + intros k dev Hk Hk0. destruct (decide (ip = k)) as [-> | Hne].
      * rewrite lookup_insert_eq in Hk. by injection Hk as <-.
      * rewrite lookup_insert_ne in Hk by done. congruence.
Qed.

Lemma registerAll_spec lib rs :
  ∀ m : gmap string Daikin,
    dom (registerAll lib rs m) = dom m ∪ list_to_set (net.IPString lib <$> rs)
    ∧ (∀ k dev, m !! k = Some dev → registerAll lib rs m !! k = Some dev)
    ∧ (∀ k dev, registerAll lib rs m !! k = Some dev → m !! k = None →
                dev = newDaikin k).
Proof.
  induction rs as [| r rs IH]; intros m.
  - cbn. split; [set_solver | split; [done | congruence]].
  - change (registerAll lib (r :: rs) m)
      with (registerAll lib rs (register (net.IPString lib r) m)).
    destruct (register_spec (net.IPString lib r) m) as (Hd1 & Hk1 & Hn1).
    destruct (IH (register (net.IPString lib r) m)) as (Hd2 & Hk2 & Hn2).
    split; [| split].
    + rewrite Hd2, Hd1. cbn [fmap list_fmap list_to_set]. set_solver.
    + intros k dev Hk. by apply Hk2, Hk1.
    + intros k dev Hk Hk0.
      destruct (register (net.IPString lib r) m !! k) as [dev1 |] eqn:E.
      * pose proof (Hk2 k dev1 E) as Hk'. rewrite Hk in Hk'. injection Hk' as ->.
        by eapply Hn1.
      * by eapply Hn2.
Qed.

Lemma replyOf_replyTurns lib rs :
  ∀ m, omap replyOf (replyTurns lib m rs) = rs.
Proof.
  induction rs as [| r rs IH]; intros m; [done |]. cbn [replyTurns].
  destruct (m !! net.IPString lib r); cbn; by rewrite IH.
Qed.

Lemma replyOf_idle k : omap replyOf (concat (replicate k [quiet; quiet])) = [].
Proof. induction k as [| k IH]; [done |]. cbn. exact IH. Qed.

Lemma set_Devices_id m d : Devices d = m → set_Devices m d = d.
Proof. destruct d. cbn. by intros <-. Qed.

(** One turn of the only poller. *)
Lemma runPollers_one lib a sched d p :
  who a = 0%nat →
  runPollers lib (a :: sched) d [p]
  = let '(d', p', evs) := stepPoller lib a d p in
    if isPanic p' then (d', [p'], evs)
    else let '(d'', ps', evs') := runPollers lib sched d' [p'] in
         (d'', ps', evs ++ evs').
Proof. intros Ha. cbn [runPollers]. rewrite Ha. reflexivity. Qed.

Lemma run_replies lib rs :
  ∀ (m : gmap string Daikin) d p sched,
    Devices d = Some m → at_ p = PRead →
    ∃ p' evs,
      at_ p' = PRead ∧ iter p' = iter p
      ∧ runPollers lib (replyTurns lib m rs ++ sched) d [p]
        = let '(d2, ps2, evs2) :=
            runPollers lib sched (set_Devices (Some (registerAll lib rs m)) d) [p'] in
          (d2, ps2, evs ++ evs2).
Proof.
  induction rs as [| r rs IH]; intros m d p sched HD Hat.
  - exists p, []. split; [done |]. split; [done |].
    cbn [replyTurns app registerAll foldl]. rewrite (set_Devices_id _ _ HD).
    by destruct (runPollers lib sched d [p]) as [[? ?] ?].
  - change (registerAll lib (r :: rs) m)
      with (registerAll lib rs (register (net.IPString lib r) m)).
    cbn [replyTurns]. unfold register.
    destruct (m !! net.IPString lib r) as [dev |] eqn:E.
    + destruct (IH m d (reading p) sched HD Hat) as (p' & evs & Hat' & Hit' & Hrun).
      exists p', ([EvSetReadDeadline (PollInterval d);
                   EvReadFromUDP (ReadFrom r)] ++ evs).
      split; [done |]. split; [done |].
      cbn [app]. rewrite runPollers_one by done.
      unfold stepPoller, lookupDevice. rewrite Hat, HD. cbn [readAnswer turn]. rewrite E.
      unfold isPanic. cbn [reading at_]. rewrite Hat, Hrun.
      by destruct (runPollers lib sched _ [p']) as [[? ?] ?].
    + set (m2 := <[net.IPString lib r := newDaikin (net.IPString lib r)]> m).
      destruct (IH m2 (set_Devices (Some m2) d)
                  (goto (storing (goto (reading p) (PStore (net.IPString lib r)))) PRead)
                  sched eq_refl eq_refl)
        as (p' & evs & Hat' & Hit' & Hrun).
      exists p', ([EvSetReadDeadline (PollInterval d);
                   EvReadFromUDP (ReadFrom r)] ++ evs).
      split; [done |]. split; [done |].
      cbn [app]. rewrite runPollers_one by done.
      unfold stepPoller at 1, lookupDevice. rewrite Hat, HD. cbn [readAnswer turn]. rewrite E.
      unfold isPanic at 1. cbn [goto at_].
      rewrite runPollers_one by done.
      unfold stepPoller at 1. cbn [goto at_]. rewrite HD.
      unfold isPanic at 1. cbn [goto at_]. fold m2. rewrite Hrun.
      cbn [set_Devices Interface PollInterval PollCount broadcasts Devices].
      by destruct (runPollers lib sched _ [p']) as [[? ?] ?].
Qed.

Lemma run_idle lib k :
  ∀ d p,
    at_ p = (if iter p <? PollCount d then PSend else PDone) →
    iter p + Z.of_nat k = PollCount d →
    ∃ p' evs,
      runPollers lib (concat (replicate k [quiet; quiet])) d [p] = (d, [p'], evs)
      ∧ at_ p' = PDone.
Proof.
  induction k as [| k IH]; intros d p Hat Hk.
  - exists p, []. split; [done |]. rewrite Hat.
    by destruct (Z.ltb_spec (iter p) (PollCount d)); [lia |].
  - destruct (Z.ltb_spec (iter p) (PollCount d)); [| lia].
    destruct (IH d (nextIter d (goto p PRead))) as (p' & evs & Hrun & Hdone).
    { reflexivity. }
    { cbn [nextIter goto iter]. lia. }
    exists p', ([EvWriteToUDP udpQueryPayload (net.ParseIP lib (bCast p)) 30050]
                ++ [EvSetReadDeadline (PollInterval d); EvReadFromUDP ReadTimeout] ++ evs).
    split; [| done].
    cbn [replicate concat app]. rewrite runPollers_one by done.
    unfold stepPoller at 1. rewrite Hat. cbn [writeFails quiet turn].
    unfold isPanic at 1. cbn [goto at_].
    rewrite runPollers_one by done.
    unfold stepPoller at 1. cbn [goto at_ readAnswer quiet turn].
    unfold isPanic at 1. cbn [nextIter at_ goto iter].
    destruct (iter p + 1 <? PollCount d); cbn [nextIter goto iter] in Hrun |- *;
      by rewrite Hrun.
Qed.

(** X28. A scan with one broadcast address, on a network whose map of
    devices [R] is not nil, in which the poller reads the replies [rs] in
    its first poll: for every list of source addresses, repeated or not and
    known or not, [Discover] returns nil and the map holds one entry for
    each key of [R] and each source address and no other; the entries of
    [R] are as they were and each new entry is the bare device of its
    address. *)
Theorem one_poller_registers lib ifs d d1 b (R : gmap string Daikin) rs :
  1 <= PollCount d →
  Devices d = Some R →
  getBroadcastAddresses lib ifs d = (d1, Ret tt) →
  broadcasts d1 = [b] →
  let w := {| interfaces := ifs; listenError := None;
              schedule := onePollerSchedule lib R rs (PollCount d) |} in
  omap replyOf (schedule w) = rs
  ∧ (∃ evs, Discover lib w d
            = Some (set_Devices (Some (registerAll lib rs R)) d1, Ret tt, evs))
  ∧ dom (registerAll lib rs R) = dom R ∪ list_to_set (net.IPString lib <$> rs)
  ∧ (∀ k dev, R !! k = Some dev → registerAll lib rs R !! k = Some dev)
  ∧ (∀ k dev, registerAll lib rs R !! k = Some dev → R !! k = None →
              dev = newDaikin k).
Proof.
  intros Hn HD Hg Hb w.
  split; [| split; [| apply registerAll_spec]].
  - subst w. cbn [schedule]. unfold onePollerSchedule.
    change (quiet :: replyTurns lib R rs ++ quiet :: ?l)
      with ([quiet] ++ replyTurns lib R rs ++ [quiet] ++ l).
    rewrite !omap_app, replyOf_replyTurns, replyOf_idle. cbn. by rewrite app_nil_r.
  - subst w. unfold Discover. cbn [interfaces listenError schedule].
    destruct (Z.ltb_spec (PollCount d) 1); [lia |]. rewrite Hg.
    apply getBroadcastAddresses_frame in Hg as (_ & _ & Hc & HD1). rewrite HD in HD1.
    unfold startPollers. rewrite Hb. cbn [fmap list_fmap].
    unfold onePollerSchedule. rewrite runPollers_one by done.
    unfold stepPoller at 1, loopHead at 1. cbn [at_].
    destruct (Z.ltb_spec 0 (PollCount d1)); [| lia]. cbn [writeFails quiet turn].
    unfold isPanic at 1. cbn [goto at_].
    destruct (run_replies lib rs R d1
                (goto (loopHead d1 (net.IPString lib b) 0) PRead)
                (quiet :: concat (replicate (Z.to_nat (PollCount d - 1)) [quiet; quiet]))
                HD1 eq_refl) as (p1 & evs1 & Hat1 & Hit1 & Hrun1).
    rewrite Hrun1. clear Hrun1.
    set (d2 := set_Devices (Some (registerAll lib rs R)) d1).
    rewrite runPollers_one by done.
    unfold stepPoller at 1. rewrite Hat1. cbn [readAnswer quiet turn].
    unfold isPanic at 1. cbn [nextIter at_].
    destruct (run_idle lib (Z.to_nat (PollCount d - 1)) d2 (nextIter d2 p1))
      as (p2 & evs2 & Hrun2 & Hdone).
    { reflexivity. }
    { cbn [nextIter iter]. rewrite Hit1. cbn [goto loopHead iter].
      subst d2. cbn [set_Devices PollCount]. lia. }
    assert (isPanic (nextIter d2 p1) = false) as Hnp.
    { unfold isPanic. cbn [nextIter at_]. by destruct (_ <? _). }
    unfold isPanic in Hnp. cbn [nextIter at_] in Hnp. rewrite Hnp.
    cbn [nextIter] in Hrun2. rewrite Hrun2.
    cbn [forallb dataRace existsb orb andb negb]. unfold isDone. rewrite Hdone.
    cbn. eexists. reflexivity.
Qed.

Lemma one_poller_registers_witness :
  ∃ evs,
    Discover ipv4.lib
      {| interfaces := inl [eth0 wantFlags]; listenError := None;
         schedule := onePollerSchedule ipv4.lib
                       {[ "192.168.1.7" := newDaikin "192.168.1.7" ]}
                       [[192; 168; 1; 9]; [192; 168; 1; 7]; [192; 168; 1; 9]] 1 |}
      seededNetwork
    = Some (set_Devices
              (Some (registerAll ipv4.lib
                       [[192; 168; 1; 9]; [192; 168; 1; 7]; [192; 168; 1; 9]]
                       {[ "192.168.1.7" := newDaikin "192.168.1.7" ]}))
              (set_broadcasts [[192; 168; 1; 255]] seededNetwork), Ret tt, evs).
Proof.
  refine (proj1 (proj2 (one_poller_registers ipv4.lib (inl [eth0 wantFlags]) seededNetwork
                          (set_broadcasts [[192; 168; 1; 255]] seededNetwork)
                          [192; 168; 1; 255]
                          {[ "192.168.1.7" := newDaikin "192.168.1.7" ]}
                          [[192; 168; 1; 9]; [192; 168; 1; 7]; [192; 168; 1; 9]]
                          _ _ _ _))).
  - vm_compute. discriminate.
  - reflexivity.
  - vm_compute; reflexivity.
  - reflexivity.
Defined.

(** ** The command line tool *)

Lemma fanOfRate_consts rate fan fan' :
  fanOfRate rate fan = inl fan' → fan' ∈ Fan_consts ∨ (rate = "" ∧ fan' = fan).
Proof.
  unfold fanOfRate. intros H.
  repeat match type of H with
         | context [String.eqb rate ?c] =>
             destruct (String.eqb_spec rate c) as [-> | _];
             [injection H as <-; first [by right | left; by_decide] |]
         end.
  discriminate H.
Qed.

Lemma fanDirOfFlags_consts h v : fanDirOfFlags h v ∈ FanDir_consts.
Proof. destruct h, v; by_decide. Qed.

Lemma newSettings_valid f c c' :
  newSettings f c = Some (inl c') →
  Mode c ∈ Mode_consts → Fan c ∈ Fan_consts →
  - 2 ^ 31 <= Humidity c < 2 ^ 31 →
  ControlInfo_valid c'
  ∧ Power c' = (if powerOff f then PowerOff else PowerOn)
  ∧ Temperature c'
    = (if SFltb (S754_zero false) (setTemp f) then setTemp f else Temperature c).
Proof.
  unfold newSettings. intros H HM HF HH.
  destruct (powerOn f || powerOff f) eqn:Hgate; [| discriminate H].
  destruct (fanOfRate (fanRate f) (Fan c)) as [fan |] eqn:Hfan; [| discriminate H].
  injection H as <-. cbn [Power Mode Fan FanDir Humidity Temperature].
  split; [| split; [| done]].
  - unfold ControlInfo_valid. cbn [Power Mode Fan FanDir Humidity].
    split; [| split; [| split; [| split]]].
    + destruct (powerOff f); [by_decide |]. destruct (powerOn f); [by_decide | done].
    + destruct (modeFan f); [by_decide |]. destruct (modeCool f); [by_decide |].
      destruct (modeHeat f); [by_decide | done].
    + by destruct (fanOfRate_consts _ _ _ Hfan) as [? | [_ ->]].
    + apply fanDirOfFlags_consts.
    + done.
  - destruct (powerOff f); [done |]. by destruct (powerOn f).
Qed.

(** X24. The block of [main] that applies the flags, when it reaches
    [SetControlInfo], hands it a [ControlInfo] whose enumerated fields hold
    constants of their types provided power, mode and fan speed did before
    (the louvre direction is always overwritten from the two direction
    flags); the power is off exactly when [-off] is given, also together
    with [-on]. *)
Theorem main_settings_valid f c c' :
  newSettings f c = Some (inl c') →
  Power c ∈ Power_consts → Mode c ∈ Mode_consts → Fan c ∈ Fan_consts →
  - 2 ^ 31 <= Humidity c < 2 ^ 31 →
  ControlInfo_valid c'
  ∧ Power c' = (if powerOff f then PowerOff else PowerOn)
  ∧ FanDir c' = fanDirOfFlags (fanHorizontal f) (fanVertical f).
Proof.
  intros H HP HM HF HH.
  destruct (newSettings_valid _ _ _ H HM HF HH) as (Hv & Hp & _).
  split; [done |]. split; [done |].
  unfold newSettings in H.
  destruct (powerOn f || powerOff f); [| discriminate H].
  destruct (fanOfRate (fanRate f) (Fan c)); [| discriminate H].
  by injection H as <-.
Qed.

Lemma main_settings_valid_witness :
  ControlInfo_valid
    {| Power := PowerOff; Mode := ModeHeat; Fan := Fan3; FanDir := FanDirVertical;
       Temperature := tenths 215; Humidity := 0 |}.
Proof.
  refine (proj1 (main_settings_valid someFlags someSettings _ _ _ _ _ _)).
  - vm_compute; reflexivity.
  - by_decide.
  - by_decide.
  - by_decide.
  - cbn. lia.
Defined.

Lemma tenths_positive :
  forallb (λ k, SFltb (S754_zero false) (tenths k)) (seqZ 1 1000) = true.
Proof. vm_compute. reflexivity. Qed.

Lemma populate_fails_entry order values c k v :
  rangeOrder order →
  values !! k = Some v → ControlInfo_entryError k v ≠ None →
  (ControlInfo_populate order values c).2 ≠ None.
Proof.
  intros Hord Hk Hfail.
  destruct (rangeOrder_list_to_map order values Hord) as (_ & _ & Hin).
  destruct (rangeLoop_fails ControlInfo_populate_body ControlInfo_entryError
              (λ s k v, ControlInfo_body_error s k v) (order values) c)
    as (kv & e & _ & _ & Hres).
  - apply Exists_exists. exists (k, v). split; [by apply Hin | done].
  - unfold ControlInfo_populate. by rewrite Hres.
Qed.

(** X25. Let mode and fan speed of the [ControlInfo] be constants of
    their types and its humidity fit an [int32] before the block of [main]
    that applies the flags (whatever its power and louvre direction, which
    the block overwrites), and let [-temp] be a whole number of tenths from
    0.1 to 100.0.  Then what the block hands to [SetControlInfo] survives
    the wire: [populate] on the parameters that [urlValues] writes for it
    gives the same [ControlInfo], whatever the order of the range.  The
    condition on the fan speed is needed: when the fan speed is empty, as
    after a response with no [f_rate], and no [-speed] is given, [populate]
    on those parameters returns an error. *)
Theorem main_settings_wire order f c c' c0 :
  rangeOrder order →
  newSettings f c = Some (inl c') →
  (∀ k, Mode c ∈ Mode_consts → Fan c ∈ Fan_consts →
        - 2 ^ 31 <= Humidity c < 2 ^ 31 →
        1 <= k <= 1000 → setTemp f = tenths k →
        ControlInfo_populate order (firstValues (ControlInfo_urlValues c')) c0
        = (c', None))
  ∧ (Fan c = "" → fanRate f = "" →
     (ControlInfo_populate order (firstValues (ControlInfo_urlValues c')) c0).2 ≠ None).
Proof.
  intros Hord H. split.
  - intros k HM HF HH Hk Ht.
    destruct (newSettings_valid _ _ _ H HM HF HH) as (Hv & _ & HT).
    apply populate_of_urlValues; [done | done |].
    assert (SFltb (S754_zero false) (tenths k) = true) as Hpos.
    { pose proof tenths_positive as Hall. rewrite forallb_forall in Hall.
      apply Hall. apply list_elem_of_In, elem_of_seqZ. lia. }
    rewrite HT, Ht, Hpos.
    destruct (tenths_round_trip k (S754_zero false)) as [He Hd]; [lia |].
    unfold Temperature_decode in Hd. unfold Temperature_String.
    unfold Temperature_encode, Temperature_setUrlValues, Temperature_String in Hd.
    change (url.Get (url.Set_ "stemp" (strconv.FormatFloat_f1 (tenths k)) ∅) "stemp")
      with (strconv.FormatFloat_f1 (tenths k)) in Hd.
    destruct (strconv.ParseFloat (strconv.FormatFloat_f1 (tenths k))); [| discriminate Hd].
    by injection Hd as ->.
  - intros HF Hrate.
    apply (populate_fails_entry order _ c0 "f_rate" ""); [done | | done].
    rewrite firstValues_urlValues.
    repeat first [rewrite lookup_insert_eq | rewrite lookup_insert_ne by done].
    f_equal. unfold newSettings in H.
    destruct (powerOn f || powerOff f); [| discriminate H].
    rewrite Hrate, HF in H. cbn [fanOfRate String.eqb] in H.
    by injection H as <-.
Qed.

Lemma main_settings_wire_witness :
  ControlInfo_populate map_to_list
    (firstValues (ControlInfo_urlValues
       {| Power := PowerOff; Mode := ModeHeat; Fan := Fan3; FanDir := FanDirVertical;
          Temperature := tenths 215; Humidity := 0 |}))
    ControlInfo_zero
  = ({| Power := PowerOff; Mode := ModeHeat; Fan := Fan3; FanDir := FanDirVertical;
        Temperature := tenths 215; Humidity := 0 |}, None).
Proof.
  refine (proj1 (main_settings_wire map_to_list someFlags someSettings _ ControlInfo_zero
                   _ _) 215 _ _ _ _ _).
  - apply rangeOrder_map_to_list.
  - vm_compute; reflexivity.
  - by_decide.
  - by_decide.
  - cbn. lia.
  - lia.
  - reflexivity.
Defined.
